(** * NUMA-aware CPU and resource allocator (koordinator, plugin nodenumaresource)

    A shallow embedding of
      - pkg/scheduler/plugins/nodenumaresource/node_allocation.go
      - pkg/scheduler/plugins/nodenumaresource/resource_manager.go
      - the grouping and the ordering of the processors in the CPU
        information of pkg/koordlet/util
    and the properties of the per-node ledger, the hint generator and the
    allocation steps.

    Conventions of the embedding
      - Go [int] is a 64-bit two's complement integer: values are in [Z] and
        every arithmetic operation of the source on an [int] is followed by
        [wrap_int].
      - [resource.Quantity] is an exact decimal number; it is embedded as the
        integer number of its smallest unit (milli-units), without bound.
      - Go maps are [gmap]s, [cpuset.CPUSet] is a [gset Z]; a [nil] map and an
        empty map read the same and are both [∅].  A [range] over a map or
        over [ToSliceNoSort] visits every key once in an unspecified order:
        it is a fold over [map_to_list] / [elements].
      - The locks of the source serialise the operations; every operation is
        embedded as one atomic state transformer. *)

From Stdlib Require Import ZArith List Lia.
From stdpp Require Import base gmap strings list fin_maps fin_sets.

#[local] Set Warnings "-clear-no-such-hyp".

Local Open Scope Z_scope.

(** ** Machine integers *)

Definition int_modulus : Z := 2 ^ 64.
Definition int_half : Z := 2 ^ 63.

(** The value of a Go [int] after an arithmetic operation whose exact result
    is [z]. *)
Definition wrap_int (z : Z) : Z := (z + int_half) mod int_modulus - int_half.

Definition int_range (z : Z) : Prop := - int_half <= z < int_half.

(** ** Resource lists and the helpers of k8s.io/apiserver/pkg/quota/v1 *)

Abbreviation Quantity := Z (only parsing).
Abbreviation ResourceList := (gmap string Z) (only parsing).

Module quotav1.

(** [Add(a, b)]: every key of [a] or [b]; the sum where both have it. *)
Definition Add (a b : ResourceList) : ResourceList :=
  union_with (λ x y, Some (x + y)) a b.

(** [SubtractWithNonNegativeResult(a, b)]: for a key of [a], [a - b] when it
    is positive and zero otherwise; a key that only [b] has is zero. *)
Definition SubtractWithNonNegativeResult (a b : ResourceList) : ResourceList :=
  merge (λ oa ob,
           match oa, ob with
           | Some x, Some y => Some (if decide (0 < x - y) then x - y else 0)
           | Some x, None => Some (if decide (0 < x) then x else 0)
           | None, Some _ => Some 0
           | None, None => None
           end) a b.

(** [LessThanOrEqual(a, b)]: no key of [b] that [a] also has is exceeded. *)
Definition LessThanOrEqual (a b : ResourceList) : bool :=
  bool_decide (map_Forall (λ k v, match a !! k with
                                  | Some other => bool_decide (other <= v)
                                  | None => true
                                  end = true) b).

(** [IsZero(a)]: every quantity of [a] is zero. *)
Definition IsZero (a : ResourceList) : bool :=
  bool_decide (map_Forall (λ _ v, v = 0) a).

End quotav1.

(** ** Data model *)

(** Modelled from the spec: the entry type of [CPUDetails] (declared in
    cpu_topology.go): membership of a logical CPU, its reference count and
    the exclusive policy it was last allocated with. *)
Record CPUInfo := mkCPUInfo {
  CPUID : Z;
  CoreID : Z;
  NodeID : Z;
  SocketID : Z;
  L3ID : Z;
  RefCount : Z;
  ExclusivePolicy : string;
}.

(** The zero value Go returns when a map has no entry for the key. *)
Definition zeroCPUInfo : CPUInfo := mkCPUInfo 0 0 0 0 0 0 "".

Abbreviation CPUDetails := (gmap Z CPUInfo) (only parsing).
Abbreviation CPUSet := (gset Z) (only parsing).

Definition setRefCount (i : CPUInfo) (r : Z) : CPUInfo :=
  mkCPUInfo (CPUID i) (CoreID i) (NodeID i) (SocketID i) (L3ID i) r (ExclusivePolicy i).

Definition setExclusivePolicy (i : CPUInfo) (p : string) : CPUInfo :=
  mkCPUInfo (CPUID i) (CoreID i) (NodeID i) (SocketID i) (L3ID i) (RefCount i) p.

(** Modelled from the spec: [CPUTopology] (declared in cpu_topology.go), the
    description of the logical CPUs with the derived number of CPUs per
    core. *)
Record CPUTopology := mkCPUTopology {
  topoCPUDetails : CPUDetails;
  CPUsPerCore : Z;
}.

(** Modelled from the spec: [CPUTopology.IsValid] (cpu_topology.go): the
    topology is not empty and has at least one CPU per core. *)
Definition IsValid (t : CPUTopology) : bool :=
  bool_decide (topoCPUDetails t ≠ ∅) && bool_decide (1 <= CPUsPerCore t).

Record NUMANodeResource := mkNUMANodeResource {
  Node : Z;
  Resources : ResourceList;
}.

Record PodAllocation := mkPodAllocation {
  UID : string;
  Namespace : string;
  Name : string;
  paCPUSet : CPUSet;
  CPUExclusivePolicy : string;
  NUMANodeResources : list NUMANodeResource;
}.

Record NodeAllocation := mkNodeAllocation {
  nodeName : string;
  allocatedPods : gmap string PodAllocation;
  allocatedCPUs : CPUDetails;
  allocatedResources : gmap Z NUMANodeResource;
}.

Definition NewNodeAllocation (name : string) : NodeAllocation :=
  mkNodeAllocation name ∅ ∅ ∅.

(** ** node_allocation.go *)

(** One iteration of the CPU loop of [addPodAllocation]. *)
Definition addCPU (cpuTopology : CPUTopology) (policy : string)
    (cpus : CPUDetails) (cpuID : Z) : CPUDetails :=
  let cpuInfo := match cpus !! cpuID with
                 | Some i => i
                 | None => default zeroCPUInfo (topoCPUDetails cpuTopology !! cpuID)
                 end in
  let cpuInfo := setExclusivePolicy cpuInfo policy in
  let cpuInfo := setRefCount cpuInfo (wrap_int (RefCount cpuInfo + 1)) in
  <[cpuID := cpuInfo]> cpus.

(** One iteration of the NUMA loop of [addPodAllocation]; [nodeID] is the
    index of [numaNodeRes] in the request's slice, which is what the source
    stores in the [Node] field of an entry it creates. *)
Definition addNUMA (res : gmap Z NUMANodeResource) (nodeID : Z)
    (numaNodeRes : NUMANodeResource) : gmap Z NUMANodeResource :=
  let r := match res !! Node numaNodeRes with
           | Some r => r
           | None => mkNUMANodeResource nodeID ∅
           end in
  <[Node numaNodeRes := mkNUMANodeResource (Node r)
                           (quotav1.Add (Resources r) (Resources numaNodeRes))]> res.

Fixpoint addNUMAs (res : gmap Z NUMANodeResource) (nodeID : Z)
    (l : list NUMANodeResource) : gmap Z NUMANodeResource :=
  match l with
  | [] => res
  | x :: l' => addNUMAs (addNUMA res nodeID x) (nodeID + 1) l'
  end.

Definition addPodAllocation (n : NodeAllocation) (request : PodAllocation)
    (cpuTopology : CPUTopology) : NodeAllocation :=
  match allocatedPods n !! UID request with
  | Some _ => n
  | None =>
      mkNodeAllocation (nodeName n)
        (<[UID request := request]> (allocatedPods n))
        (fold_left (addCPU cpuTopology (CPUExclusivePolicy request))
                   (elements (paCPUSet request)) (allocatedCPUs n))
        (addNUMAs (allocatedResources n) 0 (NUMANodeResources request))
  end.

(** One iteration of the CPU loop of [release]. *)
Definition releaseCPU (cpus : CPUDetails) (cpuID : Z) : CPUDetails :=
  match cpus !! cpuID with
  | None => cpus
  | Some cpuInfo =>
      let cpuInfo := setRefCount cpuInfo (wrap_int (RefCount cpuInfo - 1)) in
      if decide (RefCount cpuInfo = 0) then delete cpuID cpus
      else <[cpuID := cpuInfo]> cpus
  end.

(** One iteration of the NUMA loop of [release]. *)
Definition releaseNUMA (res : gmap Z NUMANodeResource)
    (numaNodeRes : NUMANodeResource) : gmap Z NUMANodeResource :=
  match res !! Node numaNodeRes with
  | None => res
  | Some r =>
      <[Node numaNodeRes := mkNUMANodeResource (Node r)
          (quotav1.SubtractWithNonNegativeResult (Resources r) (Resources numaNodeRes))]> res
  end.

Definition release (n : NodeAllocation) (podUID : string) : NodeAllocation :=
  match allocatedPods n !! podUID with
  | None => n
  | Some request =>
      mkNodeAllocation (nodeName n)
        (delete podUID (allocatedPods n))
        (fold_left releaseCPU (elements (paCPUSet request)) (allocatedCPUs n))
        (fold_left releaseNUMA (NUMANodeResources request) (allocatedResources n))
  end.

Definition update (n : NodeAllocation) (allocation : PodAllocation)
    (cpuTopology : CPUTopology) : NodeAllocation :=
  addPodAllocation (release n (UID allocation)) allocation cpuTopology.

Definition getCPUs (n : NodeAllocation) (podUID : string) : CPUSet * bool :=
  match allocatedPods n !! podUID with
  | Some request => (paCPUSet request, true)
  | None => (∅, false)
  end.

(** ** Availability queries of node_allocation.go *)

(** One iteration of the loop of [getAvailableCPUs] over the preferred CPUs. *)
Definition unreferPreferred (allocateInfo : CPUDetails) (cpuID : Z) : CPUDetails :=
  match allocateInfo !! cpuID with
  | Some cpuInfo =>
      let cpuInfo := setRefCount cpuInfo (wrap_int (RefCount cpuInfo - 1)) in
      if decide (RefCount cpuInfo = 0) then delete cpuID allocateInfo
      else <[cpuID := cpuInfo]> allocateInfo
  | None => allocateInfo
  end.

(** Modelled from the spec: [CPUDetails.CPUs] (cpu_topology.go): the CPU ids
    of the entries. *)
Definition CPUs (d : CPUDetails) : CPUSet := dom d.

Definition getAvailableCPUs (n : NodeAllocation) (cpuTopology : CPUTopology)
    (maxRefCount : Z) (reservedCPUs preferredCPUs : CPUSet) : CPUSet * CPUDetails :=
  let allocateInfo := allocatedCPUs n in
  let allocateInfo :=
    if decide (preferredCPUs = ∅) then allocateInfo
    else fold_left unreferPreferred (elements preferredCPUs) allocateInfo in
  let allocated :=
    filter (λ cpuID, maxRefCount <= RefCount (default zeroCPUInfo (allocateInfo !! cpuID)))
           (CPUs allocateInfo) in
  (CPUs (topoCPUDetails cpuTopology) ∖ allocated ∖ reservedCPUs, allocateInfo).

(** Modelled from the spec: [TopologyOptions] (declared in
    topology_options.go) bundles the CPU topology (a pointer, [None] when
    nil), the capacity per NUMA node, the reserved CPUs and the maximal
    reference count of a CPU; the amplification ratios are not read by the
    functions embedded here. *)
Record TopologyOptions := mkTopologyOptions {
  toCPUTopology : option CPUTopology;
  toReservedCPUs : CPUSet;
  toMaxRefCount : Z;
  toNUMANodeResources : list NUMANodeResource;
}.

(** One iteration of the loop of [NodeAllocation.getAvailableNUMANodeResources]. *)
Definition availableOfNode (n : NodeAllocation)
    (acc : gmap Z (gmap string Z) * gmap Z (gmap string Z))
    (numaNodeRes : NUMANodeResource) : gmap Z (gmap string Z) * gmap Z (gmap string Z) :=
  let '(totalAvailable, totalAllocated) := acc in
  match allocatedResources n !! Node numaNodeRes with
  | Some allocated =>
      (<[Node numaNodeRes :=
           quotav1.SubtractWithNonNegativeResult (Resources numaNodeRes) (Resources allocated)]>
         totalAvailable,
       <[Node numaNodeRes := Resources allocated]> totalAllocated)
  | None =>
      (<[Node numaNodeRes :=
           quotav1.SubtractWithNonNegativeResult (Resources numaNodeRes) ∅]> totalAvailable,
       totalAllocated)
  end.

(** [NodeAllocation.getAvailableNUMANodeResources] as node_allocation.go has
    it: the only argument is the topology options. *)
Definition getAvailableNUMANodeResources (n : NodeAllocation)
    (topologyOptions : TopologyOptions)
    : gmap Z (gmap string Z) * gmap Z (gmap string Z) :=
  fold_left (availableOfNode n) (toNUMANodeResources topologyOptions) (∅, ∅).

(** ** Bit masks of NUMA nodes *)

Module bitmask.

(** Modelled from the spec: [bitMask.Add] of pkg/util/bitmask, the package of
    the fixed-width (64-bit) masks of NUMA cells: sets the given bits and
    fails on a bit outside 0..63. *)
Fixpoint Add (s : Z) (bits : list Z) : option Z :=
  match bits with
  | [] => Some s
  | i :: bits' =>
      if decide (i < 0 ∨ 64 <= i) then None
      else Add (Z.lor s (Z.shiftl 1 i)) bits'
  end.

(** Modelled from the spec: [NewBitMask] of pkg/util/bitmask: the mask with
    the given bits, [None] (a nil mask and an error) when [Add] fails. *)
Definition NewBitMask (bits : list Z) : option Z := Add 0 bits.

(** Modelled from the spec: [GetBits] of pkg/util/bitmask: the set bits in
    ascending order. *)
Definition GetBits (s : Z) : list Z :=
  filter (λ i, 0 < Z.land s (Z.shiftl 1 i)) (seqZ 0 64).

(** Modelled from the spec: [Count] of pkg/util/bitmask: the number of set
    bits. *)
Definition Count (s : Z) : Z :=
  fold_right (λ i acc, Z.b2z (Z.testbit s i) + acc) 0 (seqZ 0 64).

(** Modelled from the spec: the recursive closure [iterate(bits, accum, size)]
    of [IterateBitMasks]: the masks it calls back on, in order; [todo] is
    [size - len(accum)]. *)
Fixpoint iterate (todo : nat) (bits accum : list Z) : list (option Z) :=
  match todo with
  | O => [NewBitMask accum]
  | S todo' =>
      (fix loop (bits : list Z) : list (option Z) :=
         match bits with
         | [] => []
         | b :: rest => iterate todo' rest (accum ++ [b]) ++ loop rest
         end) bits
  end.

(** Modelled from the spec: [IterateBitMasks] of pkg/util/bitmask: calls back
    on every non-empty subset of the given bits, by ascending cardinality,
    with the mask [NewBitMask] returns for it. *)
Definition IterateBitMasks (bits : list Z) : list (option Z) :=
  flat_map (λ i, iterate i bits []) (seq 1 (length bits)).

End bitmask.

(** ** resource_manager.go: types *)

Inductive error :=
| Errorf (msg : string)
| Unschedulable (reasons : list string).

(** The ways a call ends: a result, an error value, or a run-time panic. *)
Inductive outcome (A : Type) :=
| Ok (a : A)
| Err (e : error)
| Panic.
Arguments Ok {A} a.
Arguments Err {A} e.
Arguments Panic {A}.

(** What the functions read of a [corev1.Node] and of a [corev1.Pod]. *)
Record CoreNode := mkCoreNode {
  cnName : string;
  cnLabels : gmap string string;
}.

Record CorePod := mkCorePod {
  podUID : string;
  podNamespace : string;
  podName : string;
}.

(** [topologymanager.NUMATopologyHint]; the affinity is [None] when nil. *)
Record NUMATopologyHint := mkNUMATopologyHint {
  NUMANodeAffinity : option Z;
  Preferred : bool;
}.

Record ResourceOptions := mkResourceOptions {
  numCPUsNeeded : Z;
  requestCPUBind : bool;
  requests : gmap string Z;
  originalRequests : gmap string Z;
  requiredCPUBindPolicy : bool;
  cpuBindPolicy : string;
  cpuExclusivePolicy : string;
  preferredCPUs : CPUSet;
  reusableResources : gmap Z (gmap string Z);
  hint : NUMATopologyHint;
  topologyOptions : TopologyOptions;
}.

(** The manager: the [TopologyOptionsManager] it holds is read through
    [GetTopologyOptions] only. *)
Record resourceManager := mkResourceManager {
  numaAllocateStrategy : string;
  GetTopologyOptions : string → TopologyOptions;
  nodeAllocations : gmap string NodeAllocation;
}.

(** Modelled from the spec: the constant of the binding policy that takes
    whole physical cores (apis/config). *)
Definition CPUBindPolicyFullPCPUs : string := "FullPCPUs".

(** Modelled from the spec: the constant of the binding policy that spreads
    over physical cores (apis/config). *)
Definition CPUBindPolicySpreadByPCPUs : string := "SpreadByPCPUs".

(** Modelled from the spec: the message of the error for a node that has no
    CPU topology (plugin.go). *)
Definition ErrNotFoundCPUTopology : string := "node(s) CPU Topology not found".

(** Modelled from the spec: the message of the error for a node whose CPU
    topology is not valid (plugin.go). *)
Definition ErrInvalidCPUTopology : string := "node(s) invalid CPU Topology".

(** Modelled from the spec: the node label of the NUMA allocate strategy
    (apis/extension). *)
Definition LabelNodeNUMAAllocateStrategy : string :=
  "node.koordinator.sh/numa-allocate-strategy".

(** Modelled from the spec: [CPUDetails.KeepOnly] (cpu_topology.go): the
    entries of the given CPUs. *)
Definition KeepOnly (d : CPUDetails) (cpus : CPUSet) : CPUDetails :=
  filter (λ kv : Z * CPUInfo, kv.1 ∈ cpus) d.

(** Modelled from the spec: [CPUDetails.Cores] (cpu_topology.go): the core
    ids of the entries. *)
Definition Cores (d : CPUDetails) : CPUSet :=
  map_to_set (λ _ i, CoreID i) d.

(** Modelled from the spec: [CPUDetails.CPUsInCores] (cpu_topology.go): the
    CPUs of the given cores. *)
Definition CPUsInCores (d : CPUDetails) (coreIDs : list Z) : CPUSet :=
  dom (filter (λ kv : Z * CPUInfo, CoreID kv.2 ∈ coreIDs) d).

(** Modelled from the spec: [CPUDetails.CPUsInNUMANodes] (cpu_topology.go):
    the CPUs of the given NUMA nodes. *)
Definition CPUsInNUMANodes (d : CPUDetails) (nodeIDs : list Z) : CPUSet :=
  dom (filter (λ kv : Z * CPUInfo, NodeID kv.2 ∈ nodeIDs) d).

(** [Size()] of a CPU set, an [int]. *)
Definition Size (s : CPUSet) : Z := Z.of_nat (size s).

(** ** resource_manager.go: functions *)

Definition setNodeAllocations (c : resourceManager)
    (m : gmap string NodeAllocation) : resourceManager :=
  mkResourceManager (numaAllocateStrategy c) (GetTopologyOptions c) m.

Definition getOrCreateNodeAllocation (c : resourceManager) (name : string)
    : NodeAllocation * resourceManager :=
  match nodeAllocations c !! name with
  | Some v => (v, c)
  | None =>
      let v := NewNodeAllocation name in
      (v, setNodeAllocations c (<[name := v]> (nodeAllocations c)))
  end.

Definition GetNodeAllocation (c : resourceManager) (name : string)
    : NodeAllocation * resourceManager :=
  getOrCreateNodeAllocation c name.

(** The manager's [getAvailableNUMANodeResources]: it hands
    [reusableResources] to the method of the node allocation, which (see
    [getAvailableNUMANodeResources] above) has no parameter for it.  The
    error it returns is always nil. *)
Definition managerAvailableNUMANodeResources (c : resourceManager) (name : string)
    (topologyOptions : TopologyOptions) (reusableResources : gmap Z (gmap string Z))
    : (gmap Z (gmap string Z) * gmap Z (gmap string Z)) * resourceManager :=
  let '(nodeAllocation, c) := getOrCreateNodeAllocation c name in
  (getAvailableNUMANodeResources nodeAllocation topologyOptions, c).

(** The sum of the availability of the cells of a mask. *)
Definition availableOfMask (totalAvailable : gmap Z (gmap string Z))
    (maskBits : list Z) : gmap string Z :=
  fold_left (λ available nodeID,
               quotav1.Add available (default ∅ (totalAvailable !! nodeID)))
            maskBits ∅.

(** One iteration of the loop of the callback over the requested resources. *)
Definition appendHint (available : gmap string Z) (mask : Z)
    (hints : gmap string (list NUMATopologyHint)) (resourceName : string)
    : gmap string (list NUMATopologyHint) :=
  match available !! resourceName with
  | None => hints
  | Some _ =>
      <[resourceName := default [] (hints !! resourceName)
                          ++ [mkNUMATopologyHint (Some mask) false]]> hints
  end.

(** The callback of [generateResourceHints] on a mask; the state is
    [minAffinitySize] and [hints]. *)
Definition hintCallback (podRequests : gmap string Z)
    (totalAvailable : gmap Z (gmap string Z))
    (st : Z * gmap string (list NUMATopologyHint)) (mask : Z)
    : Z * gmap string (list NUMATopologyHint) :=
  let '(minAffinitySize, hints) := st in
  let maskBits := bitmask.GetBits mask in
  let available := availableOfMask totalAvailable maskBits in
  if negb (quotav1.LessThanOrEqual podRequests available) then st
  else
    let minAffinitySize :=
      if decide (bitmask.Count mask < minAffinitySize) then bitmask.Count mask
      else minAffinitySize in
    (minAffinitySize,
     fold_left (appendHint available mask) (map_to_list podRequests).*1 hints).

(** The bits of the affinity of a hint; every hint of [generateResourceHints]
    holds the mask the callback was given. *)
Definition hintBits (h : NUMATopologyHint) : list Z :=
  match NUMANodeAffinity h with
  | Some mask => bitmask.GetBits mask
  | None => []
  end.

(** One iteration of the final loop of [generateResourceHints]. *)
Definition markPreferred (minAffinitySize : Z)
    (hints : gmap string (list NUMATopologyHint)) (resourceName : string)
    : gmap string (list NUMATopologyHint) :=
  match hints !! resourceName with
  | None => hints
  | Some l =>
      <[resourceName :=
          (λ h, mkNUMATopologyHint (NUMANodeAffinity h)
                  (bool_decide (Z.of_nat (length (hintBits h)) = minAffinitySize)))
            <$> l]> hints
  end.

(** [generateResourceHints]; [None] when a mask is nil, on which the callback
    panics. *)
Definition generateResourceHints (numaNodes : list Z) (podRequests : gmap string Z)
    (totalAvailable : gmap Z (gmap string Z))
    : option (gmap string (list NUMATopologyHint)) :=
  masks ← mapM id (bitmask.IterateBitMasks numaNodes);
  let '(minAffinitySize, hints) :=
    fold_left (hintCallback podRequests totalAvailable) masks
              (Z.of_nat (length numaNodes), ∅) in
  Some (fold_left (markPreferred minAffinitySize) (map_to_list podRequests).*1 hints).

Definition GetTopologyHints (c : resourceManager) (node : CoreNode) (pod : CorePod)
    (options : ResourceOptions)
    : outcome (gmap string (list NUMATopologyHint)) * resourceManager :=
  let topologyOptions := topologyOptions options in
  if decide (length (toNUMANodeResources topologyOptions) = 0%nat)
  then (Err (Errorf "insufficient resources on NUMA Node"), c)
  else
    let '((totalAvailable, _), c) :=
      managerAvailableNUMANodeResources c (cnName node) topologyOptions
        (reusableResources options) in
    let nodes := Node <$> toNUMANodeResources topologyOptions in
    match generateResourceHints nodes (requests options) totalAvailable with
    | Some result => (Ok result, c)
    | None => (Panic, c)
    end.

(** [allocateRes(available, request)]: the new available quantity, the
    remaining request and the allocated quantity. *)
Definition allocateRes (available request : Z) : Z * Z * Z :=
  match available ?= request with
  | Gt => (available - request, request - request, request)
  | Lt => (available - available, request - available, available)
  | Eq => (request - request, request - request, available)
  end.

(** The state of the loops of [allocateResourcesByHint]. *)
Record hintAlloc := mkHintAlloc {
  haAvailable : gmap Z (gmap string Z);
  haRequests : gmap string Z;
  haIntersection : gset string;
  haResult : list NUMANodeResource;
}.

(** One iteration of the loop over the requests for a NUMA node whose
    availability is [allocatable]; the state is [allocatable], [requests],
    the resources of [r] and [intersectionResources]. *)
Definition allocateOne
    (st : gmap string Z * gmap string Z * gmap string Z * gset string)
    (kv : string * Z)
    : gmap string Z * gmap string Z * gmap string Z * gset string :=
  let '(allocatable, requests, rResources, intersectionResources) := st in
  let '(resourceName, quantity) := kv in
  match allocatable !! resourceName with
  | Some allocatableQuantity =>
      let '(newAvailable, newRequest, allocated) :=
        allocateRes allocatableQuantity quantity in
      (<[resourceName := newAvailable]> allocatable,
       <[resourceName := newRequest]> requests,
       (if decide (allocated = 0) then rResources
        else <[resourceName := allocated]> rResources),
       {[resourceName]} ∪ intersectionResources)
  | None => st
  end.

(** The body of the loop over the bits of the hint. *)
Definition allocateOnNode (st : hintAlloc) (numaNodeID : Z) : hintAlloc :=
  let '(allocatable, requests, rResources, intersectionResources) :=
    fold_left allocateOne (map_to_list (haRequests st))
      (default ∅ (haAvailable st !! numaNodeID), haRequests st, ∅, haIntersection st) in
  mkHintAlloc
    (match haAvailable st !! numaNodeID with
     | Some _ => <[numaNodeID := allocatable]> (haAvailable st)
     | None => haAvailable st
     end)
    requests intersectionResources
    (if quotav1.IsZero rResources then haResult st
     else haResult st ++ [mkNUMANodeResource numaNodeID rResources]).

(** The loop over the bits of the hint, left when every request is zero. *)
Fixpoint allocateOnNodes (bits : list Z) (st : hintAlloc) : hintAlloc :=
  match bits with
  | [] => st
  | numaNodeID :: bits' =>
      let st := allocateOnNode st numaNodeID in
      if quotav1.IsZero (haRequests st) then st else allocateOnNodes bits' st
  end.

(** One iteration of the loop that collects the reasons. *)
Definition addReason (intersectionResources : gset string) (reasons : list string)
    (kv : string * Z) : list string :=
  if decide (kv.1 ∈ intersectionResources) then
    if decide (kv.2 = 0) then reasons
    else reasons ++ [("Insufficient NUMA " +:+ kv.1)%string]
  else reasons.

Definition allocateResourcesByHint (c : resourceManager) (node : CoreNode)
    (pod : CorePod) (options : ResourceOptions)
    : outcome (list NUMANodeResource) * resourceManager :=
  if decide (length (toNUMANodeResources (topologyOptions options)) = 0%nat)
  then (Err (Errorf "insufficient resources on NUMA Node"), c)
  else
    let '((totalAvailable, _), c) :=
      managerAvailableNUMANodeResources c (cnName node) (topologyOptions options)
        (reusableResources options) in
    let requests :=
      if requestCPUBind options then originalRequests options else requests options in
    match NUMANodeAffinity (hint options) with
    | None => (Panic, c)
    | Some mask =>
        let st := allocateOnNodes (bitmask.GetBits mask)
                    (mkHintAlloc totalAvailable requests ∅ []) in
        let reasons :=
          fold_left (addReason (haIntersection st)) (map_to_list (haRequests st)) [] in
        if decide (0 < length reasons)%nat then (Err (Unschedulable reasons), c)
        else (Ok (haResult st), c)
    end.

Definition GetNUMAAllocateStrategy (node : CoreNode)
    (defaultNUMAtAllocateStrategy : string) : string :=
  let val := default "" (cnLabels node !! LabelNodeNUMAAllocateStrategy) in
  if decide (val ≠ "") then val else defaultNUMAtAllocateStrategy.

Definition determineFullPCPUs (cpus : CPUSet) (details : CPUDetails)
    (cpusPerCore : Z) : bool :=
  let details := KeepOnly details cpus in
  bool_decide (wrap_int (Size (Cores details) * cpusPerCore) = Size cpus).

Definition determineSpreadByPCPUs (cpus : CPUSet) (details : CPUDetails) : bool :=
  let details := KeepOnly details cpus in
  bool_decide (Size (Cores details) = Size cpus).

(** [satisfiedRequiredCPUBindPolicy]; [None] is the nil error. *)
Definition satisfiedRequiredCPUBindPolicy (policy : string) (cpus : CPUSet)
    (topology : CPUTopology) : option error :=
  let satisfied :=
    if decide (policy = CPUBindPolicyFullPCPUs)
    then determineFullPCPUs cpus (topoCPUDetails topology) (CPUsPerCore topology)
    else if decide (policy = CPUBindPolicySpreadByPCPUs)
         then determineSpreadByPCPUs cpus (topoCPUDetails topology)
         else true in
  if negb satisfied
  then Some (Errorf ("insufficient CPUs to satisfy required cpu bind policy " +:+ policy))
  else None.

(** [filterAvailableCPUsByRequiredCPUBindPolicy]; the remainder by a zero
    [cpusPerCore] panics. *)
Definition filterAvailableCPUsByRequiredCPUBindPolicy (policy : string)
    (availableCPUs : CPUSet) (cpuDetails : CPUDetails) (cpusPerCore : Z)
    : outcome CPUSet :=
  if decide (policy = CPUBindPolicyFullPCPUs) then
    let cpus := CPUsInCores cpuDetails (elements (Cores cpuDetails)) in
    if decide (cpusPerCore = 0) then Panic
    else if decide (Z.rem (Size cpus) cpusPerCore ≠ 0) then Ok availableCPUs
         else Ok cpus
  else Ok availableCPUs.

Definition GetAvailableCPUs (c : resourceManager) (name : string)
    (preferredCPUs : CPUSet) : outcome (CPUSet * CPUDetails) * resourceManager :=
  let topologyOptions := GetTopologyOptions c name in
  match toCPUTopology topologyOptions with
  | None => (Err (Errorf ErrNotFoundCPUTopology), c)
  | Some cpuTopology =>
      if negb (IsValid cpuTopology) then (Err (Errorf ErrInvalidCPUTopology), c)
      else
        let '(allocation, c) := getOrCreateNodeAllocation c name in
        (Ok (getAvailableCPUs allocation cpuTopology (toMaxRefCount topologyOptions)
               (toReservedCPUs topologyOptions) preferredCPUs), c)
  end.

Definition GetAllocatedCPUSet (c : resourceManager) (name : string) (uid : string)
    : (CPUSet * bool) * resourceManager :=
  let '(nodeAllocation, c) := getOrCreateNodeAllocation c name in
  (getCPUs nodeAllocation uid, c).

(** [Update]: the node allocation is held by pointer, the update is written
    to the entry of the node. *)
Definition Update (c : resourceManager) (name : string) (allocation : PodAllocation)
    : resourceManager :=
  let topologyOptions := GetTopologyOptions c name in
  match toCPUTopology topologyOptions with
  | None => c
  | Some cpuTopology =>
      if negb (IsValid cpuTopology) then c
      else
        let '(nodeAllocation, c) := getOrCreateNodeAllocation c name in
        setNodeAllocations c
          (<[name := update nodeAllocation allocation cpuTopology]> (nodeAllocations c))
  end.

Definition Release (c : resourceManager) (name : string) (uid : string)
    : resourceManager :=
  let '(nodeAllocation, c) := getOrCreateNodeAllocation c name in
  setNodeAllocations c (<[name := release nodeAllocation uid]> (nodeAllocations c)).

Section Allocate.

(** [takePreferredCPUs] (cpu_accumulator.go) is taken as any function of its
    arguments; the allocated CPUs it is given are the copy that
    [getAvailableCPUs] made. *)
Variable takePreferredCPUs :
  option CPUTopology → Z → CPUSet → CPUSet → CPUDetails → Z →
  string → string → string → outcome CPUSet.

(** The loop of [allocateCPUSet] over the allocated NUMA nodes. *)
Fixpoint takeOnNUMANodes (cpuTopology : CPUTopology) (options : ResourceOptions)
    (availableCPUs : CPUSet) (allocatedCPUs : CPUDetails) (numaAllocateStrategy : string)
    (allocatedNUMANodes : list NUMANodeResource) (result : CPUSet) : outcome CPUSet :=
  match allocatedNUMANodes with
  | [] => Ok result
  | numaNode :: rest =>
      let cpusInNUMANode := CPUsInNUMANodes (topoCPUDetails cpuTopology) [Node numaNode] in
      let availableCPUsInNUMANode := availableCPUs ∩ cpusInNUMANode in
      let numCPUs := Size availableCPUsInNUMANode in
      let quantity := default 0 (Resources numaNode !! "cpu") in
      let nodeNumCPUsNeeded := Z.quot quantity 1000 in
      let numCPUs := if decide (nodeNumCPUsNeeded < numCPUs) then nodeNumCPUsNeeded
                     else numCPUs in
      match takePreferredCPUs (Some cpuTopology) (toMaxRefCount (topologyOptions options))
              availableCPUsInNUMANode (preferredCPUs options) allocatedCPUs numCPUs
              (cpuBindPolicy options) (cpuExclusivePolicy options) numaAllocateStrategy with
      | Ok cpus =>
          takeOnNUMANodes cpuTopology options availableCPUs allocatedCPUs
            numaAllocateStrategy rest (result ∪ cpus)
      | Err e => Err e
      | Panic => Panic
      end
  end.

(** The part of [allocateCPUSet] after the loop over the NUMA nodes. *)
Definition takeRemaining (options : ResourceOptions) (availableCPUs : CPUSet)
    (allocatedCPUs : CPUDetails) (numaAllocateStrategy : string)
    (numCPUsNeeded : Z) (result : CPUSet) : outcome CPUSet :=
  let taken :=
    if decide (0 < numCPUsNeeded) then
      match takePreferredCPUs (toCPUTopology (topologyOptions options))
              (toMaxRefCount (topologyOptions options)) (availableCPUs ∖ result)
              (preferredCPUs options) allocatedCPUs numCPUsNeeded
              (cpuBindPolicy options) (cpuExclusivePolicy options) numaAllocateStrategy with
      | Ok remainingCPUs => Ok (result ∪ remainingCPUs)
      | Err e => Err e
      | Panic => Panic
      end
    else Ok result in
  match taken with
  | Ok result =>
      if requiredCPUBindPolicy options then
        match toCPUTopology (topologyOptions options) with
        | None => Panic
        | Some cpuTopology =>
            match satisfiedRequiredCPUBindPolicy (cpuBindPolicy options) result cpuTopology with
            | Some e => Err e
            | None => Ok result
            end
        end
      else Ok result
  | other => other
  end.

(** [allocateCPUSet]; reading through a nil [CPUTopology] panics. *)
Definition allocateCPUSet (c : resourceManager) (node : CoreNode) (pod : CorePod)
    (allocatedNUMANodes : list NUMANodeResource) (options : ResourceOptions)
    : outcome CPUSet * resourceManager :=
  let '(avail, c) := GetAvailableCPUs c (cnName node) (preferredCPUs options) in
  match avail with
  | Err e => (Err e, c)
  | Panic => (Panic, c)
  | Ok (availableCPUs, allocatedCPUs) =>
      let filtered :=
        if requiredCPUBindPolicy options then
          match toCPUTopology (topologyOptions options) with
          | None => Panic
          | Some cpuTopology =>
              filterAvailableCPUsByRequiredCPUBindPolicy (cpuBindPolicy options)
                availableCPUs (KeepOnly (topoCPUDetails cpuTopology) availableCPUs)
                (CPUsPerCore cpuTopology)
          end
        else Ok availableCPUs in
      match filtered with
      | Err e => (Err e, c)
      | Panic => (Panic, c)
      | Ok availableCPUs =>
          if decide (Size availableCPUs < numCPUsNeeded options)
          then (Err (Errorf "not enough cpus available to satisfy request"), c)
          else
            let numaAllocateStrategy :=
              GetNUMAAllocateStrategy node (numaAllocateStrategy c) in
            if decide (0 < length allocatedNUMANodes)%nat then
              match toCPUTopology (topologyOptions options) with
              | None => (Panic, c)
              | Some cpuTopology =>
                  match takeOnNUMANodes cpuTopology options availableCPUs allocatedCPUs
                          numaAllocateStrategy allocatedNUMANodes ∅ with
                  | Err e => (Err e, c)
                  | Panic => (Panic, c)
                  | Ok result =>
                      let numCPUsNeeded :=
                        wrap_int (numCPUsNeeded options - Size result) in
                      if decide (numCPUsNeeded ≠ 0)
                      then (Err (Errorf "not enough cpus available to satisfy request"), c)
                      else (takeRemaining options availableCPUs allocatedCPUs
                              numaAllocateStrategy numCPUsNeeded result, c)
                  end
              end
            else (takeRemaining options availableCPUs allocatedCPUs numaAllocateStrategy
                    (numCPUsNeeded options) ∅, c)
      end
  end.

Definition Allocate (c : resourceManager) (node : CoreNode) (pod : CorePod)
    (options : ResourceOptions) : outcome PodAllocation * resourceManager :=
  let '(byHint, c) :=
    match NUMANodeAffinity (hint options) with
    | Some _ => allocateResourcesByHint c node pod options
    | None => (Ok [], c)
    end in
  match byHint with
  | Err e => (Err e, c)
  | Panic => (Panic, c)
  | Ok resources =>
      if requestCPUBind options then
        let '(cpuset, c) := allocateCPUSet c node pod resources options in
        match cpuset with
        | Err e => (Err e, c)
        | Panic => (Panic, c)
        | Ok cpus =>
            (Ok (mkPodAllocation (podUID pod) (podNamespace pod) (podName pod) cpus
                   (cpuExclusivePolicy options) resources), c)
        end
      else
        (Ok (mkPodAllocation (podUID pod) (podNamespace pod) (podName pod) ∅
               (cpuExclusivePolicy options) resources), c)
  end.

End Allocate.

(** ** The rest of node_allocation.go and of the manager *)

Definition addCPUs (n : NodeAllocation) (cpuTopology : CPUTopology) (uid : string)
    (cpuset : CPUSet) (exclusivePolicy : string) : NodeAllocation :=
  addPodAllocation n (mkPodAllocation uid "" "" cpuset exclusivePolicy []) cpuTopology.

(** What an informer hands to a delete handler: a node (a pointer, [None]
    when nil), the tombstone [cache.DeletedFinalStateUnknown] around some
    object, or anything else. *)
Inductive anyObject :=
| AnyNode (node : option CoreNode)
| AnyOther.

Inductive deletedObject :=
| DeletedNode (node : option CoreNode)
| DeletedFinalStateUnknown (obj : anyObject)
| DeletedOther.

Definition onNodeDelete (c : resourceManager) (obj : deletedObject) : resourceManager :=
  let node :=
    match obj with
    | DeletedNode t => t
    | DeletedFinalStateUnknown (AnyNode t) => t
    | DeletedFinalStateUnknown AnyOther => None
    | DeletedOther => None
    end in
  match node with
  | None => c
  | Some node => setNodeAllocations c (delete (cnName node) (nodeAllocations c))
  end.

(** ** koordlet/util: the CPU information of the node *)

Module cpuinfo.

(** An [int32] after arithmetic or conversion: two's complement on 32 bits. *)
Definition wrap_int32 (z : Z) : Z := (z + 2 ^ 31) mod 2 ^ 32 - 2 ^ 31.

Record ProcessorInfo := mkProcessorInfo {
  CPUID : Z;
  CoreID : Z;
  SocketID : Z;
  NodeID : Z;
  L1dl1il2 : string;
  L3 : Z;
  Online : string;
}.

Record CPUTotalInfo := mkCPUTotalInfo {
  NumberCPUs : Z;
  CoreToCPU : gmap Z (list ProcessorInfo);
  NodeToCPU : gmap Z (list ProcessorInfo);
  SocketToCPU : gmap Z (list ProcessorInfo);
  L3ToCPU : gmap Z (list ProcessorInfo);
}.

(** The less function that [getProcessorInfos] gives to [sort.Slice]. *)
Definition processorLess (a b : ProcessorInfo) : bool :=
  if decide (NodeID a ≠ NodeID b) then bool_decide (NodeID a < NodeID b)
  else if decide (SocketID a ≠ SocketID b) then bool_decide (SocketID a < SocketID b)
  else if decide (CoreID a ≠ CoreID b) then bool_decide (CoreID a < CoreID b)
  else bool_decide (CPUID a < CPUID b).

(** [m[k] = append(m[k], p)]. *)
Definition appendTo (m : gmap Z (list ProcessorInfo)) (k : Z) (p : ProcessorInfo)
    : gmap Z (list ProcessorInfo) :=
  <[k := default [] (m !! k) ++ [p]]> m.

(** The state of the loop of [calculateCPUTotalInfo]. *)
Record totalMaps := mkTotalMaps {
  cpuMap : gset Z;
  coreMap : gmap Z (list ProcessorInfo);
  socketMap : gmap Z (list ProcessorInfo);
  nodeMap : gmap Z (list ProcessorInfo);
  l3Map : gmap Z (list ProcessorInfo);
}.

Definition recordProcessor (st : totalMaps) (p : ProcessorInfo) : totalMaps :=
  mkTotalMaps ({[CPUID p]} ∪ cpuMap st)
    (appendTo (coreMap st) (CoreID p) p)
    (appendTo (socketMap st) (SocketID p) p)
    (appendTo (nodeMap st) (NodeID p) p)
    (appendTo (l3Map st) (L3 p) p).

Definition calculateCPUTotalInfo (processorInfos : list ProcessorInfo) : CPUTotalInfo :=
  let st := fold_left recordProcessor processorInfos (mkTotalMaps ∅ ∅ ∅ ∅ ∅) in
  mkCPUTotalInfo (wrap_int32 (Z.of_nat (size (cpuMap st))))
    (coreMap st) (nodeMap st) (socketMap st) (l3Map st).

End cpuinfo.


(** * Notions used to state the properties *)

(** ** Sequences of ledger operations *)

Inductive LedgerOp :=
| OpUpdate (allocation : PodAllocation) (cpuTopology : CPUTopology)
| OpRelease (podUID : string).

Definition applyOp (n : NodeAllocation) (o : LedgerOp) : NodeAllocation :=
  match o with
  | OpUpdate a t => update n a t
  | OpRelease u => release n u
  end.

Definition runOps (ops : list LedgerOp) (n : NodeAllocation) : NodeAllocation :=
  fold_left applyOp ops n.

(** A topology describes the CPUs only: its entries carry no references. *)
Definition topologyUnreferenced (t : CPUTopology) : Prop :=
  ∀ c i, topoCPUDetails t !! c = Some i → RefCount i = 0.

Definition opUnreferenced (o : LedgerOp) : Prop :=
  match o with
  | OpUpdate _ t => topologyUnreferenced t
  | OpRelease _ => True
  end.

(** The number of recorded pod allocations whose CPUSet contains [c]. *)
Definition podsUsing (c : Z) (pods : gmap string PodAllocation) : nat :=
  size (filter (λ kv : string * PodAllocation, c ∈ paCPUSet kv.2) pods).

Definition refCountsExact (n : NodeAllocation) : Prop :=
  ∀ c, match allocatedCPUs n !! c with
       | Some i => RefCount i = Z.of_nat (podsUsing c (allocatedPods n))
                   ∧ podsUsing c (allocatedPods n) ≠ 0%nat
       | None => podsUsing c (allocatedPods n) = 0%nat
       end.

(** The effect of one visit of the two CPU loops on the entry of the visited
    CPU, as a function of the entry. *)
Definition addEntry (t : CPUTopology) (policy : string) (c : Z)
    (o : option CPUInfo) : option CPUInfo :=
  let i := match o with
           | Some i => i
           | None => default zeroCPUInfo (topoCPUDetails t !! c)
           end in
  Some (mkCPUInfo (CPUID i) (CoreID i) (NodeID i) (SocketID i) (L3ID i)
          (wrap_int (RefCount i + 1)) policy).

Definition releaseEntry (o : option CPUInfo) : option CPUInfo :=
  match o with
  | None => None
  | Some i => if decide (wrap_int (RefCount i - 1) = 0) then None
              else Some (setRefCount i (wrap_int (RefCount i - 1)))
  end.

(** The quantity a resource list gives a resource (zero when it has none). *)
Definition qty (R : ResourceList) (r : string) : Z := default 0 (R !! r).

Definition nonnegResources (R : ResourceList) : Prop :=
  ∀ r q, R !! r = Some q → 0 <= q.

(** The data-model invariants of a ledger: a recorded CPU has a positive
    reference count (that fits an [int]), recorded quantities are not
    negative. *)
Definition validLedger (n : NodeAllocation) : Prop :=
  (∀ c i, allocatedCPUs n !! c = Some i → 0 < RefCount i < int_half)
  ∧ (∀ k x, allocatedResources n !! k = Some x → nonnegResources (Resources x)).

Definition validAllocation (a : PodAllocation) : Prop :=
  ∀ x, x ∈ NUMANodeResources a → nonnegResources (Resources x).

(** The reference counts of a topology are Go [int]s. *)
Definition topologyInts (t : CPUTopology) : Prop :=
  ∀ c i, topoCPUDetails t !! c = Some i → int_range (RefCount i).

(** An operation whose pod allocation has no negative quantity. *)
Definition opValid (o : LedgerOp) : Prop :=
  match o with
  | OpUpdate a _ => validAllocation a
  | OpRelease _ => True
  end.

(** The quantity of resource [r] the ledger records on NUMA node [k]. *)
Definition allocatedQuantity (n : NodeAllocation) (k : Z) (r : string) : Z :=
  match allocatedResources n !! k with
  | Some x => qty (Resources x) r
  | None => 0
  end.

(** The resource lists of the entries of [l] that are for NUMA node [k]. *)
Definition entriesFor (k : Z) (l : list NUMANodeResource) : list (gmap string Z) :=
  Resources <$> filter (λ x, Node x = k) l.

Definition sumAdd (R : ResourceList) (bs : list (gmap string Z)) : ResourceList :=
  fold_left quotav1.Add bs R.

Definition sumSub (R : ResourceList) (bs : list (gmap string Z)) : ResourceList :=
  fold_left quotav1.SubtractWithNonNegativeResult bs R.

Definition sumQty (bs : list (gmap string Z)) (r : string) : Z :=
  fold_right (λ b acc, qty b r + acc) 0 bs.

(** The ledger of a node as the manager gives it. *)
Definition ledgerOf (c : resourceManager) (name : string) : NodeAllocation :=
  (GetNodeAllocation c name).1.

(** The physical cores covered by a CPU set: the cores of its CPUs that the
    topology describes. *)
Definition coresCovered (cpus : CPUSet) (details : CPUDetails) : gset Z :=
  set_omap (λ c, CoreID <$> details !! c) cpus.

(** Two managers give the same ledgers and the same configuration. *)
Definition sameLedgers (c c' : resourceManager) : Prop :=
  numaAllocateStrategy c' = numaAllocateStrategy c
  ∧ GetTopologyOptions c' = GetTopologyOptions c
  ∧ ∀ name, ledgerOf c' name = ledgerOf c name.

(** ** Consuming a request cell by cell, as the specification words it *)

(** Taking [min(available, remaining)] off a remaining request. *)
Definition consume (available remaining : Z) : Z :=
  remaining - Z.min available remaining.

(** What remains of a request [q] of resource [r] after the cells, in order;
    a cell whose availability does not have [r] is passed over. *)
Definition remainingAfter (cells : list (gmap string Z)) (r : string) (q : Z) : Z :=
  fold_left (λ q cell, match cell !! r with
                       | Some a => consume a q
                       | None => q
                       end) cells q.

(** The availability of the cells of the given NUMA nodes. *)
Definition cellsOf (totalAvailable : gmap Z (gmap string Z)) (bits : list Z)
    : list (gmap string Z) :=
  (λ b, default ∅ (totalAvailable !! b)) <$> bits.

Definition presentIn (cells : list (gmap string Z)) (r : string) : Prop :=
  ∃ cell, cell ∈ cells ∧ is_Some (cell !! r).

(** The requests [allocateResourcesByHint] works on. *)
Definition requestsByHint (options : ResourceOptions) : gmap string Z :=
  if requestCPUBind options then originalRequests options else requests options.

(** The call ends with the error that mentions the given reason. *)
Definition failsWith {A} (o : outcome A) (reason : string) : Prop :=
  ∃ reasons, o = Err (Unschedulable reasons) ∧ reason ∈ reasons.

(** What the loop of [allocateResourcesByHint] has established once it has
    visited the NUMA nodes [visited], from the availability [avail0] and the
    requests [reqs0]. *)
Definition visitedInv (avail0 : gmap Z (gmap string Z)) (reqs0 : gmap string Z)
    (visited : list Z) (st : hintAlloc) : Prop :=
  (∀ r, haRequests st !! r = remainingAfter (cellsOf avail0 visited) r <$> reqs0 !! r)
  ∧ (∀ r, r ∈ haIntersection st
          ↔ is_Some (reqs0 !! r) ∧ presentIn (cellsOf avail0 visited) r)
  ∧ (∀ b, b ∉ visited → haAvailable st !! b = avail0 !! b).

(** ** Feasible masks, as the specification words them *)

(** [m] is a non-empty subset of the NUMA cells. *)
Definition subsetMask (numaNodes : list Z) (m : Z) : Prop :=
  m ≠ 0 ∧ ∀ i, Z.testbit m i = true → i ∈ numaNodes.

(** The availability meets the request for every resource present in both. *)
Definition meetsRequest (podRequests available : gmap string Z) : Prop :=
  ∀ r q a, podRequests !! r = Some q → available !! r = Some a → q <= a.

(** The summed availability of the cells of a mask. *)
Definition summedAvailability (totalAvailable : gmap Z (gmap string Z)) (m : Z)
    : gmap string Z :=
  availableOfMask totalAvailable (bitmask.GetBits m).

(** A mask whose summed availability meets the request. *)
Definition feasibleMask (numaNodes : list Z) (podRequests : gmap string Z)
    (totalAvailable : gmap Z (gmap string Z)) (m : Z) : Prop :=
  subsetMask numaNodes m
  ∧ meetsRequest podRequests (summedAvailability totalAvailable m).

(** The hints hold a hint with mask [m] for resource [r]. *)
Definition hasHint (hints : gmap string (list NUMATopologyHint)) (r : string) (m : Z)
    : Prop :=
  ∃ p, mkNUMATopologyHint (Some m) p ∈ default [] (hints !! r).

(** * Sample data *)

(** One socket, one NUMA node, two cores of two threads. *)

Definition sampleTopology : CPUTopology :=
  mkCPUTopology
    (<[0 := mkCPUInfo 0 0 0 0 0 0 ""]>
       (<[1 := mkCPUInfo 1 0 0 0 0 0 ""]>
          (<[2 := mkCPUInfo 2 1 0 0 0 0 ""]>
             (<[3 := mkCPUInfo 3 1 0 0 0 0 ""]> ∅))))
    2.

Definition samplePod : PodAllocation :=
  mkPodAllocation "pod-1" "default" "web" {[0; 1]} "PCPULevel"
    [mkNUMANodeResource 0 {["cpu" := 2000]}].

Definition sampleNode : NodeAllocation :=
  update (NewNodeAllocation "node-1") samplePod sampleTopology.

(** A second pod that shares CPU 1 with the first. *)
Definition samplePod2 : PodAllocation :=
  mkPodAllocation "pod-2" "default" "db" {[1; 2]} "" [].

(** Sample data: a manager that knows the topology of node-1 only and has
    recorded the sample pod there. *)
Definition sampleOptions : TopologyOptions :=
  mkTopologyOptions (Some sampleTopology) ∅ 1 [mkNUMANodeResource 0 {["cpu" := 4000]}].

Definition noOptions : TopologyOptions := mkTopologyOptions None ∅ 0 [].

Definition sampleManager : resourceManager :=
  Update
    (mkResourceManager "MostAllocated"
       (λ name, if decide (name = "node-1") then sampleOptions else noOptions) ∅)
    "node-1" samplePod.

(** Sample data: a request of 3000 of cpu on NUMA node 0 of node-1. *)
Definition sampleNodeObject : CoreNode := mkCoreNode "node-1" ∅.

Definition samplePodObject : CorePod := mkCorePod "pod-2" "default" "db".

Definition sampleRequest : ResourceOptions :=
  mkResourceOptions 3 false {["cpu" := 3000]} {["cpu" := 3000]} false "" "" ∅ ∅
    (mkNUMATopologyHint (Some 1) true) sampleOptions.

(** Sample data: two NUMA cells with 4000 of cpu each. *)
Definition sampleCells : gmap Z (gmap string Z) :=
  <[0 := {["cpu" := 4000]}]> (<[1 := {["cpu" := 4000]}]> ∅).

(** The sample manager before any pod is recorded. *)
Definition sampleEmptyManager : resourceManager :=
  mkResourceManager "MostAllocated"
    (λ name, if decide (name = "node-1") then sampleOptions else noOptions) ∅.

(** A stand-in for the CPU selector that takes the lowest-numbered
    candidates among CPUs 0 to 255, as many as asked for. *)
Definition takeLowestCandidates (_ : option CPUTopology) (_ : Z) (availableCPUs : CPUSet)
    (_ : CPUSet) (_ : CPUDetails) (numCPUsNeeded : Z) (_ _ _ : string) : outcome CPUSet :=
  Ok (list_to_set (take (Z.to_nat numCPUsNeeded)
                     (filter (λ cpu, cpu ∈ availableCPUs) (seqZ 0 256)))).

(** A request without CPU binding for 1000 of cpu on NUMA node 0. *)
Definition sampleShareRequest : ResourceOptions :=
  mkResourceOptions 1 false {["cpu" := 1000]} {["cpu" := 1000]} false "" "" ∅ ∅
    (mkNUMATopologyHint (Some 1) true) sampleOptions.

(** A request with CPU binding for two CPUs on whole cores, without hint. *)
Definition sampleBindRequest : ResourceOptions :=
  mkResourceOptions 2 true {["cpu" := 2000]} {["cpu" := 2000]} true
    CPUBindPolicyFullPCPUs "" ∅ ∅ (mkNUMATopologyHint None false) sampleOptions.

(** A request with CPU binding for two CPUs on NUMA node 0. *)
Definition sampleNUMABindRequest : ResourceOptions :=
  mkResourceOptions 2 true {["cpu" := 2000]} {["cpu" := 2000]} false
    "" "" ∅ ∅ (mkNUMATopologyHint (Some 1) true) sampleOptions.

(** A request without CPU binding for 6000 of cpu over NUMA nodes 0 and 1,
    which have 4000 each. *)
Definition sampleSpreadRequest : ResourceOptions :=
  mkResourceOptions 6 false {["cpu" := 6000]} {["cpu" := 6000]} false "" "" ∅ ∅
    (mkNUMATopologyHint (Some 3) true)
    (mkTopologyOptions (Some sampleTopology) ∅ 1
       [mkNUMANodeResource 0 {["cpu" := 4000]}; mkNUMANodeResource 1 {["cpu" := 4000]}]).


(** Four logical CPUs of one socket and one NUMA node, two per core. *)
Definition sampleProcessors : list cpuinfo.ProcessorInfo :=
  [cpuinfo.mkProcessorInfo 0 0 0 0 "0" 0 "yes";
   cpuinfo.mkProcessorInfo 1 1 0 0 "1" 0 "yes";
   cpuinfo.mkProcessorInfo 2 0 0 0 "0" 0 "yes";
   cpuinfo.mkProcessorInfo 3 1 0 0 "1" 0 "yes"].


(** * Properties *)

(** ** Generic facts *)

Lemma wrap_int_id z : int_range z → wrap_int z = z.
Proof.
  unfold int_range, wrap_int, int_modulus, int_half. intros H.
  rewrite Z.mod_small; lia.
Qed.

Lemma wrap_int_range z : int_range (wrap_int z).
Proof.
  unfold int_range, wrap_int, int_modulus, int_half.
  pose proof (Z.mod_pos_bound (z + 2 ^ 63) (2 ^ 64)). lia.
Qed.

Lemma wrap_int_pred_succ z : int_range z → wrap_int (wrap_int (z + 1) - 1) = z.
Proof.
  unfold int_range, wrap_int, int_modulus, int_half. intros H.
  replace ((z + 1 + 2 ^ 63) mod 2 ^ 64 - 2 ^ 63 - 1 + 2 ^ 63)
    with ((z + 1 + 2 ^ 63) mod 2 ^ 64 - 1) by lia.
  rewrite Zminus_mod_idemp_l.
  replace (z + 1 + 2 ^ 63 - 1) with (z + 2 ^ 63) by lia.
  rewrite Z.mod_small; lia.
Qed.

Lemma wrap_int_succ_pred z : int_range z → wrap_int (wrap_int (z - 1) + 1) = z.
Proof.
  unfold int_range, wrap_int, int_modulus, int_half. intros H.
  replace ((z - 1 + 2 ^ 63) mod 2 ^ 64 - 2 ^ 63 + 1 + 2 ^ 63)
    with ((z - 1 + 2 ^ 63) mod 2 ^ 64 + 1) by lia.
  rewrite Zplus_mod_idemp_l.
  replace (z - 1 + 2 ^ 63 + 1) with (z + 2 ^ 63) by lia.
  rewrite Z.mod_small; lia.
Qed.

(** A loop that rewrites the entry of each visited key, over keys visited
    once, changes exactly the visited entries. *)
Lemma fold_partial_alter_lookup `{Countable K} {V} (h : K → option V → option V)
    (l : list K) (m : gmap K V) (c : K) :
  NoDup l →
  fold_left (λ m k, partial_alter (h k) k m) l m !! c
  = if decide (c ∈ l) then h c (m !! c) else m !! c.
Proof.
  intros Hnd. revert m. induction Hnd as [|k l Hk Hnd IH]; intros m; cbn [fold_left].
  - destruct (decide (c ∈ [])) as [Hin|]; [|done].
    by apply not_elem_of_nil in Hin.
  - rewrite IH, lookup_partial_alter.
    destruct (decide (c ∈ k :: l)) as [Hc|Hc]; rewrite elem_of_cons in Hc.
    + destruct Hc as [->|Hc].
      * destruct (decide (k ∈ l)); [done|]. by rewrite decide_True.
      * destruct (decide (c ∈ l)); [|done].
        rewrite decide_False; [done | by intros ->].
    + destruct (decide (c ∈ l)); [tauto|].
      rewrite decide_False; [done | intros ->; tauto].
Qed.

Lemma addCPU_partial_alter t policy cpus c :
  addCPU t policy cpus c = partial_alter (addEntry t policy c) c cpus.
Proof.
  unfold addCPU, addEntry. apply map_eq; intros j.
  rewrite lookup_partial_alter, lookup_insert.
  destruct (decide (c = j)); [|done].
  by destruct (cpus !! c).
Qed.

Lemma releaseCPU_partial_alter cpus c :
  releaseCPU cpus c = partial_alter releaseEntry c cpus.
Proof.
  unfold releaseCPU, releaseEntry. apply map_eq; intros j.
  rewrite lookup_partial_alter.
  destruct (cpus !! c) as [i|] eqn:Hc; simpl.
  - destruct (decide (wrap_int (RefCount i - 1) = 0)).
    + rewrite lookup_delete. by destruct (decide (c = j)).
    + rewrite lookup_insert. by destruct (decide (c = j)).
  - destruct (decide (c = j)); by subst.
Qed.

Lemma fold_addCPU_lookup t policy (s : gset Z) cpus c :
  fold_left (addCPU t policy) (elements s) cpus !! c
  = if decide (c ∈ s) then addEntry t policy c (cpus !! c) else cpus !! c.
Proof.
  assert (Heq : ∀ l m, fold_left (addCPU t policy) l m
                = fold_left (λ m k, partial_alter (addEntry t policy k) k m) l m).
  { induction l as [|k l IH]; intros m; simpl; [done|].
    by rewrite addCPU_partial_alter, IH. }
  rewrite Heq, fold_partial_alter_lookup by apply NoDup_elements.
  destruct (decide (c ∈ elements s)) as [H|H]; rewrite elem_of_elements in H;
    [by rewrite decide_True | by rewrite decide_False].
Qed.

Lemma fold_releaseCPU_lookup (s : gset Z) cpus c :
  fold_left releaseCPU (elements s) cpus !! c
  = if decide (c ∈ s) then releaseEntry (cpus !! c) else cpus !! c.
Proof.
  assert (Heq : ∀ l m, fold_left releaseCPU l m
                = fold_left (λ m k, partial_alter ((λ _, releaseEntry) k) k m) l m).
  { induction l as [|k l IH]; intros m; simpl; [done|].
    by rewrite releaseCPU_partial_alter, IH. }
  rewrite Heq, fold_partial_alter_lookup by apply NoDup_elements.
  destruct (decide (c ∈ elements s)) as [H|H]; rewrite elem_of_elements in H;
    [by rewrite decide_True | by rewrite decide_False].
Qed.

(** ** The reference counts follow the recorded pods *)

Lemma podsUsing_le_size c pods : (podsUsing c pods ≤ size pods)%nat.
Proof. unfold podsUsing. apply map_size_filter. Qed.

Lemma podsUsing_empty c : podsUsing c ∅ = 0%nat.
Proof. unfold podsUsing. by rewrite map_filter_empty, map_size_empty. Qed.

Lemma podsUsing_insert_fresh c u a pods :
  pods !! u = None →
  podsUsing c (<[u := a]> pods)
  = if decide (c ∈ paCPUSet a) then S (podsUsing c pods) else podsUsing c pods.
Proof.
  intros Hu. unfold podsUsing. rewrite map_filter_insert. simpl.
  destruct (decide (c ∈ paCPUSet a)).
  - rewrite map_size_insert_None; [done|].
    by rewrite map_lookup_filter, Hu.
  - by rewrite delete_id.
Qed.

Lemma podsUsing_delete c u a pods :
  pods !! u = Some a →
  podsUsing c pods
  = if decide (c ∈ paCPUSet a) then S (podsUsing c (delete u pods))
    else podsUsing c (delete u pods).
Proof.
  intros Hu. rewrite <- (insert_delete_id pods u a) at 1 by done.
  apply podsUsing_insert_fresh, lookup_delete_eq.
Qed.

Lemma release_refCountsExact n u :
  refCountsExact n →
  Z.of_nat (size (allocatedPods n)) < int_half →
  refCountsExact (release n u).
Proof.
  intros Hinv Hsz. unfold release.
  destruct (allocatedPods n !! u) as [a|] eqn:Hu; [|done].
  intros c. simpl. rewrite fold_releaseCPU_lookup.
  specialize (Hinv c). rewrite (podsUsing_delete c u a) in Hinv by done.
  pose proof (podsUsing_le_size c (delete u (allocatedPods n))) as Hle.
  pose proof (map_size_delete_Some u (allocatedPods n) (mk_is_Some _ _ Hu)) as Hd.
  destruct (decide (c ∈ paCPUSet a)); [|done].
  destruct (allocatedCPUs n !! c) as [i|]; simpl; [|done].
  destruct Hinv as [Hrc _].
  assert (Hw : wrap_int (RefCount i - 1)
               = Z.of_nat (podsUsing c (delete u (allocatedPods n)))).
  { rewrite wrap_int_id; [lia|]. unfold int_range, int_half in *. lia. }
  rewrite Hw. case_decide; simpl; lia.
Qed.

Lemma addPodAllocation_refCountsExact n a t :
  refCountsExact n →
  topologyUnreferenced t →
  Z.of_nat (size (allocatedPods n)) + 1 < int_half →
  refCountsExact (addPodAllocation n a t).
Proof.
  intros Hinv Ht Hsz. unfold addPodAllocation.
  destruct (allocatedPods n !! UID a) eqn:Hu; [done|].
  intros c. simpl. rewrite fold_addCPU_lookup.
  specialize (Hinv c). rewrite podsUsing_insert_fresh by done.
  pose proof (podsUsing_le_size c (allocatedPods n)) as Hle.
  destruct (decide (c ∈ paCPUSet a)); [|done].
  unfold addEntry. simpl.
  assert (Hrc : RefCount (match allocatedCPUs n !! c with
                          | Some i => i
                          | None => default zeroCPUInfo (topoCPUDetails t !! c)
                          end) = Z.of_nat (podsUsing c (allocatedPods n))).
  { destruct (allocatedCPUs n !! c) as [i|]; [tauto|].
    rewrite Hinv. destruct (topoCPUDetails t !! c) as [i|] eqn:Hc; simpl; [|done].
    by apply (Ht c). }
  rewrite Hrc. split; [|done].
  rewrite wrap_int_id; [lia|]. unfold int_range, int_half in *. lia.
Qed.

Lemma release_size n u :
  (size (allocatedPods (release n u)) ≤ size (allocatedPods n))%nat.
Proof.
  unfold release. destruct (allocatedPods n !! u) eqn:Hu; [|done]. simpl.
  rewrite map_size_delete, Hu. simpl. lia.
Qed.

Lemma addPodAllocation_size n a t :
  (size (allocatedPods (addPodAllocation n a t)) ≤ S (size (allocatedPods n)))%nat.
Proof.
  unfold addPodAllocation. destruct (allocatedPods n !! UID a) eqn:Hu; [lia|]. simpl.
  by rewrite map_size_insert, Hu.
Qed.

Lemma applyOp_refCountsExact n o :
  refCountsExact n →
  opUnreferenced o →
  Z.of_nat (size (allocatedPods n)) + 1 < int_half →
  refCountsExact (applyOp n o)
  ∧ (size (allocatedPods (applyOp n o)) ≤ S (size (allocatedPods n)))%nat.
Proof.
  intros Hinv Ho Hsz. destruct o as [a t|u]; simpl in *.
  - unfold update. pose proof (release_size n (UID a)) as Hr. split.
    + apply addPodAllocation_refCountsExact; [|done|lia].
      apply release_refCountsExact; [done|lia].
    + pose proof (addPodAllocation_size (release n (UID a)) a t). lia.
  - pose proof (release_size n u). split; [|lia].
    apply release_refCountsExact; [done|lia].
Qed.

Lemma runOps_refCountsExact ops n :
  refCountsExact n →
  Forall opUnreferenced ops →
  Z.of_nat (size (allocatedPods n)) + Z.of_nat (length ops) < int_half →
  refCountsExact (runOps ops n).
Proof.
  revert n. induction ops as [|o ops IH]; intros n Hinv Hops Hsz; [done|].
  apply Forall_cons in Hops as [Ho Hops]. simpl in Hsz.
  destruct (applyOp_refCountsExact n o) as [Hinv' Hsz']; [done|done|lia|].
  apply IH; [done|done|lia].
Qed.

Lemma NewNodeAllocation_refCountsExact name : refCountsExact (NewNodeAllocation name).
Proof. intros c. simpl. rewrite lookup_empty. apply podsUsing_empty. Qed.

(** ** Resource lists *)

Lemma resource_list_eq (R1 R2 : gmap string Z) :
  dom R1 = dom R2 → (∀ r, qty R1 r = qty R2 r) → R1 = R2.
Proof.
  intros Hd Hq. apply map_eq; intros r. specialize (Hq r). unfold qty in Hq.
  destruct (R1 !! r) as [x|] eqn:H1, (R2 !! r) as [y|] eqn:H2; simpl in Hq.
  - by subst.
  - apply mk_is_Some, elem_of_dom in H1. apply not_elem_of_dom in H2. congruence.
  - apply mk_is_Some, elem_of_dom in H2. apply not_elem_of_dom in H1. congruence.
  - done.
Qed.

Lemma lookup_Add (a b : gmap string Z) r :
  quotav1.Add a b !! r
  = match a !! r, b !! r with
    | Some x, Some y => Some (x + y)
    | Some x, None => Some x
    | None, o => o
    end.
Proof.
  unfold quotav1.Add. rewrite lookup_union_with.
  by destruct (a !! r), (b !! r).
Qed.

Lemma lookup_Sub (a b : gmap string Z) r :
  quotav1.SubtractWithNonNegativeResult a b !! r
  = match a !! r, b !! r with
    | Some x, Some y => Some (if decide (0 < x - y) then x - y else 0)
    | Some x, None => Some (if decide (0 < x) then x else 0)
    | None, Some _ => Some 0
    | None, None => None
    end.
Proof.
  unfold quotav1.SubtractWithNonNegativeResult. rewrite lookup_merge.
  by destruct (a !! r), (b !! r).
Qed.

Lemma dom_Add (a b : gmap string Z) : dom (quotav1.Add a b) = dom a ∪ dom b.
Proof.
  apply set_eq; intros r. rewrite elem_of_union, !elem_of_dom, lookup_Add.
  destruct (a !! r), (b !! r); split; intros H; try (by eauto);
    destruct H as [H|H]; by inversion H.
Qed.

Lemma dom_Sub (a b : gmap string Z) :
  dom (quotav1.SubtractWithNonNegativeResult a b) = dom a ∪ dom b.
Proof.
  apply set_eq; intros r. rewrite elem_of_union, !elem_of_dom, lookup_Sub.
  destruct (a !! r), (b !! r); split; intros H; try (by eauto);
    destruct H as [H|H]; by inversion H.
Qed.

Lemma qty_Add (a b : gmap string Z) r :
  qty (quotav1.Add a b) r = qty a r + qty b r.
Proof.
  unfold qty. rewrite lookup_Add. destruct (a !! r), (b !! r); simpl; lia.
Qed.

Lemma qty_Sub (a b : gmap string Z) r :
  nonnegResources b →
  qty (quotav1.SubtractWithNonNegativeResult a b) r = Z.max 0 (qty a r - qty b r).
Proof.
  intros Hb. unfold qty. rewrite lookup_Sub.
  destruct (a !! r) as [x|], (b !! r) as [y|] eqn:Hy; simpl;
    try case_decide; try lia.
  apply Hb in Hy. lia.
Qed.

Lemma nonneg_Sub (a b : gmap string Z) :
  nonnegResources (quotav1.SubtractWithNonNegativeResult a b).
Proof.
  intros r q. rewrite lookup_Sub.
  destruct (a !! r), (b !! r); intros [= <-]; try case_decide; lia.
Qed.

Lemma nonneg_Add (a b : gmap string Z) :
  nonnegResources a → nonnegResources b → nonnegResources (quotav1.Add a b).
Proof.
  intros Ha Hb r q. rewrite lookup_Add.
  destruct (a !! r) as [x|] eqn:Hx, (b !! r) as [y|] eqn:Hy; intros [= <-].
  - apply Ha in Hx. apply Hb in Hy. lia.
  - by apply Ha in Hx.
  - by apply Hb in Hy.
Qed.

Lemma nonneg_qty (a : gmap string Z) r : nonnegResources a → 0 <= qty a r.
Proof.
  intros Ha. unfold qty. destruct (a !! r) eqn:H; simpl; [by apply Ha in H | lia].
Qed.

Lemma sumQty_nonneg bs r : Forall nonnegResources bs → 0 <= sumQty bs r.
Proof.
  induction 1 as [|b bs Hb _ IH]; simpl; [lia|].
  pose proof (nonneg_qty b r Hb). lia.
Qed.

Lemma dom_sumAdd bs R : dom (sumAdd R bs) = dom R ∪ ⋃ (dom <$> bs).
Proof.
  revert R. induction bs as [|b bs IH]; intros R; simpl.
  - set_solver.
  - unfold sumAdd in *. simpl. rewrite IH, dom_Add. set_solver.
Qed.

Lemma dom_sumSub bs R : dom (sumSub R bs) = dom R ∪ ⋃ (dom <$> bs).
Proof.
  revert R. induction bs as [|b bs IH]; intros R; simpl.
  - set_solver.
  - unfold sumSub in *. simpl. rewrite IH, dom_Sub. set_solver.
Qed.

Lemma qty_sumAdd bs R r : qty (sumAdd R bs) r = qty R r + sumQty bs r.
Proof.
  revert R. induction bs as [|b bs IH]; intros R; simpl; [lia|].
  unfold sumAdd in *. simpl. rewrite IH, qty_Add. lia.
Qed.

Lemma qty_sumSub bs R r :
  Forall nonnegResources bs →
  nonnegResources R →
  qty (sumSub R bs) r = Z.max 0 (qty R r - sumQty bs r).
Proof.
  intros Hbs. revert R. induction Hbs as [|b bs Hb Hbs IH]; intros R HR; simpl.
  - pose proof (nonneg_qty R r HR). unfold sumSub. simpl. lia.
  - unfold sumSub in *. simpl. rewrite IH by apply nonneg_Sub.
    rewrite qty_Sub by done.
    pose proof (sumQty_nonneg bs r Hbs). lia.
Qed.

Lemma nonneg_sumSub bs R : nonnegResources R → nonnegResources (sumSub R bs).
Proof.
  revert R. induction bs as [|b bs IH]; intros R HR; [done|].
  unfold sumSub in *. simpl. apply IH, nonneg_Sub.
Qed.

Lemma nonneg_sumAdd bs R :
  Forall nonnegResources bs → nonnegResources R → nonnegResources (sumAdd R bs).
Proof.
  intros Hbs. revert R. induction Hbs as [|b bs Hb Hbs IH]; intros R HR; [done|].
  unfold sumAdd in *. simpl. by apply IH, nonneg_Add.
Qed.

(** Subtracting what was added gives back the quantities, and adding it
    again gives back the list. *)
Lemma sumAdd_sumSub_sumAdd bs R :
  Forall nonnegResources bs → nonnegResources R →
  sumAdd (sumSub (sumAdd R bs) bs) bs = sumAdd R bs.
Proof.
  intros Hbs HR. apply resource_list_eq.
  - rewrite !dom_sumAdd, dom_sumSub, dom_sumAdd. set_solver.
  - intros r. rewrite !qty_sumAdd, qty_sumSub, qty_sumAdd; [|done|].
    + pose proof (nonneg_qty R r HR). lia.
    + by apply nonneg_sumAdd.
Qed.

Lemma qty_sumSub_sumAdd bs R r :
  Forall nonnegResources bs → nonnegResources R →
  qty (sumSub (sumAdd R bs) bs) r = qty R r.
Proof.
  intros Hbs HR. rewrite qty_sumSub, qty_sumAdd; [|done|by apply nonneg_sumAdd].
  pose proof (nonneg_qty R r HR). lia.
Qed.

(** ** The NUMA loops, one NUMA node at a time *)

Lemma addNUMA_lookup res idx x k :
  addNUMA res idx x !! k
  = if decide (Node x = k)
    then Some (mkNUMANodeResource
                 (Node (default (mkNUMANodeResource idx ∅) (res !! k)))
                 (quotav1.Add (Resources (default (mkNUMANodeResource idx ∅) (res !! k)))
                              (Resources x)))
    else res !! k.
Proof.
  unfold addNUMA. rewrite lookup_insert.
  destruct (decide (Node x = k)) as [<-|]; [|done].
  by destruct (res !! Node x).
Qed.

Lemma releaseNUMA_lookup res x k :
  releaseNUMA res x !! k
  = if decide (Node x = k)
    then (λ r, mkNUMANodeResource (Node r)
                 (quotav1.SubtractWithNonNegativeResult (Resources r) (Resources x)))
           <$> res !! k
    else res !! k.
Proof.
  unfold releaseNUMA. destruct (decide (Node x = k)) as [<-|Hne].
  - destruct (res !! Node x) eqn:H; simpl; [by rewrite lookup_insert_eq | done].
  - destruct (res !! Node x); [by rewrite lookup_insert_ne | done].
Qed.

Lemma addNUMAs_lookup_Some l res idx k r :
  res !! k = Some r →
  addNUMAs res idx l !! k
  = Some (mkNUMANodeResource (Node r) (sumAdd (Resources r) (entriesFor k l))).
Proof.
  revert res idx r. induction l as [|x l IH]; intros res idx r Hk; simpl.
  - rewrite Hk. by destruct r.
  - unfold entriesFor. rewrite filter_cons.
    destruct (decide (Node x = k)) as [Hx|Hx].
    + erewrite IH; [|rewrite addNUMA_lookup, decide_True by done; by rewrite Hk].
      done.
    + apply IH. by rewrite addNUMA_lookup, decide_False.
Qed.

Lemma addNUMAs_lookup_None l res idx k :
  res !! k = None →
  addNUMAs res idx l !! k
  = match entriesFor k l with
    | [] => None
    | _ => Some (mkNUMANodeResource
                   (Node (default (mkNUMANodeResource 0 ∅) (addNUMAs res idx l !! k)))
                   (sumAdd ∅ (entriesFor k l)))
    end.
Proof.
  revert res idx. induction l as [|x l IH]; intros res idx Hk; simpl; [done|].
  unfold entriesFor. rewrite filter_cons.
  destruct (decide (Node x = k)) as [Hx|Hx].
  - simpl. erewrite addNUMAs_lookup_Some;
      [|rewrite addNUMA_lookup, decide_True by done; by rewrite Hk].
    done.
  - apply IH. by rewrite addNUMA_lookup, decide_False.
Qed.

Lemma releaseNUMAs_lookup l res k :
  fold_left releaseNUMA l res !! k
  = (λ r, mkNUMANodeResource (Node r) (sumSub (Resources r) (entriesFor k l)))
      <$> res !! k.
Proof.
  revert res. induction l as [|x l IH]; intros res; simpl.
  - destruct (res !! k) as [[]|]; done.
  - rewrite IH, releaseNUMA_lookup. unfold entriesFor. rewrite filter_cons.
    destruct (decide (Node x = k)); [|done].
    by destruct (res !! k).
Qed.

(** ** Release then add, add then release *)

Lemma release_absent n u : allocatedPods (release n u) !! u = None.
Proof.
  unfold release. destruct (allocatedPods n !! u) eqn:Hu; simpl; [|done].
  apply lookup_delete_eq.
Qed.

Lemma releaseEntry_valid o :
  (∀ i, o = Some i → 0 < RefCount i < int_half) →
  ∀ i, releaseEntry o = Some i → 0 < RefCount i < int_half.
Proof.
  intros Ho i. destruct o as [j|]; simpl; [|done].
  destruct (Ho j eq_refl) as [H1 H2].
  rewrite wrap_int_id by (unfold int_range, int_half in *; lia).
  case_decide; [done|]. intros [= <-]. simpl. lia.
Qed.

Lemma release_validLedger n u : validLedger n → validLedger (release n u).
Proof.
  intros [Hc Hr]. unfold release.
  destruct (allocatedPods n !! u) as [a|] eqn:Hu; [|done]. split; simpl.
  - intros c i. rewrite fold_releaseCPU_lookup.
    destruct (decide (c ∈ paCPUSet a)); [|apply Hc].
    apply releaseEntry_valid, Hc.
  - intros k x. rewrite releaseNUMAs_lookup.
    destruct (allocatedResources n !! k) as [y|] eqn:Hk; simpl; [|done].
    intros [= <-]. simpl. apply nonneg_sumSub. by eapply Hr.
Qed.

Lemma entriesFor_nonneg a k :
  validAllocation a → Forall nonnegResources (entriesFor k (NUMANodeResources a)).
Proof.
  intros Ha. unfold entriesFor. apply Forall_fmap, Forall_forall.
  intros x Hx. apply list_elem_of_filter in Hx as [_ Hx]. by apply Ha.
Qed.

(** The entry that a new reference starts from is a Go [int]. *)
Lemma base_entry_range (o : option CPUInfo) t c :
  (∀ i, o = Some i → 0 < RefCount i < int_half) →
  topologyInts t →
  int_range (RefCount (match o with
                       | Some i => i
                       | None => default zeroCPUInfo (topoCPUDetails t !! c)
                       end)).
Proof.
  intros Ho Ht. destruct o as [i|].
  - destruct (Ho i eq_refl). unfold int_range, int_half in *. lia.
  - destruct (topoCPUDetails t !! c) as [i|] eqn:Hc; simpl.
    + by apply (Ht c).
    + unfold int_range, int_half. simpl. lia.
Qed.

Lemma addEntry_releaseEntry_addEntry t p c o :
  (∀ i, o = Some i → 0 < RefCount i < int_half) →
  topologyInts t →
  addEntry t p c (releaseEntry (addEntry t p c o)) = addEntry t p c o.
Proof.
  intros Ho Ht. pose proof (base_entry_range o t c Ho Ht) as Hrange.
  unfold addEntry at 2. unfold releaseEntry. cbn [RefCount setRefCount].
  rewrite wrap_int_pred_succ by done.
  case_decide as Hz.
  - destruct o as [i|]; [|done].
    destruct (Ho i eq_refl). simpl in Hz. lia.
  - unfold addEntry. simpl. done.
Qed.

Lemma releaseEntry_addEntry t p c o :
  (∀ i, o = Some i → 0 < RefCount i < int_half) →
  topologyUnreferenced t →
  releaseEntry (addEntry t p c o) = (λ i, setExclusivePolicy i p) <$> o.
Proof.
  intros Ho Ht.
  assert (Hti : topologyInts t).
  { intros c' i Hc. rewrite (Ht c' i Hc). unfold int_range, int_half. lia. }
  pose proof (base_entry_range o t c Ho Hti) as Hrange.
  unfold addEntry, releaseEntry. cbn [RefCount setRefCount].
  rewrite wrap_int_pred_succ by done.
  destruct o as [i|]; simpl.
  - destruct (Ho i eq_refl). rewrite decide_False by lia. done.
  - rewrite decide_True; [done|].
    destruct (topoCPUDetails t !! c) as [i|] eqn:Hc; simpl; [by apply (Ht c)|done].
Qed.

(** Adding an allocation, releasing it and adding it again is adding it. *)
Lemma add_release_add n a t :
  validLedger n → validAllocation a → topologyInts t →
  allocatedPods n !! UID a = None →
  addPodAllocation (release (addPodAllocation n a t) (UID a)) a t
  = addPodAllocation n a t.
Proof.
  intros [Hc Hr] Ha Ht Hu.
  unfold addPodAllocation at 2. rewrite Hu.
  unfold release. cbn [allocatedPods]. rewrite lookup_insert_eq.
  unfold addPodAllocation. cbn [allocatedPods nodeName allocatedCPUs allocatedResources].
  rewrite lookup_delete_eq, delete_insert_eq, insert_delete_eq, Hu.
  f_equal.
  - apply map_eq; intros c.
    rewrite !fold_addCPU_lookup, fold_releaseCPU_lookup, fold_addCPU_lookup.
    destruct (decide (c ∈ paCPUSet a)); [|done].
    apply addEntry_releaseEntry_addEntry; [apply Hc | done].
  - apply map_eq; intros k.
    pose proof (entriesFor_nonneg a k Ha) as Hbs.
    destruct (allocatedResources n !! k) as [x|] eqn:Hk.
    + rewrite (addNUMAs_lookup_Some _ _ _ _ x Hk).
      erewrite addNUMAs_lookup_Some;
        [|rewrite releaseNUMAs_lookup, (addNUMAs_lookup_Some _ _ _ _ x Hk); done].
      simpl. rewrite sumAdd_sumSub_sumAdd; [done|done|by eapply Hr].
    + rewrite (addNUMAs_lookup_None _ (allocatedResources n)) by done.
      destruct (entriesFor k (NUMANodeResources a)) as [|b bs] eqn:Hl.
      * rewrite addNUMAs_lookup_None; [by rewrite Hl|].
        rewrite releaseNUMAs_lookup, addNUMAs_lookup_None, Hl; done.
      * erewrite addNUMAs_lookup_Some;
          [|rewrite releaseNUMAs_lookup, (addNUMAs_lookup_None _ (allocatedResources n)),
              Hl by done; done].
        cbn [Node Resources]. rewrite Hl.
        rewrite (sumAdd_sumSub_sumAdd (b :: bs)); [|done|done].
        rewrite (addNUMAs_lookup_None _ (allocatedResources n)), Hl by done.
        done.
Qed.

(** ** Sample data is well formed *)

Lemma sampleTopology_unreferenced : topologyUnreferenced sampleTopology.
Proof.
  intros c i. unfold sampleTopology. simpl.
  rewrite !lookup_insert_Some, lookup_empty.
  intros [[_ <-]|[_ [[_ <-]|[_ [[_ <-]|[_ [[_ <-]|[_ ?]]]]]]]]; done.
Qed.

Lemma topologyUnreferenced_ints t : topologyUnreferenced t → topologyInts t.
Proof.
  intros Ht c i Hc. rewrite (Ht c i Hc). unfold int_range, int_half. lia.
Qed.

Lemma samplePod_valid : validAllocation samplePod.
Proof.
  intros x Hx. apply list_elem_of_singleton in Hx as ->. simpl.
  intros r q Hq. apply lookup_singleton_Some in Hq as [_ <-]. lia.
Qed.

Lemma NewNodeAllocation_valid name : validLedger (NewNodeAllocation name).
Proof. split; simpl; intros ? ?; by rewrite lookup_empty. Qed.

(** ** The ledger theorems *)

(** C1: after any sequence of update and release operations on a new
    NodeAllocation, the RefCount recorded for a CPU is the number of recorded
    pod allocations whose CPUSet contains it, and the CPU is absent from
    allocatedCPUs exactly when no recorded pod allocation contains it.  The
    topologies passed to update carry no reference counts, and the sequence
    is short enough for the counts to fit a Go int. *)
Theorem refcount_is_multiplicity (name : string) (ops : list LedgerOp) (c : Z) :
  Forall opUnreferenced ops →
  Z.of_nat (length ops) < int_half →
  (∀ i, allocatedCPUs (runOps ops (NewNodeAllocation name)) !! c = Some i →
        RefCount i
        = Z.of_nat (podsUsing c (allocatedPods (runOps ops (NewNodeAllocation name)))))
  ∧ (allocatedCPUs (runOps ops (NewNodeAllocation name)) !! c = None
     ↔ podsUsing c (allocatedPods (runOps ops (NewNodeAllocation name))) = 0%nat).
Proof.
  intros Hops Hlen.
  pose proof (runOps_refCountsExact ops (NewNodeAllocation name)
                (NewNodeAllocation_refCountsExact name) Hops) as Hinv.
  simpl in Hinv. rewrite map_size_empty in Hinv.
  specialize (Hinv ltac:(lia) c).
  destruct (allocatedCPUs (runOps ops (NewNodeAllocation name)) !! c) as [i|].
  - destruct Hinv as [Hrc Hnz]. split; [by intros ? [= <-] | by split].
  - split; [done | by split].
Qed.

Lemma refcount_is_multiplicity_witness :
  (∀ i, allocatedCPUs (runOps [OpUpdate samplePod sampleTopology; OpRelease "pod-2"]
                         (NewNodeAllocation "node-1")) !! 1 = Some i →
        RefCount i
        = Z.of_nat (podsUsing 1 (allocatedPods
            (runOps [OpUpdate samplePod sampleTopology; OpRelease "pod-2"]
               (NewNodeAllocation "node-1")))))
  ∧ (allocatedCPUs (runOps [OpUpdate samplePod sampleTopology; OpRelease "pod-2"]
                      (NewNodeAllocation "node-1")) !! 1 = None
     ↔ podsUsing 1 (allocatedPods
            (runOps [OpUpdate samplePod sampleTopology; OpRelease "pod-2"]
               (NewNodeAllocation "node-1"))) = 0%nat).
Proof.
  apply (refcount_is_multiplicity "node-1"
           [OpUpdate samplePod sampleTopology; OpRelease "pod-2"] 1).
  - repeat constructor. exact sampleTopology_unreferenced.
  - unfold int_half. simpl. lia.
Defined.

(** Two pods that share CPU 1: its reference count is 2, and 1 again once
    one of them is released; CPU 2 leaves the ledger with its only pod. *)
Example refcount_examples :
  RefCount <$> allocatedCPUs (update sampleNode samplePod2 sampleTopology) !! 1 = Some 2
  ∧ RefCount <$> allocatedCPUs (release (update sampleNode samplePod2 sampleTopology)
                                  "pod-2") !! 1 = Some 1
  ∧ allocatedCPUs (release (update sampleNode samplePod2 sampleTopology) "pod-2") !! 2
    = None.
Proof. repeat split; vm_compute; reflexivity. Qed.

Lemma update_idempotent_ledger n a t :
  validLedger n → validAllocation a → topologyInts t →
  update (update n a t) a t = update n a t.
Proof.
  intros Hn Ha Ht. unfold update at 1 3.
  unfold update. apply add_release_add; [|done|done|apply release_absent].
  by apply release_validLedger.
Qed.

(** C7: on a ledger that satisfies the data-model invariants, updating twice
    with the same pod allocation gives exactly the state of updating once. *)
Theorem update_idempotent (n : NodeAllocation) (a : PodAllocation) (t : CPUTopology) :
  validLedger n → validAllocation a → topologyInts t →
  update (update n a t) a t = update n a t.
Proof. apply update_idempotent_ledger. Qed.

Lemma update_idempotent_witness :
  update (update (NewNodeAllocation "node-1") samplePod sampleTopology)
    samplePod sampleTopology
  = update (NewNodeAllocation "node-1") samplePod sampleTopology.
Proof.
  apply (update_idempotent (NewNodeAllocation "node-1") samplePod sampleTopology).
  - apply NewNodeAllocation_valid.
  - exact samplePod_valid.
  - exact (topologyUnreferenced_ints _ sampleTopology_unreferenced).
Defined.

(** What update followed by release leaves of a ledger that did not record
    the pod. *)
Lemma release_add n a t :
  validLedger n → validAllocation a → topologyUnreferenced t →
  allocatedPods n !! UID a = None →
  nodeName (release (addPodAllocation n a t) (UID a)) = nodeName n
  ∧ allocatedPods (release (addPodAllocation n a t) (UID a)) = allocatedPods n
  ∧ (∀ c, allocatedCPUs (release (addPodAllocation n a t) (UID a)) !! c
          = (λ i, if decide (c ∈ paCPUSet a)
                  then setExclusivePolicy i (CPUExclusivePolicy a) else i)
              <$> allocatedCPUs n !! c)
  ∧ (∀ k r, allocatedQuantity (release (addPodAllocation n a t) (UID a)) k r
            = allocatedQuantity n k r).
Proof.
  intros [Hc Hr] Ha Ht Hu.
  unfold addPodAllocation. rewrite Hu.
  unfold release. cbn [allocatedPods]. rewrite lookup_insert_eq.
  cbn [allocatedPods nodeName allocatedCPUs allocatedResources].
  split; [done|]. split; [by apply delete_insert_id|]. split.
  - intros c. rewrite fold_releaseCPU_lookup, fold_addCPU_lookup.
    destruct (decide (c ∈ paCPUSet a)).
    + apply releaseEntry_addEntry; [apply Hc | done].
    + by destruct (allocatedCPUs n !! c).
  - intros k r. unfold allocatedQuantity. cbn [allocatedResources].
    pose proof (entriesFor_nonneg a k Ha) as Hbs.
    rewrite releaseNUMAs_lookup.
    destruct (allocatedResources n !! k) as [x|] eqn:Hk.
    + rewrite (addNUMAs_lookup_Some _ _ _ _ x Hk). simpl.
      apply qty_sumSub_sumAdd; [done | by eapply Hr].
    + rewrite addNUMAs_lookup_None by done.
      destruct (entriesFor k (NUMANodeResources a)) as [|b bs] eqn:Hl; [done|].
      cbn [fmap option_fmap option_map Resources].
      rewrite (qty_sumSub_sumAdd (b :: bs)); [done|done|].
      intros ? ?. by rewrite lookup_empty.
Qed.

(** C8 (amended): when the ledger satisfies the data-model invariants and does
    not record the pod, update followed by release of the pod restores
    allocatedPods exactly, restores allocatedCPUs up to the exclusive policy
    of the pod's CPUs that the ledger already recorded (they keep the pod's
    policy), and restores every allocated quantity of every NUMA node. *)
Theorem update_release_restores (n : NodeAllocation) (a : PodAllocation) (t : CPUTopology) :
  validLedger n → validAllocation a → topologyUnreferenced t →
  allocatedPods n !! UID a = None →
  allocatedPods (release (update n a t) (UID a)) = allocatedPods n
  ∧ (∀ c, allocatedCPUs (release (update n a t) (UID a)) !! c
          = (λ i, if decide (c ∈ paCPUSet a)
                  then setExclusivePolicy i (CPUExclusivePolicy a) else i)
              <$> allocatedCPUs n !! c)
  ∧ (∀ k r, allocatedQuantity (release (update n a t) (UID a)) k r
            = allocatedQuantity n k r).
Proof.
  intros Hn Ha Ht Hu. unfold update.
  assert (Hrel : release n (UID a) = n) by (unfold release; by rewrite Hu).
  rewrite Hrel. by apply release_add.
Qed.

Lemma update_release_restores_witness :
  allocatedPods (release (update (NewNodeAllocation "node-1") samplePod sampleTopology)
                   (UID samplePod))
  = allocatedPods (NewNodeAllocation "node-1")
  ∧ (∀ c, allocatedCPUs (release (update (NewNodeAllocation "node-1") samplePod
                                    sampleTopology) (UID samplePod)) !! c
          = (λ i, if decide (c ∈ paCPUSet samplePod)
                  then setExclusivePolicy i (CPUExclusivePolicy samplePod) else i)
              <$> allocatedCPUs (NewNodeAllocation "node-1") !! c)
  ∧ (∀ k r, allocatedQuantity (release (update (NewNodeAllocation "node-1") samplePod
                                          sampleTopology) (UID samplePod)) k r
            = allocatedQuantity (NewNodeAllocation "node-1") k r).
Proof.
  apply (update_release_restores (NewNodeAllocation "node-1") samplePod sampleTopology).
  - apply NewNodeAllocation_valid.
  - exact samplePod_valid.
  - exact sampleTopology_unreferenced.
  - reflexivity.
Defined.

(** C8 as stated fails in two ways.  When the ledger already records the
    pod, the update replaces the recorded allocation and the release removes
    it: the pod is gone from a ledger that had it.  When the ledger is new,
    the NUMA node of the pod keeps an entry (with zero quantities) in
    allocatedResources that the ledger did not have. *)
Lemma update_release_not_restored :
  release (update sampleNode samplePod sampleTopology) (UID samplePod) ≠ sampleNode
  ∧ release (update (NewNodeAllocation "node-1") samplePod sampleTopology) (UID samplePod)
    ≠ NewNodeAllocation "node-1".
Proof.
  split.
  - intros H. apply (f_equal (λ n, allocatedPods n !! UID samplePod)) in H.
    rewrite release_absent in H. vm_compute in H. discriminate H.
  - intros H. apply (f_equal (λ n, allocatedResources n !! 0)) in H.
    vm_compute in H. discriminate H.
Qed.

(** ** Available CPUs *)

Lemma unreferPreferred_partial_alter d c :
  unreferPreferred d c = partial_alter releaseEntry c d.
Proof. rewrite <- releaseCPU_partial_alter. reflexivity. Qed.

Lemma fold_unreferPreferred_lookup (s : gset Z) d c :
  fold_left unreferPreferred (elements s) d !! c
  = if decide (c ∈ s) then releaseEntry (d !! c) else d !! c.
Proof. apply fold_releaseCPU_lookup. Qed.

(** C6: getAvailableCPUs works on a copy of allocatedCPUs in which the
    reference count of every preferred CPU is one less, an entry that
    reaches zero being removed; other entries are as recorded.  The
    available CPUs are exactly the CPUs of the topology that have no entry
    in that copy with a reference count of at least maxRefCount and that are
    not reserved.  The ledger itself is not changed (the function returns
    the copy). *)
Theorem getAvailableCPUs_spec (n : NodeAllocation) (t : CPUTopology) (maxRefCount : Z)
    (reservedCPUs preferredCPUs : gset Z) :
  (∀ c, c ∉ preferredCPUs →
        (getAvailableCPUs n t maxRefCount reservedCPUs preferredCPUs).2 !! c
        = allocatedCPUs n !! c)
  ∧ (∀ c, c ∈ preferredCPUs →
          (getAvailableCPUs n t maxRefCount reservedCPUs preferredCPUs).2 !! c
          = match allocatedCPUs n !! c with
            | Some i => if decide (wrap_int (RefCount i - 1) = 0) then None
                        else Some (setRefCount i (wrap_int (RefCount i - 1)))
            | None => None
            end)
  ∧ (∀ c, c ∈ (getAvailableCPUs n t maxRefCount reservedCPUs preferredCPUs).1
          ↔ c ∈ CPUs (topoCPUDetails t)
            ∧ ¬ (∃ i, (getAvailableCPUs n t maxRefCount reservedCPUs preferredCPUs).2 !! c
                      = Some i ∧ maxRefCount <= RefCount i)
            ∧ c ∉ reservedCPUs).
Proof.
  assert (Hinfo : ∀ c, (getAvailableCPUs n t maxRefCount reservedCPUs preferredCPUs).2 !! c
                       = if decide (c ∈ preferredCPUs) then releaseEntry (allocatedCPUs n !! c)
                         else allocatedCPUs n !! c).
  { intros c. unfold getAvailableCPUs. cbn [snd].
    destruct (decide (preferredCPUs = ∅)) as [->|Hne].
    - rewrite decide_False; [done | apply not_elem_of_empty].
    - apply fold_unreferPreferred_lookup. }
  split; [|split].
  - intros c Hc. by rewrite Hinfo, decide_False.
  - intros c Hc. by rewrite Hinfo, decide_True.
  - intros c.
    assert (Hav : (getAvailableCPUs n t maxRefCount reservedCPUs preferredCPUs).1
                  = CPUs (topoCPUDetails t)
                    ∖ filter (λ cpuID, maxRefCount <= RefCount (default zeroCPUInfo
                         ((getAvailableCPUs n t maxRefCount reservedCPUs preferredCPUs).2
                            !! cpuID)))
                        (CPUs (getAvailableCPUs n t maxRefCount reservedCPUs preferredCPUs).2)
                    ∖ reservedCPUs) by reflexivity.
    rewrite Hav. clear Hav Hinfo.
    generalize ((getAvailableCPUs n t maxRefCount reservedCPUs preferredCPUs).2).
    intros info. rewrite !elem_of_difference, elem_of_filter. unfold CPUs at 2.
    rewrite elem_of_dom.
    destruct (info !! c) as [i|] eqn:Hi; simpl.
    + split.
      * intros [[Ht Hna] Hr]. split; [done|]. split; [|done].
        intros (j & [= <-] & Hj). apply Hna. by split.
      * intros (Ht & Hna & Hr). split; [split; [done|]|done].
        intros [Hj _]. apply Hna. by exists i.
    + split.
      * intros [[Ht Hna] Hr]. split; [done|]. split; [|done]. by intros (j & ? & _).
      * intros (Ht & Hna & Hr). split; [split; [done|]|done].
        intros [_ [j Hj]]. done.
Qed.

(** On the sample node CPUs 0 and 1 are taken; a pod that prefers them (it
    holds them) finds them available again, in a copy of the ledger. *)
Example getAvailableCPUs_examples :
  (getAvailableCPUs sampleNode sampleTopology 1 ∅ ∅).1 = {[2; 3]}
  ∧ (getAvailableCPUs sampleNode sampleTopology 1 ∅ {[0; 1]}).1 = {[0; 1; 2; 3]}
  ∧ (getAvailableCPUs sampleNode sampleTopology 1 {[3]} {[0; 1]}).1 = {[0; 1; 2]}
  ∧ (getAvailableCPUs sampleNode sampleTopology 2 ∅ ∅).1 = {[0; 1; 2; 3]}.
Proof. repeat split; vm_compute; reflexivity. Qed.

(** ** The manager: what changes the ledgers *)

Lemma sameLedgers_refl c : sameLedgers c c.
Proof. by repeat split. Qed.

Lemma sameLedgers_trans c1 c2 c3 :
  sameLedgers c1 c2 → sameLedgers c2 c3 → sameLedgers c1 c3.
Proof.
  intros (H1 & H2 & H3) (H4 & H5 & H6).
  split; [congruence|]. split; [congruence|].
  intros name. by rewrite H6, H3.
Qed.

Lemma getOrCreateNodeAllocation_same c name :
  sameLedgers c (getOrCreateNodeAllocation c name).2.
Proof.
  unfold getOrCreateNodeAllocation.
  destruct (nodeAllocations c !! name) eqn:Hn; simpl; [apply sameLedgers_refl|].
  split; [done|]. split; [done|]. intros name'.
  unfold ledgerOf, GetNodeAllocation, getOrCreateNodeAllocation. simpl.
  rewrite lookup_insert. destruct (decide (name = name')) as [<-|].
  - by rewrite Hn.
  - by destruct (nodeAllocations c !! name').
Qed.

Lemma managerAvailableNUMANodeResources_same c name topts reusable :
  sameLedgers c (managerAvailableNUMANodeResources c name topts reusable).2.
Proof.
  unfold managerAvailableNUMANodeResources.
  pose proof (getOrCreateNodeAllocation_same c name) as Hsame.
  by destruct (getOrCreateNodeAllocation c name).
Qed.

Lemma GetAvailableCPUs_same c name preferred :
  sameLedgers c (GetAvailableCPUs c name preferred).2.
Proof.
  unfold GetAvailableCPUs.
  destruct (toCPUTopology (GetTopologyOptions c name)) as [t|]; [|apply sameLedgers_refl].
  destruct (IsValid t); simpl; [|apply sameLedgers_refl].
  pose proof (getOrCreateNodeAllocation_same c name) as Hsame.
  by destruct (getOrCreateNodeAllocation c name).
Qed.

Lemma GetAllocatedCPUSet_same c name uid :
  sameLedgers c (GetAllocatedCPUSet c name uid).2.
Proof.
  unfold GetAllocatedCPUSet.
  pose proof (getOrCreateNodeAllocation_same c name) as Hsame.
  by destruct (getOrCreateNodeAllocation c name).
Qed.

Lemma GetTopologyHints_same c node pod options :
  sameLedgers c (GetTopologyHints c node pod options).2.
Proof.
  unfold GetTopologyHints. case_decide; [apply sameLedgers_refl|].
  pose proof (managerAvailableNUMANodeResources_same c (cnName node)
                (topologyOptions options) (reusableResources options)) as Hsame.
  destruct (managerAvailableNUMANodeResources _ _ _ _) as [[avail ?] c'].
  by destruct (generateResourceHints _ _ _).
Qed.

Lemma allocateResourcesByHint_same c node pod options :
  sameLedgers c (allocateResourcesByHint c node pod options).2.
Proof.
  unfold allocateResourcesByHint. case_decide; [apply sameLedgers_refl|].
  pose proof (managerAvailableNUMANodeResources_same c (cnName node)
                (topologyOptions options) (reusableResources options)) as Hsame.
  destruct (managerAvailableNUMANodeResources _ _ _ _) as [[avail ?] c'].
  destruct (NUMANodeAffinity (hint options)); [|done].
  by case_decide.
Qed.

Lemma allocateCPUSet_same tp c node pod numaNodes options :
  sameLedgers c (allocateCPUSet tp c node pod numaNodes options).2.
Proof.
  unfold allocateCPUSet.
  pose proof (GetAvailableCPUs_same c (cnName node) (preferredCPUs options)) as Hsame.
  destruct (GetAvailableCPUs _ _ _) as [[[avail allocd]|e|] c']; [|done|done].
  repeat (case_match || case_decide); done.
Qed.

(** C2: Allocate leaves the ledger of every node as it was, whether it
    returns a pod allocation, an error or panics (it may create the empty
    ledger of a node that had none yet, which is what the manager gives for
    such a node anyway); so do the other calls that are not Update or
    Release. *)
Theorem Allocate_keeps_ledgers
    (takePreferredCPUs : option CPUTopology → Z → gset Z → gset Z → gmap Z CPUInfo → Z →
                         string → string → string → outcome (gset Z))
    (c : resourceManager) (node : CoreNode) (pod : CorePod) (options : ResourceOptions)
    (name : string) :
  ledgerOf (Allocate takePreferredCPUs c node pod options).2 name = ledgerOf c name
  ∧ ledgerOf (GetTopologyHints c node pod options).2 name = ledgerOf c name
  ∧ (∀ preferred, ledgerOf (GetAvailableCPUs c name preferred).2 name = ledgerOf c name)
  ∧ (∀ uid, ledgerOf (GetAllocatedCPUSet c name uid).2 name = ledgerOf c name)
  ∧ ledgerOf (GetNodeAllocation c name).2 name = ledgerOf c name.
Proof.
  split; [|split; [|split; [|split]]].
  - assert (H : sameLedgers c (Allocate takePreferredCPUs c node pod options).2);
      [|by destruct H as (_ & _ & H)].
    unfold Allocate.
    assert (H1 : sameLedgers c
                   (match NUMANodeAffinity (hint options) with
                    | Some _ => allocateResourcesByHint c node pod options
                    | None => (Ok [], c)
                    end).2).
    { destruct (NUMANodeAffinity (hint options));
        [apply allocateResourcesByHint_same | apply sameLedgers_refl]. }
    destruct (match NUMANodeAffinity (hint options) with
              | Some _ => allocateResourcesByHint c node pod options
              | None => (Ok [], c)
              end) as [[resources|e|] c1]; [|done|done].
    simpl in H1. destruct (requestCPUBind options); [|done].
    pose proof (allocateCPUSet_same takePreferredCPUs c1 node pod resources options) as H2.
    destruct (allocateCPUSet _ _ _ _ _ _) as [[cpus|e|] c2];
      simpl in *; by eapply sameLedgers_trans.
  - by destruct (GetTopologyHints_same c node pod options) as (_ & _ & H).
  - intros preferred. by destruct (GetAvailableCPUs_same c name preferred) as (_ & _ & H).
  - intros uid. by destruct (GetAllocatedCPUSet_same c name uid) as (_ & _ & H).
  - by destruct (getOrCreateNodeAllocation_same c name) as (_ & _ & H).
Qed.

(** C10: when the topology options of the node have no CPU topology, or one
    that is not valid, Update gives back the manager as it was: no ledger is
    created or changed, and Update has no result that could signal it. *)
Theorem Update_without_valid_topology (c : resourceManager) (name : string)
    (allocation : PodAllocation) :
  toCPUTopology (GetTopologyOptions c name) = None
  ∨ (∃ t, toCPUTopology (GetTopologyOptions c name) = Some t ∧ IsValid t = false) →
  Update c name allocation = c.
Proof.
  unfold Update. intros [->|(t & -> & ->)]; done.
Qed.

Lemma Update_without_valid_topology_witness :
  Update sampleManager "node-2" samplePod = sampleManager.
Proof.
  apply (Update_without_valid_topology sampleManager "node-2" samplePod).
  left. reflexivity.
Defined.

(** The same on a node whose topology is there but not valid. *)
Example Update_invalid_topology_example :
  Update (mkResourceManager "MostAllocated"
            (λ _, mkTopologyOptions (Some (mkCPUTopology ∅ 0)) ∅ 1 []) ∅)
         "node-1" samplePod
  = mkResourceManager "MostAllocated"
      (λ _, mkTopologyOptions (Some (mkCPUTopology ∅ 0)) ∅ 1 []) ∅.
Proof. reflexivity. Qed.

(** Update and Release do change the ledger of their node. *)
Example Update_records_example :
  allocatedPods (ledgerOf sampleManager "node-1") !! "pod-1" = Some samplePod
  ∧ allocatedPods (ledgerOf (Release sampleManager "node-1" "pod-1") "node-1") !! "pod-1"
    = None.
Proof. split; vm_compute; reflexivity. Qed.

(** ** Available NUMA resources *)


(** What the code computes: the capacity less the allocation, not below
    zero, whatever the reusable resources are. *)
Lemma availableOfNode_lookup n acc x k :
  (availableOfNode n acc x).1 !! k
  = if decide (Node x = k)
    then Some (quotav1.SubtractWithNonNegativeResult (Resources x)
                 (default ∅ (Resources <$> allocatedResources n !! k)))
    else acc.1 !! k.
Proof.
  unfold availableOfNode. destruct acc as [av al].
  destruct (decide (Node x = k)) as [<-|Hne].
  - destruct (allocatedResources n !! Node x); simpl; by rewrite lookup_insert_eq.
  - destruct (allocatedResources n !! Node x); simpl; by rewrite lookup_insert_ne.
Qed.

Lemma getAvailableNUMANodeResources_values n topts k R :
  (getAvailableNUMANodeResources n topts).1 !! k = Some R →
  ∃ x, x ∈ toNUMANodeResources topts ∧ Node x = k
       ∧ R = quotav1.SubtractWithNonNegativeResult (Resources x)
               (default ∅ (Resources <$> allocatedResources n !! k)).
Proof.
  unfold getAvailableNUMANodeResources.
  assert (H : ∀ l acc,
             (fold_left (availableOfNode n) l acc).1 !! k = Some R →
             acc.1 !! k = Some R
             ∨ ∃ x, x ∈ l ∧ Node x = k
                    ∧ R = quotav1.SubtractWithNonNegativeResult (Resources x)
                            (default ∅ (Resources <$> allocatedResources n !! k))).
  { induction l as [|x l IH]; intros acc Hl; simpl in Hl; [by left|].
    apply IH in Hl as [Hl|(y & Hy & Hk & HR)].
    - rewrite availableOfNode_lookup in Hl.
      destruct (decide (Node x = k)); [|by left].
      right. exists x. split; [apply elem_of_cons; by left|]. split; [done|congruence].
    - right. exists y. split; [apply elem_of_cons; by right|done]. }
  intros Hl. apply H in Hl as [Hl|Hl]; [|done].
  simpl in Hl. by rewrite lookup_empty in Hl.
Qed.

Lemma getAvailableNUMANodeResources_nonneg n topts k R :
  (getAvailableNUMANodeResources n topts).1 !! k = Some R → nonnegResources R.
Proof.
  intros H. apply getAvailableNUMANodeResources_values in H as (x & _ & _ & ->).
  apply nonneg_Sub.
Qed.

(** ** The required CPU bind policy *)

Lemma Cores_KeepOnly cpus details :
  Cores (KeepOnly details cpus) = coresCovered cpus details.
Proof.
  apply set_eq; intros core. unfold Cores, KeepOnly, coresCovered.
  rewrite elem_of_map_to_set, elem_of_set_omap. split.
  - intros (c & i & Hc & <-). apply map_lookup_filter_Some in Hc as [Hc Hin].
    exists c. split; [done|]. by rewrite Hc.
  - intros (c & Hin & Hc). destruct (details !! c) as [i|] eqn:Hi; [|done].
    injection Hc as <-. exists c, i. split; [|done].
    by apply map_lookup_filter_Some.
Qed.

(** C9: under FullPCPUs the selected CPU set passes exactly when the number
    of physical cores it covers times CPUsPerCore is its size (the product
    fitting a Go int), under SpreadByPCPUs exactly when the number of cores
    it covers is its size; an error is the insufficient-CPUs error that
    names the policy. *)
Theorem satisfiedRequiredCPUBindPolicy_spec (cpus : gset Z) (topology : CPUTopology) :
  int_range (Z.of_nat (size (coresCovered cpus (topoCPUDetails topology)))
             * CPUsPerCore topology) →
  (satisfiedRequiredCPUBindPolicy CPUBindPolicyFullPCPUs cpus topology = None
   ↔ Z.of_nat (size (coresCovered cpus (topoCPUDetails topology))) * CPUsPerCore topology
     = Z.of_nat (size cpus))
  ∧ (satisfiedRequiredCPUBindPolicy CPUBindPolicySpreadByPCPUs cpus topology = None
     ↔ size (coresCovered cpus (topoCPUDetails topology)) = size cpus)
  ∧ (∀ policy e, satisfiedRequiredCPUBindPolicy policy cpus topology = Some e →
       e = Errorf ("insufficient CPUs to satisfy required cpu bind policy " +:+ policy)).
Proof.
  intros Hrange. unfold satisfiedRequiredCPUBindPolicy.
  split; [|split].
  - rewrite decide_True by done.
    unfold determineFullPCPUs, Size. rewrite Cores_KeepOnly, wrap_int_id by done.
    case_bool_decide; simpl; split; intros; done.
  - rewrite decide_False by done. rewrite decide_True by done.
    unfold determineSpreadByPCPUs, Size. rewrite Cores_KeepOnly.
    case_bool_decide as H; simpl; split; intros H'; try done.
    + lia.
    + exfalso. apply H. by rewrite H'.
  - intros policy e. by destruct (negb _); intros [= <-].
Qed.

Lemma satisfiedRequiredCPUBindPolicy_spec_witness :
  (satisfiedRequiredCPUBindPolicy CPUBindPolicyFullPCPUs {[0; 1]} sampleTopology = None
   ↔ Z.of_nat (size (coresCovered {[0; 1]} (topoCPUDetails sampleTopology)))
     * CPUsPerCore sampleTopology
     = Z.of_nat (size ({[0; 1]} : gset Z)))
  ∧ (satisfiedRequiredCPUBindPolicy CPUBindPolicySpreadByPCPUs {[0; 1]} sampleTopology = None
     ↔ size (coresCovered {[0; 1]} (topoCPUDetails sampleTopology))
       = size ({[0; 1]} : gset Z))
  ∧ (∀ policy e, satisfiedRequiredCPUBindPolicy policy {[0; 1]} sampleTopology = Some e →
       e = Errorf ("insufficient CPUs to satisfy required cpu bind policy " +:+ policy)).
Proof.
  apply (satisfiedRequiredCPUBindPolicy_spec {[0; 1]} sampleTopology).
  vm_compute. split; [intros H; discriminate H | reflexivity].
Defined.

(** The policies at work on the sample topology: a whole core passes
    FullPCPUs and fails SpreadByPCPUs, one CPU of each core does the
    opposite. *)
Example satisfiedRequiredCPUBindPolicy_examples :
  satisfiedRequiredCPUBindPolicy "FullPCPUs" {[0; 1]} sampleTopology = None
  ∧ satisfiedRequiredCPUBindPolicy "SpreadByPCPUs" {[0; 1]} sampleTopology
    = Some (Errorf "insufficient CPUs to satisfy required cpu bind policy SpreadByPCPUs")
  ∧ satisfiedRequiredCPUBindPolicy "SpreadByPCPUs" {[0; 2]} sampleTopology = None
  ∧ satisfiedRequiredCPUBindPolicy "FullPCPUs" {[0; 2]} sampleTopology
    = Some (Errorf "insufficient CPUs to satisfy required cpu bind policy FullPCPUs").
Proof. repeat split; vm_compute; reflexivity. Qed.

(** ** Allocation of NUMA resources by hint *)

Lemma allocateRes_remaining a q : (allocateRes a q).1.2 = consume a q.
Proof.
  unfold allocateRes, consume.
  destruct (Z.compare_spec a q); cbn [fst snd]; lia.
Qed.

Lemma consume_nonneg a q : 0 <= a → 0 <= consume a q.
Proof. unfold consume. lia. Qed.

Lemma consume_zero a : 0 <= a → consume a 0 = 0.
Proof. unfold consume. lia. Qed.

Lemma remainingAfter_app cells1 cells2 r q :
  remainingAfter (cells1 ++ cells2) r q
  = remainingAfter cells2 r (remainingAfter cells1 r q).
Proof. unfold remainingAfter. apply fold_left_app. Qed.

Lemma remainingAfter_zero cells r :
  Forall nonnegResources cells → remainingAfter cells r 0 = 0.
Proof.
  induction 1 as [|cell cells Hc _ IH]; [done|].
  unfold remainingAfter in *. simpl.
  destruct (cell !! r) as [a|] eqn:Ha; [|done].
  rewrite consume_zero; [done | by eapply Hc].
Qed.

Lemma remainingAfter_nonneg cells r q :
  Forall nonnegResources cells → 0 <= q → 0 <= remainingAfter cells r q.
Proof.
  intros Hcells. revert q. induction Hcells as [|cell cells Hc _ IH]; intros q Hq; [done|].
  unfold remainingAfter in *. simpl. apply IH.
  destruct (cell !! r) as [a|] eqn:Ha; [|done].
  apply consume_nonneg. by eapply Hc.
Qed.

Lemma remainingAfter_present_nonneg cells r q :
  Forall nonnegResources cells → presentIn cells r → 0 <= remainingAfter cells r q.
Proof.
  intros Hcells. revert q. induction Hcells as [|cell cells Hc Hcells IH]; intros q Hp.
  - destruct Hp as (cell & Hin & _). by apply not_elem_of_nil in Hin.
  - change (0 <= remainingAfter cells r
                    (match cell !! r with Some a => consume a q | None => q end)).
    destruct (cell !! r) as [a|] eqn:Ha.
    + apply remainingAfter_nonneg; [done|]. apply consume_nonneg. by eapply Hc.
    + apply IH. destruct Hp as (cell' & Hin & Hs).
      apply elem_of_cons in Hin as [->|Hin]; [|by exists cell'].
      rewrite Ha in Hs. by destruct Hs.
Qed.

(** The loop over the requests for one NUMA node changes every request the
    node's availability has, and nothing else. *)
Lemma fold_allocateOne l (alloc0 req0 rres0 : gmap string Z) (inter0 : gset string) :
  NoDup l.*1 →
  (∀ r, (fold_left allocateOne l (alloc0, req0, rres0, inter0)).1.1.1 !! r
        = match (list_to_map l : gmap string Z) !! r, alloc0 !! r with
          | Some q, Some a => Some (allocateRes a q).1.1
          | _, _ => alloc0 !! r
          end)
  ∧ (∀ r, (fold_left allocateOne l (alloc0, req0, rres0, inter0)).1.1.2 !! r
          = match (list_to_map l : gmap string Z) !! r, alloc0 !! r with
            | Some q, Some a => Some (consume a q)
            | _, _ => req0 !! r
            end)
  ∧ (∀ r, r ∈ (fold_left allocateOne l (alloc0, req0, rres0, inter0)).2
          ↔ r ∈ inter0
            ∨ (is_Some ((list_to_map l : gmap string Z) !! r) ∧ is_Some (alloc0 !! r))).
Proof.
  revert alloc0 req0 rres0 inter0.
  induction l as [|[k q] l IH]; intros alloc0 req0 rres0 inter0 Hnd.
  - split; [|split]; intros r; simpl; rewrite lookup_empty; [done|done|].
    split; [by left|]. intros [?|[[? Hx] _]]; done.
  - apply NoDup_cons in Hnd as [Hk Hnd]. simpl in Hk.
    apply not_elem_of_list_to_map_1 in Hk.
    cbn [fold_left list_to_map foldr fst snd]. unfold allocateOne at 2 4 6.
    destruct (alloc0 !! k) as [a|] eqn:Ha.
    + destruct (allocateRes a q) as [[av rq] al] eqn:Hres.
      pose proof (allocateRes_remaining a q) as Hrq. rewrite Hres in Hrq. simpl in Hrq.
      destruct (IH (<[k:=av]> alloc0) (<[k:=rq]> req0)
                  (if decide (al = 0) then rres0 else <[k:=al]> rres0)
                  ({[k]} ∪ inter0) Hnd) as (IH1 & IH2 & IH3).
      split; [|split]; intros r.
      * rewrite IH1, !lookup_insert.
        destruct (decide (k = r)) as [<-|Hne].
        -- by rewrite Hk, Ha, Hres.
        -- done.
      * rewrite IH2, !lookup_insert.
        destruct (decide (k = r)) as [<-|Hne].
        -- rewrite Hk, Ha. by rewrite Hrq.
        -- done.
      * rewrite IH3, elem_of_union, elem_of_singleton, !lookup_insert.
        destruct (decide (k = r)) as [<-|Hne].
        -- rewrite Hk, Ha. split; [right; split; by eexists | by left; left].
        -- split; [intros [[?|?]|?] | intros [?|?]]; try tauto. congruence.
    + destruct (IH alloc0 req0 rres0 inter0 Hnd) as (IH1 & IH2 & IH3).
      split; [|split]; intros r.
      * rewrite IH1, lookup_insert.
        destruct (decide (k = r)) as [<-|Hne]; [by rewrite Hk, Ha | done].
      * rewrite IH2, lookup_insert.
        destruct (decide (k = r)) as [<-|Hne]; [by rewrite Hk, Ha | done].
      * rewrite IH3, lookup_insert.
        destruct (decide (k = r)) as [<-|Hne]; [|done].
        rewrite Hk, Ha. split; intros [?|[[? ?] [? ?]]]; try done; by left.
Qed.

Lemma allocateOnNode_spec st b :
  (∀ r, haRequests (allocateOnNode st b) !! r
        = (λ q, match default ∅ (haAvailable st !! b) !! r with
                | Some a => consume a q
                | None => q
                end) <$> haRequests st !! r)
  ∧ (∀ r, r ∈ haIntersection (allocateOnNode st b)
          ↔ r ∈ haIntersection st
            ∨ (is_Some (haRequests st !! r)
               ∧ is_Some (default ∅ (haAvailable st !! b) !! r)))
  ∧ (∀ b', b' ≠ b → haAvailable (allocateOnNode st b) !! b' = haAvailable st !! b').
Proof.
  unfold allocateOnNode.
  destruct (fold_allocateOne (map_to_list (haRequests st))
              (default ∅ (haAvailable st !! b)) (haRequests st) ∅ (haIntersection st)
              (NoDup_fst_map_to_list _)) as (_ & H2 & H3).
  destruct (fold_left allocateOne _ _) as [[[allocatable requests] rRes] inter].
  cbn [fst snd] in H2, H3. cbn [haRequests haIntersection haAvailable].
  split; [|split].
  - intros r. rewrite H2, list_to_map_to_list.
    destruct (haRequests st !! r); simpl; [|done].
    by destruct (default ∅ (haAvailable st !! b) !! r).
  - intros r. by rewrite H3, list_to_map_to_list.
  - intros b' Hne. destruct (haAvailable st !! b); [|done].
    by rewrite lookup_insert_ne.
Qed.

Lemma cellsOf_snoc avail visited b :
  cellsOf avail (visited ++ [b]) = cellsOf avail visited ++ [default ∅ (avail !! b)].
Proof. unfold cellsOf. by rewrite fmap_app. Qed.

Lemma presentIn_snoc cells cell r :
  presentIn (cells ++ [cell]) r ↔ presentIn cells r ∨ is_Some (cell !! r).
Proof.
  unfold presentIn. split.
  - intros (x & Hin & Hs). apply elem_of_app in Hin as [Hin|Hin].
    + left. by exists x.
    + apply list_elem_of_singleton in Hin as ->. by right.
  - intros [(x & Hin & Hs)|Hs].
    + exists x. split; [|done]. apply elem_of_app. by left.
    + exists cell. split; [|done]. apply elem_of_app. right. by apply list_elem_of_singleton.
Qed.

Lemma allocateOnNode_visitedInv avail0 reqs0 visited st b :
  visitedInv avail0 reqs0 visited st → b ∉ visited →
  visitedInv avail0 reqs0 (visited ++ [b]) (allocateOnNode st b).
Proof.
  intros (I1 & I2 & I3) Hb.
  destruct (allocateOnNode_spec st b) as (S1 & S2 & S3).
  rewrite (I3 b Hb) in S1, S2.
  split; [|split].
  - intros r. rewrite S1, I1, cellsOf_snoc, <- option_fmap_compose.
    destruct (reqs0 !! r) as [q|]; simpl; [|done].
    by rewrite remainingAfter_app.
  - intros r. rewrite S2, I2, I1, cellsOf_snoc, presentIn_snoc, fmap_is_Some. tauto.
  - intros b' Hb'. rewrite S3, I3; [done| |].
    + intros Hin. apply Hb', elem_of_app. by left.
    + intros ->. apply Hb', elem_of_app. right. by apply list_elem_of_singleton.
Qed.

Lemma allocateOnNodes_visitedInv avail0 reqs0 bits visited st :
  NoDup (visited ++ bits) →
  visitedInv avail0 reqs0 visited st →
  ∃ visited' rest,
    visited ++ bits = visited' ++ rest
    ∧ visitedInv avail0 reqs0 visited' (allocateOnNodes bits st)
    ∧ (rest = [] ∨ quotav1.IsZero (haRequests (allocateOnNodes bits st)) = true).
Proof.
  revert visited st. induction bits as [|b bits IH]; intros visited st Hnd Hinv.
  - exists visited, []. split; [done|]. split; [done|by left].
  - simpl.
    assert (Hb : b ∉ visited).
    { apply NoDup_app in Hnd as (_ & Hd & _). intros Hin. apply (Hd b Hin).
      apply elem_of_cons. by left. }
    pose proof (allocateOnNode_visitedInv _ _ _ _ _ Hinv Hb) as Hinv'.
    destruct (quotav1.IsZero (haRequests (allocateOnNode st b))) eqn:Hz.
    + exists (visited ++ [b]), bits. split; [by rewrite <- app_assoc|].
      split; [done|by right].
    + destruct (IH (visited ++ [b]) (allocateOnNode st b)) as (v' & rest & Heq & Hi & Hr);
        [by rewrite <- app_assoc | done |].
      exists v', rest. split; [|done]. by rewrite <- Heq, <- app_assoc.
Qed.

Lemma fold_addReason inter l acc x :
  x ∈ fold_left (addReason inter) l acc
  ↔ x ∈ acc ∨ ∃ k q, (k, q) ∈ l ∧ k ∈ inter ∧ q ≠ 0
                     ∧ x = ("Insufficient NUMA " +:+ k)%string.
Proof.
  revert acc. induction l as [|[k q] l IH]; intros acc; simpl.
  - split; [by left|]. intros [?|(k & q & Hin & _)]; [done|].
    by apply not_elem_of_nil in Hin.
  - rewrite IH. unfold addReason. simpl.
    destruct (decide (k ∈ inter)) as [Hk|Hk]; [destruct (decide (q = 0)) as [Hq|Hq]|].
    + split.
      * intros [?|(k' & q' & Hin & ?)]; [by left|].
        right. exists k', q'. split; [apply elem_of_cons; by right|done].
      * intros [?|(k' & q' & Hin & Hk' & Hq' & ->)]; [by left|].
        apply elem_of_cons in Hin as [Heq|Hin]; [by injection Heq as -> ->|].
        right. by exists k', q'.
    + rewrite elem_of_app, list_elem_of_singleton. split.
      * intros [[? | ->]|(k' & q' & Hin & ?)]; [by left| |].
        -- right. exists k, q. split; [apply elem_of_cons; by left|done].
        -- right. exists k', q'. split; [apply elem_of_cons; by right|done].
      * intros [?|(k' & q' & Hin & Hk' & Hq' & ->)]; [left; by left|].
        apply elem_of_cons in Hin as [Heq|Hin]; [injection Heq as -> ->; left; by right|].
        right. by exists k', q'.
    + split.
      * intros [?|(k' & q' & Hin & ?)]; [by left|].
        right. exists k', q'. split; [apply elem_of_cons; by right|done].
      * intros [?|(k' & q' & Hin & Hk' & Hq' & ->)]; [by left|].
        apply elem_of_cons in Hin as [Heq|Hin]; [by injection Heq as -> ->|].
        right. by exists k', q'.
Qed.

Lemma IsZero_lookup (R : gmap string Z) r q :
  quotav1.IsZero R = true → R !! r = Some q → q = 0.
Proof.
  unfold quotav1.IsZero. rewrite bool_decide_eq_true. intros H Hr. by apply (H r q).
Qed.

(** The reasons collected after the loop, in the words of the
    specification. *)
Lemma byHint_reasons avail reqs bits x :
  NoDup bits →
  Forall nonnegResources (cellsOf avail bits) →
  x ∈ fold_left
        (addReason (haIntersection (allocateOnNodes bits (mkHintAlloc avail reqs ∅ []))))
        (map_to_list (haRequests (allocateOnNodes bits (mkHintAlloc avail reqs ∅ []))))
        []
  ↔ ∃ r q, reqs !! r = Some q
           ∧ presentIn (cellsOf avail bits) r
           ∧ 0 < remainingAfter (cellsOf avail bits) r q
           ∧ x = ("Insufficient NUMA " +:+ r)%string.
Proof.
  intros Hnd Hnn.
  destruct (allocateOnNodes_visitedInv avail reqs bits [] (mkHintAlloc avail reqs ∅ []))
    as (visited & rest & Hbits & (I1 & I2 & _) & Hend).
  { done. }
  { split; [|split]; simpl.
    - intros r. by destruct (reqs !! r).
    - intros r. split; [intros Hr; by apply not_elem_of_empty in Hr|].
      intros (_ & cell & Hin & _). by apply not_elem_of_nil in Hin.
    - done. }
  simpl in Hbits. subst bits.
  unfold cellsOf in Hnn. rewrite fmap_app in Hnn. apply Forall_app in Hnn as [Hnn1 Hnn2].
  fold (cellsOf avail visited) in Hnn1. fold (cellsOf avail rest) in Hnn2.
  rewrite fold_addReason. split.
  - intros [Hx|(k & q' & Hin & Hk & Hq' & ->)]; [by apply not_elem_of_nil in Hx|].
    apply elem_of_map_to_list in Hin. rewrite I1 in Hin.
    apply I2 in Hk as [_ Hp].
    destruct (reqs !! k) as [q|] eqn:Hq; [|done]. injection Hin as <-.
    destruct Hend as [->|Hz].
    + rewrite app_nil_r. exists k, q. split; [done|]. split; [done|]. split; [|done].
      pose proof (remainingAfter_present_nonneg _ k q Hnn1 Hp). lia.
    + exfalso. apply Hq'. eapply IsZero_lookup; [done|]. by rewrite I1, Hq.
  - intros (r & q & Hq & Hp & Hpos & ->). right.
    destruct Hend as [->|Hz].
    + rewrite app_nil_r in Hp, Hpos. exists r, (remainingAfter (cellsOf avail visited) r q).
      split; [apply elem_of_map_to_list; by rewrite I1, Hq|].
      split; [apply I2; split; [by eexists|done]|]. split; [lia|done].
    + exfalso. unfold cellsOf in Hpos. rewrite fmap_app in Hpos.
      fold (cellsOf avail visited) in Hpos. fold (cellsOf avail rest) in Hpos.
      rewrite remainingAfter_app in Hpos.
      assert (Hzero : remainingAfter (cellsOf avail visited) r q = 0).
      { eapply IsZero_lookup; [done|]. by rewrite I1, Hq. }
      rewrite Hzero, remainingAfter_zero in Hpos by done. lia.
Qed.

Lemma NoDup_GetBits mask : NoDup (bitmask.GetBits mask).
Proof. unfold bitmask.GetBits. apply NoDup_filter, NoDup_seqZ. Qed.

Lemma cellsOf_available_nonneg n topts bits :
  Forall nonnegResources (cellsOf (getAvailableNUMANodeResources n topts).1 bits).
Proof.
  unfold cellsOf. apply Forall_fmap, Forall_forall. intros b _. simpl.
  destruct ((getAvailableNUMANodeResources n topts).1 !! b) as [R|] eqn:HR; simpl.
  - by eapply getAvailableNUMANodeResources_nonneg.
  - intros r q. by rewrite lookup_empty.
Qed.

Lemma presentIn_cellsOf_empty bits r : ¬ presentIn (cellsOf ∅ bits) r.
Proof.
  intros (cell & Hin & Hs). unfold cellsOf in Hin.
  apply list_elem_of_fmap in Hin as (b & -> & _).
  rewrite lookup_empty in Hs. simpl in Hs. rewrite lookup_empty in Hs. by destruct Hs.
Qed.

Lemma reason_inj (r r' : string) :
  ("Insufficient NUMA " +:+ r)%string = ("Insufficient NUMA " +:+ r')%string → r = r'.
Proof. simpl. intros H. by injection H. Qed.

(** C4: with the availability the manager computes for the node, the
    per-NUMA allocation step fails with "Insufficient NUMA r" exactly when r
    is requested, some cell of the mask has r in its availability, and what
    remains of the request after consuming the cells in the mask's bit order
    is positive; it fails with such reasons exactly when there is such a
    resource.  A resource that no cell of the mask has never is a reason. *)
Theorem allocateResourcesByHint_insufficient (c : resourceManager) (node : CoreNode)
    (pod : CorePod) (options : ResourceOptions) (mask : Z) :
  NUMANodeAffinity (hint options) = Some mask →
  (∀ r, failsWith (allocateResourcesByHint c node pod options).1
          ("Insufficient NUMA " +:+ r)
        ↔ ∃ q, requestsByHint options !! r = Some q
               ∧ presentIn
                   (cellsOf (managerAvailableNUMANodeResources c (cnName node)
                               (topologyOptions options) (reusableResources options)).1.1
                            (bitmask.GetBits mask)) r
               ∧ 0 < remainingAfter
                       (cellsOf (managerAvailableNUMANodeResources c (cnName node)
                                   (topologyOptions options) (reusableResources options)).1.1
                                (bitmask.GetBits mask)) r q)
  ∧ ((∃ reasons, (allocateResourcesByHint c node pod options).1 = Err (Unschedulable reasons))
     ↔ ∃ r q, requestsByHint options !! r = Some q
              ∧ presentIn
                  (cellsOf (managerAvailableNUMANodeResources c (cnName node)
                              (topologyOptions options) (reusableResources options)).1.1
                           (bitmask.GetBits mask)) r
              ∧ 0 < remainingAfter
                      (cellsOf (managerAvailableNUMANodeResources c (cnName node)
                                  (topologyOptions options) (reusableResources options)).1.1
                               (bitmask.GetBits mask)) r q).
Proof.
  intros Hmask. unfold allocateResourcesByHint, managerAvailableNUMANodeResources.
  destruct (getOrCreateNodeAllocation c (cnName node)) as [na c'].
  cbn [fst snd]. rewrite Hmask. fold (requestsByHint options).
  pose proof (cellsOf_available_nonneg na (topologyOptions options)
                (bitmask.GetBits mask)) as Hnn.
  destruct (getAvailableNUMANodeResources na (topologyOptions options))
    as [avail alloc'] eqn:Hav.
  cbn [fst snd] in *.
  destruct (decide (length (toNUMANodeResources (topologyOptions options)) = 0%nat))
    as [Hlen|Hlen].
  - assert (Havail : avail = ∅).
    { unfold getAvailableNUMANodeResources in Hav.
      apply length_zero_iff_nil in Hlen. rewrite Hlen in Hav. simpl in Hav. congruence. }
    rewrite Havail. split.
    + intros r. split.
      * intros (reasons & Hr & _). simpl in Hr. discriminate Hr.
      * intros (q & _ & Hp & _). by apply presentIn_cellsOf_empty in Hp.
    + split.
      * intros (reasons & Hr). simpl in Hr. discriminate Hr.
      * intros (r & q & _ & Hp & _). by apply presentIn_cellsOf_empty in Hp.
  - pose proof (λ x, byHint_reasons avail (requestsByHint options) (bitmask.GetBits mask) x
                       (NoDup_GetBits mask) Hnn) as Hreasons.
    set (reasons := fold_left _ _ []) in *. clearbody reasons.
    split.
    + intros r. split.
      * intros (reasons' & Hr & Hin).
        destruct (decide (0 < length reasons)%nat); simpl in Hr; [|discriminate Hr].
        injection Hr as <-.
        apply Hreasons in Hin as (r' & q & Hq & Hp & Hpos & Heq).
        apply reason_inj in Heq as ->. by exists q.
      * intros (q & Hq & Hp & Hpos).
        assert (Hin : ("Insufficient NUMA " +:+ r)%string ∈ reasons).
        { apply Hreasons. by exists r, q. }
        exists reasons. split; [|done].
        rewrite decide_True; [done|]. destruct reasons; simpl; [|lia].
        by apply not_elem_of_nil in Hin.
    + split.
      * intros (reasons' & Hr).
        destruct (decide (0 < length reasons)%nat) as [Hpos|]; simpl in Hr; [|discriminate Hr].
        assert (∃ x, x ∈ reasons) as [x Hin].
        { destruct reasons as [|x reasons0]; simpl in Hpos; [lia|].
          exists x. apply elem_of_cons. by left. }
        apply Hreasons in Hin as (r' & q & Hq & Hp & Hq' & _). by exists r', q.
      * intros (r & q & Hq & Hp & Hpos).
        assert (Hin : ("Insufficient NUMA " +:+ r)%string ∈ reasons).
        { apply Hreasons. by exists r, q. }
        exists reasons.
        rewrite decide_True; [done|]. destruct reasons; simpl; [|lia].
        by apply not_elem_of_nil in Hin.
Qed.

Lemma allocateResourcesByHint_insufficient_witness :
  ∃ mask,
    (∀ r, failsWith (allocateResourcesByHint sampleManager sampleNodeObject
                       samplePodObject sampleRequest).1
            ("Insufficient NUMA " +:+ r)
          ↔ ∃ q, requestsByHint sampleRequest !! r = Some q
                 ∧ presentIn
                     (cellsOf (managerAvailableNUMANodeResources sampleManager
                                 (cnName sampleNodeObject) (topologyOptions sampleRequest)
                                 (reusableResources sampleRequest)).1.1
                              (bitmask.GetBits mask)) r
                 ∧ 0 < remainingAfter
                         (cellsOf (managerAvailableNUMANodeResources sampleManager
                                     (cnName sampleNodeObject)
                                     (topologyOptions sampleRequest)
                                     (reusableResources sampleRequest)).1.1
                                  (bitmask.GetBits mask)) r q)
    ∧ ((∃ reasons, (allocateResourcesByHint sampleManager sampleNodeObject
                      samplePodObject sampleRequest).1 = Err (Unschedulable reasons))
       ↔ ∃ r q, requestsByHint sampleRequest !! r = Some q
                ∧ presentIn
                    (cellsOf (managerAvailableNUMANodeResources sampleManager
                                (cnName sampleNodeObject) (topologyOptions sampleRequest)
                                (reusableResources sampleRequest)).1.1
                             (bitmask.GetBits mask)) r
                ∧ 0 < remainingAfter
                        (cellsOf (managerAvailableNUMANodeResources sampleManager
                                    (cnName sampleNodeObject)
                                    (topologyOptions sampleRequest)
                                    (reusableResources sampleRequest)).1.1
                                 (bitmask.GetBits mask)) r q).
Proof.
  exists 1.
  apply (allocateResourcesByHint_insufficient sampleManager sampleNodeObject
           samplePodObject sampleRequest 1).
  reflexivity.
Defined.

(** The sample request of 3000 finds 2000 available on NUMA node 0; a
    request of a resource that no cell has is not a reason to fail. *)
Example allocateResourcesByHint_examples :
  (allocateResourcesByHint sampleManager sampleNodeObject samplePodObject sampleRequest).1
  = Err (Unschedulable ["Insufficient NUMA cpu"])
  ∧ (allocateResourcesByHint sampleManager sampleNodeObject samplePodObject
       (mkResourceOptions 1 false {["cpu" := 1000; "example.com/gpu" := 1]}
          {["cpu" := 1000; "example.com/gpu" := 1]} false "" "" ∅ ∅
          (mkNUMATopologyHint (Some 1) true) sampleOptions)).1
    = Ok [mkNUMANodeResource 0 {["cpu" := 1000]}].
Proof. split; vm_compute; reflexivity. Qed.

(** ** Bit masks *)

Lemma land_bit_pos m i :
  0 <= i → (0 < Z.land m (Z.shiftl 1 i) ↔ Z.testbit m i = true).
Proof.
  intros Hi. rewrite Z.shiftl_1_l.
  destruct (Z.testbit m i) eqn:Hb.
  - assert (Z.land m (2 ^ i) = 2 ^ i) as ->.
    { apply Z.bits_inj'. intros j Hj. rewrite Z.land_spec, Z.pow2_bits_eqb by done.
      destruct (Z.eqb_spec i j) as [<-|]; [by rewrite Hb | apply andb_false_r]. }
    split; [done|]. intros _. by apply Z.pow_pos_nonneg.
  - assert (Z.land m (2 ^ i) = 0) as ->.
    { apply Z.bits_inj'. intros j Hj.
      rewrite Z.land_spec, Z.pow2_bits_eqb, Z.bits_0 by done.
      destruct (Z.eqb_spec i j) as [<-|]; [by rewrite Hb | apply andb_false_r]. }
    split; [lia|done].
Qed.

Lemma elem_of_GetBits m i :
  i ∈ bitmask.GetBits m ↔ (0 <= i < 64) ∧ Z.testbit m i = true.
Proof.
  unfold bitmask.GetBits. rewrite list_elem_of_filter, elem_of_seqZ. split.
  - intros [Hp Hi]. split; [lia|]. apply land_bit_pos; [lia|done].
  - intros [Hi Hb]. split; [|lia]. apply land_bit_pos; [lia|done].
Qed.

Lemma Count_GetBits m : bitmask.Count m = Z.of_nat (length (bitmask.GetBits m)).
Proof.
  unfold bitmask.Count, bitmask.GetBits.
  assert (H : Forall (λ i, 0 <= i) (seqZ 0 64)).
  { apply Forall_forall. intros i Hi. apply elem_of_seqZ in Hi. lia. }
  induction H as [|i l Hi _ IH]; [done|].
  cbn [fold_right]. rewrite filter_cons, IH.
  destruct (decide (0 < Z.land m (Z.shiftl 1 i))) as [Hp|Hp].
  - apply land_bit_pos in Hp; [|done]. rewrite Hp. simpl. lia.
  - destruct (Z.testbit m i) eqn:Hb; [|simpl; lia].
    exfalso. apply Hp. by apply land_bit_pos.
Qed.

Lemma Add_spec bits s :
  Forall (λ b, 0 <= b < 64) bits →
  ∃ m, bitmask.Add s bits = Some m
       ∧ ∀ i, 0 <= i → Z.testbit m i = Z.testbit s i || bool_decide (i ∈ bits).
Proof.
  intros Hbits. revert s. induction Hbits as [|b bits Hb _ IH]; intros s.
  - exists s. split; [done|]. intros i _.
    rewrite bool_decide_eq_false_2; [by rewrite orb_false_r | apply not_elem_of_nil].
  - simpl. rewrite decide_False by lia.
    destruct (IH (Z.lor s (Z.shiftl 1 b))) as (m & Hm & Hbit).
    exists m. split; [done|]. intros i Hi.
    rewrite Hbit, Z.lor_spec, Z.shiftl_1_l, Z.pow2_bits_eqb by lia.
    destruct (Z.eqb_spec b i) as [<-|Hne].
    + rewrite (bool_decide_eq_true_2 (b ∈ b :: bits)) by (apply elem_of_cons; by left).
      by rewrite !orb_true_r.
    + rewrite orb_false_r. f_equal. apply bool_decide_ext.
      rewrite elem_of_cons. naive_solver.
Qed.

Lemma NewBitMask_spec bits :
  Forall (λ b, 0 <= b < 64) bits →
  ∃ m, bitmask.NewBitMask bits = Some m
       ∧ ∀ i, Z.testbit m i = true ↔ i ∈ bits.
Proof.
  intros Hbits. destruct (Add_spec bits 0 Hbits) as (m & Hm & Hbit).
  exists m. split; [done|]. intros i.
  destruct (decide (0 <= i)) as [Hi|Hi].
  - rewrite Hbit, Z.bits_0 by done. simpl. apply bool_decide_eq_true.
  - rewrite Z.testbit_neg_r by lia. split; [done|]. intros Hin.
    rewrite Forall_forall in Hbits. apply Hbits in Hin. lia.
Qed.

(** ** The masks [IterateBitMasks] calls back on *)

Lemma iterate_S_cons k b rest accum :
  bitmask.iterate (S k) (b :: rest) accum
  = bitmask.iterate k rest (accum ++ [b]) ++ bitmask.iterate (S k) rest accum.
Proof. reflexivity. Qed.

Lemma elem_of_iterate todo bits accum x :
  x ∈ bitmask.iterate todo bits accum
  ↔ ∃ s, s `sublist_of` bits ∧ length s = todo ∧ x = bitmask.NewBitMask (accum ++ s).
Proof.
  revert bits accum. induction todo as [|k IH]; intros bits accum.
  - simpl. rewrite list_elem_of_singleton. split.
    + intros ->. exists []. split; [apply sublist_nil_l|]. by rewrite app_nil_r.
    + intros (s & _ & Hlen & ->). destruct s; [|done]. by rewrite app_nil_r.
  - induction bits as [|b rest IHbits].
    + simpl. split; [intros Hx; by apply not_elem_of_nil in Hx|].
      intros (s & Hs & Hlen & _). apply sublist_nil_r in Hs. by subst.
    + rewrite iterate_S_cons, elem_of_app, IH, IHbits. split.
      * intros [(s & Hs & Hlen & ->)|(s & Hs & Hlen & ->)].
        -- exists (b :: s). split; [by apply sublist_skip|]. split; [simpl; lia|].
           by rewrite <- app_assoc.
        -- exists s. split; [by apply sublist_cons|done].
      * intros (s & Hs & Hlen & ->). apply sublist_cons_r in Hs as [Hs|(s' & -> & Hs)].
        -- right. by exists s.
        -- left. exists s'. split; [done|]. split; [simpl in Hlen; lia|].
           by rewrite <- app_assoc.
Qed.

Lemma elem_of_IterateBitMasks bits x :
  x ∈ bitmask.IterateBitMasks bits
  ↔ ∃ s, s `sublist_of` bits ∧ s ≠ [] ∧ x = bitmask.NewBitMask s.
Proof.
  unfold bitmask.IterateBitMasks.
  rewrite list_elem_of_In, in_flat_map. split.
  - intros (i & Hi & Hx). apply list_elem_of_In, elem_of_iterate in Hx as (s & Hs & Hlen & ->).
    apply in_seq in Hi. exists s. split; [done|]. split; [|done].
    intros ->. simpl in Hlen. lia.
  - intros (s & Hs & Hne & ->). exists (length s). split.
    + apply in_seq. pose proof (sublist_length _ _ Hs).
      destruct s; [done|]. simpl in *. lia.
    + apply list_elem_of_In, elem_of_iterate. by exists s.
Qed.

Lemma sublist_Forall_range (s bits : list Z) :
  s `sublist_of` bits →
  Forall (λ b, 0 <= b < 64) bits → Forall (λ b, 0 <= b < 64) s.
Proof.
  intros Hs Hbits. rewrite Forall_forall in *. intros b Hb. apply Hbits.
  by eapply elem_of_sublist.
Qed.

(** On cells numbered within 0..63, [IterateBitMasks] calls back on masks
    that are not nil, and on exactly the non-empty subsets of the cells. *)
Lemma IterateBitMasks_masks numaNodes :
  Forall (λ b, 0 <= b < 64) numaNodes →
  ∃ masks, mapM id (bitmask.IterateBitMasks numaNodes) = Some masks
           ∧ ∀ m, m ∈ masks ↔ subsetMask numaNodes m.
Proof.
  intros Hrange.
  assert (Hall : Forall (λ x : option Z, is_Some x) (bitmask.IterateBitMasks numaNodes)).
  { apply Forall_forall. intros x Hx.
    apply elem_of_IterateBitMasks in Hx as (s & Hs & _ & ->).
    destruct (NewBitMask_spec s (sublist_Forall_range _ _ Hs Hrange)) as (m & -> & _).
    by eexists. }
  assert (Hmasks : ∃ masks, bitmask.IterateBitMasks numaNodes = Some <$> masks).
  { induction Hall as [|x l [m ->] _ (masks & ->)]; [by exists []|]. by exists (m :: masks). }
  destruct Hmasks as (masks & Hmasks). exists masks. split.
  { rewrite Hmasks. apply mapM_Some. clear. induction masks; by constructor. }
  intros m.
  assert (Hin : m ∈ masks ↔ Some m ∈ bitmask.IterateBitMasks numaNodes).
  { rewrite Hmasks, list_elem_of_fmap. split; [by eexists|].
    by intros (m' & [= <-] & ?). }
  rewrite Hin, elem_of_IterateBitMasks. split.
  - intros (s & Hs & Hne & Hm).
    destruct (NewBitMask_spec s (sublist_Forall_range _ _ Hs Hrange)) as (m' & Hm' & Hbit).
    rewrite Hm' in Hm. injection Hm as ->. split.
    + destruct s as [|b s]; [done|]. intros ->.
      assert (Hb : Z.testbit 0 b = true) by (apply Hbit, elem_of_cons; by left).
      by rewrite Z.bits_0 in Hb.
    + intros i Hi. apply Hbit in Hi. by eapply elem_of_sublist.
  - intros [Hnz Hsub].
    exists (filter (λ b, Z.testbit m b = true) numaNodes).
    assert (Hs : filter (λ b, Z.testbit m b = true) numaNodes `sublist_of` numaNodes)
      by apply sublist_filter.
    destruct (NewBitMask_spec _ (sublist_Forall_range _ _ Hs Hrange)) as (m' & Hm' & Hbit).
    assert (m' = m) as ->.
    { apply Z.bits_inj'. intros i _.
      destruct (Z.testbit m i) eqn:Hb.
      - apply Hbit, list_elem_of_filter. split; [done | by apply Hsub].
      - destruct (Z.testbit m' i) eqn:Hb'; [|done].
        apply Hbit, list_elem_of_filter in Hb' as [Hb' _]. congruence. }
    split; [done|]. split; [|done].
    intros Hnil. apply Hnz. apply Z.bits_inj'. intros i _. rewrite Z.bits_0.
    destruct (Z.testbit m i) eqn:Hb; [|done].
    assert (Hi : i ∈ filter (λ b, Z.testbit m b = true) numaNodes)
      by (apply list_elem_of_filter; split; [done | by apply Hsub]).
    rewrite Hnil in Hi. by apply not_elem_of_nil in Hi.
Qed.

(** ** The hint generator *)

Lemma LessThanOrEqual_meetsRequest (a b : gmap string Z) :
  quotav1.LessThanOrEqual a b = true ↔ meetsRequest a b.
Proof.
  unfold quotav1.LessThanOrEqual, meetsRequest. rewrite bool_decide_eq_true. split.
  - intros H r q x Ha Hb. specialize (H r x Hb). simpl in H. rewrite Ha in H.
    by apply bool_decide_eq_true in H.
  - intros H r x Hb. simpl. destruct (a !! r) as [q|] eqn:Ha; [|done].
    apply bool_decide_eq_true. by eapply H.
Qed.

Lemma elem_of_keys (m : gmap string Z) r :
  r ∈ (map_to_list m).*1 ↔ is_Some (m !! r).
Proof.
  rewrite list_elem_of_fmap. split.
  - intros ([k q] & -> & Hin). apply elem_of_map_to_list in Hin. by eexists.
  - intros [q Hq]. exists (r, q). split; [done|]. by apply elem_of_map_to_list.
Qed.

Lemma fold_appendHint_lookup available mask (keys : list string) hints r :
  NoDup keys →
  fold_left (appendHint available mask) keys hints !! r
  = if decide (r ∈ keys)
    then match available !! r with
         | None => hints !! r
         | Some _ => Some (default [] (hints !! r) ++ [mkNUMATopologyHint (Some mask) false])
         end
    else hints !! r.
Proof.
  intros Hnd.
  assert (Heq : ∀ l h, fold_left (appendHint available mask) l h
                = fold_left (λ h k, partial_alter
                    ((λ k o, match available !! k with
                             | None => o
                             | Some _ => Some (default [] o
                                               ++ [mkNUMATopologyHint (Some mask) false])
                             end) k) k h) l h).
  { induction l as [|k l IH]; intros h; simpl; [done|]. rewrite <- IH. f_equal.
    unfold appendHint. apply map_eq; intros j. rewrite lookup_partial_alter.
    destruct (available !! k).
    - rewrite lookup_insert. by destruct (decide (k = j)).
    - destruct (decide (k = j)); by subst. }
  by rewrite Heq, fold_partial_alter_lookup.
Qed.

Lemma fold_markPreferred_lookup minSize (keys : list string) hints r :
  NoDup keys →
  fold_left (markPreferred minSize) keys hints !! r
  = if decide (r ∈ keys)
    then fmap (M := list)
           (λ h, mkNUMATopologyHint (NUMANodeAffinity h)
                   (bool_decide (Z.of_nat (length (hintBits h)) = minSize)))
           <$> hints !! r
    else hints !! r.
Proof.
  intros Hnd.
  assert (Heq : ∀ l h, fold_left (markPreferred minSize) l h
                = fold_left (λ h k, partial_alter
                    ((λ _ o, fmap (M := list)
                               (λ h, mkNUMATopologyHint (NUMANodeAffinity h)
                                  (bool_decide (Z.of_nat (length (hintBits h)) = minSize)))
                               <$> o) k) k h) l h).
  { induction l as [|k l IH]; intros h; simpl; [done|]. rewrite <- IH. f_equal.
    unfold markPreferred. apply map_eq; intros j. rewrite lookup_partial_alter.
    destruct (h !! k) eqn:Hk.
    - rewrite lookup_insert. by destruct (decide (k = j)).
    - destruct (decide (k = j)); by subst. }
  by rewrite Heq, fold_partial_alter_lookup.
Qed.

(** One call of the callback: the minimum follows a feasible mask, and the
    mask is appended for the requested resources its availability has. *)
Lemma hintCallback_spec podRequests totalAvailable minSize hints mask :
  (if quotav1.LessThanOrEqual podRequests (summedAvailability totalAvailable mask)
   then (hintCallback podRequests totalAvailable (minSize, hints) mask).1
        = Z.min (bitmask.Count mask) minSize
   else (hintCallback podRequests totalAvailable (minSize, hints) mask).1 = minSize)
  ∧ ∀ r h, h ∈ default [] ((hintCallback podRequests totalAvailable (minSize, hints) mask).2
                             !! r)
           ↔ h ∈ default [] (hints !! r)
             ∨ (quotav1.LessThanOrEqual podRequests
                  (summedAvailability totalAvailable mask) = true
                ∧ is_Some (podRequests !! r)
                ∧ is_Some (summedAvailability totalAvailable mask !! r)
                ∧ h = mkNUMATopologyHint (Some mask) false).
Proof.
  unfold hintCallback, summedAvailability.
  destruct (quotav1.LessThanOrEqual podRequests
              (availableOfMask totalAvailable (bitmask.GetBits mask))) eqn:Hle;
    cbn [negb fst snd].
  - split; [case_decide; lia|]. intros r h.
    rewrite fold_appendHint_lookup by apply NoDup_fst_map_to_list.
    destruct (decide (r ∈ (map_to_list podRequests).*1)) as [Hr|Hr];
      rewrite elem_of_keys in Hr.
    + destruct (availableOfMask totalAvailable (bitmask.GetBits mask) !! r) eqn:Ha; simpl.
      * rewrite elem_of_app, list_elem_of_singleton. split.
        -- intros [? | ->]; [by left|]. right. repeat split; eauto.
        -- intros [?|(_ & _ & _ & ->)]; [by left|by right].
      * split; [by left|]. intros [?|(_ & _ & [? ?] & _)]; done.
    + split; [by left|]. intros [?|(_ & ? & _)]; done.
  - split; [done|]. intros r h. split; [by left|]. intros [?|(? & _)]; done.
Qed.

Lemma fold_hintCallback podRequests totalAvailable masks minSize hints :
  (∀ r h, h ∈ default [] ((fold_left (hintCallback podRequests totalAvailable) masks
                             (minSize, hints)).2 !! r)
          ↔ h ∈ default [] (hints !! r)
            ∨ ∃ m, m ∈ masks
                   ∧ quotav1.LessThanOrEqual podRequests
                       (summedAvailability totalAvailable m) = true
                   ∧ is_Some (podRequests !! r)
                   ∧ is_Some (summedAvailability totalAvailable m !! r)
                   ∧ h = mkNUMATopologyHint (Some m) false)
  ∧ (fold_left (hintCallback podRequests totalAvailable) masks (minSize, hints)).1 <= minSize
  ∧ (∀ m, m ∈ masks →
          quotav1.LessThanOrEqual podRequests (summedAvailability totalAvailable m) = true →
          (fold_left (hintCallback podRequests totalAvailable) masks (minSize, hints)).1
          <= bitmask.Count m)
  ∧ ((fold_left (hintCallback podRequests totalAvailable) masks (minSize, hints)).1 = minSize
     ∨ ∃ m, m ∈ masks
            ∧ quotav1.LessThanOrEqual podRequests
                (summedAvailability totalAvailable m) = true
            ∧ (fold_left (hintCallback podRequests totalAvailable) masks (minSize, hints)).1
              = bitmask.Count m).
Proof.
  revert minSize hints. induction masks as [|m0 masks IH]; intros minSize hints.
  - simpl. split; [|split; [lia|split; [|by left]]].
    + intros r h. split; [by left|]. intros [?|(m & Hm & _)]; [done|].
      by apply not_elem_of_nil in Hm.
    + intros m Hm. by apply not_elem_of_nil in Hm.
  - cbn [fold_left].
    destruct (hintCallback_spec podRequests totalAvailable minSize hints m0) as [Hmin Hh].
    destruct (hintCallback podRequests totalAvailable (minSize, hints) m0)
      as [min1 hints1].
    cbn [fst snd] in Hmin, Hh.
    destruct (IH min1 hints1) as (IH1 & IH2 & IH3 & IH4).
    set (st := fold_left (hintCallback podRequests totalAvailable) masks (min1, hints1)) in *.
    clearbody st.
    assert (Hmin1 : min1 <= minSize).
    { destruct (quotav1.LessThanOrEqual _ _); lia. }
    split; [|split; [lia|split]].
    + intros r h. rewrite IH1, Hh. split.
      * intros [[?|(H1 & H2 & H3 & ->)]|(m & Hm & H)]; [by left| |].
        -- right. exists m0. split; [apply elem_of_cons; by left|done].
        -- right. exists m. split; [apply elem_of_cons; by right|done].
      * intros [?|(m & Hm & H1 & H2 & H3 & ->)]; [left; by left|].
        apply elem_of_cons in Hm as [->|Hm].
        -- left. right. done.
        -- right. by exists m.
    + intros m Hm Hle. apply elem_of_cons in Hm as [->|Hm].
      * rewrite Hle in Hmin. lia.
      * by apply IH3.
    + destruct IH4 as [Heq|(m & Hm & Hle & Heq)].
      * destruct (quotav1.LessThanOrEqual podRequests
                    (summedAvailability totalAvailable m0)) eqn:Hle.
        -- destruct (decide (bitmask.Count m0 <= minSize)).
           ++ right. exists m0. split; [apply elem_of_cons; by left|]. split; [done|lia].
           ++ left. lia.
        -- left. lia.
      * right. exists m. split; [apply elem_of_cons; by right|done].
Qed.

Lemma Count_le_cells numaNodes m :
  subsetMask numaNodes m → bitmask.Count m <= Z.of_nat (length numaNodes).
Proof.
  intros [_ Hsub]. rewrite Count_GetBits. apply inj_le, submseteq_length.
  apply NoDup_submseteq; [apply NoDup_GetBits|].
  intros i Hi. apply elem_of_GetBits in Hi as [_ Hi]. by apply Hsub.
Qed.

(** C3: on cells numbered within 0..63 the generator returns hints such
    that, for a resource r of the request, there is a hint with mask m for r
    exactly when m is a non-empty subset of the cells whose summed
    availability meets the request for every resource present in both and
    has r; a resource that is not requested has no hint.  The mask of a
    hint is such a mask, and the hint is preferred exactly when the
    bit-count of its mask is the least bit-count of all the masks whose
    summed availability meets the request. *)
Theorem generateResourceHints_spec (numaNodes : list Z) (podRequests : gmap string Z)
    (totalAvailable : gmap Z (gmap string Z)) :
  Forall (λ b, 0 <= b < 64) numaNodes →
  ∃ hints,
    generateResourceHints numaNodes podRequests totalAvailable = Some hints
    ∧ (∀ r m, is_Some (podRequests !! r) →
              (hasHint hints r m
               ↔ feasibleMask numaNodes podRequests totalAvailable m
                 ∧ is_Some (summedAvailability totalAvailable m !! r)))
    ∧ (∀ r m, podRequests !! r = None → ¬ hasHint hints r m)
    ∧ (∀ r h, h ∈ default [] (hints !! r) →
              ∃ m, NUMANodeAffinity h = Some m
                   ∧ feasibleMask numaNodes podRequests totalAvailable m
                   ∧ (Preferred h = true
                      ↔ ∀ m', feasibleMask numaNodes podRequests totalAvailable m' →
                              bitmask.Count m <= bitmask.Count m')).
Proof.
  intros Hrange. unfold generateResourceHints.
  destruct (IterateBitMasks_masks numaNodes Hrange) as (masks & -> & Hmasks).
  cbn [mbind option_bind].
  destruct (fold_hintCallback podRequests totalAvailable masks
              (Z.of_nat (length numaNodes)) ∅) as (Hh & _ & Hle & Hmin).
  destruct (fold_left (hintCallback podRequests totalAvailable) masks
              (Z.of_nat (length numaNodes), ∅)) as [minSize hints].
  cbn [fst snd] in Hh, Hle, Hmin.
  eexists. split; [done|].
  assert (Hfeas : ∀ m, feasibleMask numaNodes podRequests totalAvailable m
                       ↔ m ∈ masks
                         ∧ quotav1.LessThanOrEqual podRequests
                             (summedAvailability totalAvailable m) = true).
  { intros m. unfold feasibleMask. by rewrite Hmasks, LessThanOrEqual_meetsRequest. }
  assert (Hfinal : ∀ r h,
             h ∈ default [] (fold_left (markPreferred minSize)
                               (map_to_list podRequests).*1 hints !! r)
             ↔ ∃ m, is_Some (podRequests !! r)
                    ∧ feasibleMask numaNodes podRequests totalAvailable m
                    ∧ is_Some (summedAvailability totalAvailable m !! r)
                    ∧ h = mkNUMATopologyHint (Some m)
                            (bool_decide (bitmask.Count m = minSize))).
  { intros r h. rewrite fold_markPreferred_lookup by apply NoDup_fst_map_to_list.
    destruct (decide (r ∈ (map_to_list podRequests).*1)) as [Hr|Hr];
      rewrite elem_of_keys in Hr.
    - assert (Hlist : default [] (fmap (M := list)
                 (λ h, mkNUMATopologyHint (NUMANodeAffinity h)
                         (bool_decide (Z.of_nat (length (hintBits h)) = minSize)))
                 <$> hints !! r)
               = (λ h, mkNUMATopologyHint (NUMANodeAffinity h)
                         (bool_decide (Z.of_nat (length (hintBits h)) = minSize)))
                   <$> default [] (hints !! r)) by (by destruct (hints !! r)).
      rewrite Hlist, list_elem_of_fmap. split.
      + intros (h0 & -> & Hh0). apply Hh in Hh0 as [Hh0|(m & Hm & Hl & _ & Hp & ->)].
        { rewrite lookup_empty in Hh0. by apply not_elem_of_nil in Hh0. }
        exists m. split; [done|]. split; [by apply Hfeas|]. split; [done|].
        unfold hintBits. simpl. by rewrite <- Count_GetBits.
      + intros (m & _ & Hm & Hp & ->). apply Hfeas in Hm as [Hm Hl].
        exists (mkNUMATopologyHint (Some m) false). split.
        * unfold hintBits. simpl. by rewrite <- Count_GetBits.
        * apply Hh. right. by exists m.
    - split.
      + intros Hin. apply Hh in Hin as [Hin|(m & _ & _ & ? & _)]; [|done].
        rewrite lookup_empty in Hin. by apply not_elem_of_nil in Hin.
      + by intros (m & ? & _). }
  split; [|split].
  - intros r m Hr. unfold hasHint. split.
    + intros (p & Hp). apply Hfinal in Hp as (m' & _ & Hm & Ha & Heq).
      injection Heq as -> _. done.
    + intros (Hm & Ha). eexists. apply Hfinal. by exists m.
  - intros r m Hr (p & Hp). apply Hfinal in Hp as (m' & Hr' & _).
    rewrite Hr in Hr'. by destruct Hr'.
  - intros r h Hin. apply Hfinal in Hin as (m & Hr & Hm & Ha & ->).
    exists m. split; [done|]. split; [done|]. simpl. rewrite bool_decide_eq_true.
    split.
    + intros Heq m' Hm'. rewrite Heq. apply Hfeas in Hm' as [? ?]. by apply Hle.
    + intros Hleast.
      assert (minSize <= bitmask.Count m) by (apply Hfeas in Hm as [? ?]; by apply Hle).
      destruct Hmin as [->|(m' & Hm' & Hl' & ->)].
      * destruct Hm as [Hsub _]. pose proof (Count_le_cells _ _ Hsub). lia.
      * assert (bitmask.Count m <= bitmask.Count m') by (apply Hleast, Hfeas; done). lia.
Qed.

Lemma generateResourceHints_spec_witness :
  ∃ hints,
    generateResourceHints [0; 1] {["cpu" := 2000]} sampleCells = Some hints
    ∧ (∀ r m, is_Some (({["cpu" := 2000]} : gmap string Z) !! r) →
              (hasHint hints r m
               ↔ feasibleMask [0; 1] {["cpu" := 2000]} sampleCells m
                 ∧ is_Some (summedAvailability sampleCells m !! r)))
    ∧ (∀ r m, ({["cpu" := 2000]} : gmap string Z) !! r = None → ¬ hasHint hints r m)
    ∧ (∀ r h, h ∈ default [] (hints !! r) →
              ∃ m, NUMANodeAffinity h = Some m
                   ∧ feasibleMask [0; 1] {["cpu" := 2000]} sampleCells m
                   ∧ (Preferred h = true
                      ↔ ∀ m', feasibleMask [0; 1] {["cpu" := 2000]} sampleCells m' →
                              bitmask.Count m <= bitmask.Count m')).
Proof.
  apply (generateResourceHints_spec [0; 1] {["cpu" := 2000]} sampleCells).
  repeat constructor; lia.
Defined.

(** Two cells and a request one cell can hold: each cell alone is a
    preferred hint, both together a hint that is not preferred.  A request
    only both cells together can hold has the one hint, which is then
    preferred; a request they cannot hold has no hint; a requested resource
    no cell has gets no hint; a cell numbered 64 makes the generator panic. *)
Example generateResourceHints_examples :
  generateResourceHints [0; 1] {["cpu" := 2000]} sampleCells
  = Some {["cpu" := [mkNUMATopologyHint (Some 1) true;
                     mkNUMATopologyHint (Some 2) true;
                     mkNUMATopologyHint (Some 3) false]]}
  ∧ generateResourceHints [0; 1] {["cpu" := 6000]} sampleCells
    = Some {["cpu" := [mkNUMATopologyHint (Some 3) true]]}
  ∧ generateResourceHints [0; 1] {["cpu" := 9000]} sampleCells = Some ∅
  ∧ generateResourceHints [0; 1] {["example.com/gpu" := 1]} sampleCells = Some ∅
  ∧ generateResourceHints [0; 64] {["cpu" := 2000]} sampleCells = None.
Proof. repeat split; vm_compute; reflexivity. Qed.

(** The same for the manager: Update twice with a pod allocation is Update
    once, on a node whose ledger satisfies the data-model invariants. *)
Lemma Update_idempotent c name a :
  validLedger (ledgerOf c name) → validAllocation a →
  (∀ t, toCPUTopology (GetTopologyOptions c name) = Some t → topologyInts t) →
  Update (Update c name a) name a = Update c name a.
Proof.
  intros Hn Ha Ht. unfold Update at 2 3.
  destruct (toCPUTopology (GetTopologyOptions c name)) as [t|] eqn:Htopo;
    [|unfold Update; by rewrite Htopo].
  destruct (IsValid t) eqn:Hvalid; simpl; [|unfold Update; by rewrite Htopo, Hvalid].
  unfold ledgerOf, GetNodeAllocation in Hn.
  destruct (getOrCreateNodeAllocation c name) as [na c1] eqn:Hget. simpl in Hn.
  assert (Hc1 : GetTopologyOptions c1 = GetTopologyOptions c).
  { pose proof (getOrCreateNodeAllocation_same c name) as (_ & H & _).
    by rewrite Hget in H. }
  unfold Update, setNodeAllocations, getOrCreateNodeAllocation. simpl.
  rewrite Hc1, Htopo, Hvalid. simpl. rewrite lookup_insert_eq. simpl.
  rewrite insert_insert_eq, update_idempotent_ledger; [done|done|done|by apply Ht].
Qed.

(** ** The ledgers that update and release build satisfy the invariants *)

Lemma applyOp_size n o :
  (size (allocatedPods (applyOp n o)) ≤ S (size (allocatedPods n)))%nat.
Proof.
  destruct o as [a t|u]; simpl.
  - unfold update. pose proof (release_size n (UID a)).
    pose proof (addPodAllocation_size (release n (UID a)) a t). lia.
  - pose proof (release_size n u). lia.
Qed.

Lemma runOps_size ops n :
  (size (allocatedPods (runOps ops n)) ≤ size (allocatedPods n) + length ops)%nat.
Proof.
  revert n. induction ops as [|o ops IH]; intros n; simpl; [lia|].
  pose proof (IH (applyOp n o)). pose proof (applyOp_size n o).
  unfold runOps in *. lia.
Qed.

Lemma addPodAllocation_nonneg n a t :
  (∀ k x, allocatedResources n !! k = Some x → nonnegResources (Resources x)) →
  validAllocation a →
  ∀ k x, allocatedResources (addPodAllocation n a t) !! k = Some x →
         nonnegResources (Resources x).
Proof.
  intros Hn Ha k x. unfold addPodAllocation.
  destruct (allocatedPods n !! UID a); [apply Hn|]. simpl.
  pose proof (entriesFor_nonneg a k Ha) as Hbs.
  destruct (allocatedResources n !! k) as [y|] eqn:Hk.
  - rewrite (addNUMAs_lookup_Some _ _ _ _ y Hk). intros [= <-]. cbn [Resources].
    apply nonneg_sumAdd; [done | by eapply Hn].
  - rewrite addNUMAs_lookup_None by done.
    destruct (entriesFor k (NUMANodeResources a)) as [|b bs]; [done|].
    intros [= <-]. change (nonnegResources (sumAdd ∅ (b :: bs))).
    apply nonneg_sumAdd; [done|]. intros ? ?. by rewrite lookup_empty.
Qed.

Lemma release_nonneg n u :
  (∀ k x, allocatedResources n !! k = Some x → nonnegResources (Resources x)) →
  ∀ k x, allocatedResources (release n u) !! k = Some x → nonnegResources (Resources x).
Proof.
  intros Hn k x. unfold release.
  destruct (allocatedPods n !! u); [|apply Hn]. simpl.
  rewrite releaseNUMAs_lookup.
  destruct (allocatedResources n !! k) as [y|] eqn:Hk; simpl; [|done].
  intros [= <-]. cbn [Resources]. apply nonneg_sumSub. by eapply Hn.
Qed.

Lemma runOps_nonneg ops n :
  (∀ k x, allocatedResources n !! k = Some x → nonnegResources (Resources x)) →
  Forall opValid ops →
  ∀ k x, allocatedResources (runOps ops n) !! k = Some x → nonnegResources (Resources x).
Proof.
  revert n. induction ops as [|o ops IH]; intros n Hn Hops; [done|].
  apply Forall_cons in Hops as [Ho Hops]. simpl. apply IH; [|done].
  destruct o as [a t|u]; simpl in *.
  - unfold update. apply addPodAllocation_nonneg; [|done]. by apply release_nonneg.
  - by apply release_nonneg.
Qed.

(** Every ledger that update and release build from a new one, with
    topologies that carry no references and pod allocations without negative
    quantities, satisfies the data-model invariants. *)
Lemma runOps_validLedger name ops :
  Forall opUnreferenced ops → Forall opValid ops →
  Z.of_nat (length ops) < int_half →
  validLedger (runOps ops (NewNodeAllocation name)).
Proof.
  intros Hu Hv Hlen. split.
  - intros c i Hc.
    pose proof (runOps_refCountsExact ops (NewNodeAllocation name)
                  (NewNodeAllocation_refCountsExact name) Hu) as Hinv.
    simpl in Hinv. rewrite map_size_empty in Hinv.
    specialize (Hinv ltac:(lia) c). rewrite Hc in Hinv. destruct Hinv as [Hrc Hnz].
    pose proof (podsUsing_le_size c (allocatedPods (runOps ops (NewNodeAllocation name)))).
    pose proof (runOps_size ops (NewNodeAllocation name)) as Hsz.
    simpl in Hsz. rewrite map_size_empty in Hsz. lia.
  - apply runOps_nonneg; [|done]. intros k x. simpl. by rewrite lookup_empty.
Qed.

(** * Further properties of the ledger *)

Lemma update_pods n a t :
  allocatedPods (update n a t) = <[UID a := a]> (allocatedPods n).
Proof.
  unfold update, addPodAllocation. rewrite release_absent. simpl.
  unfold release. destruct (allocatedPods n !! UID a); simpl; [|done].
  apply insert_delete_eq.
Qed.

Lemma release_pods n u :
  allocatedPods (release n u) = delete u (allocatedPods n).
Proof.
  unfold release. destruct (allocatedPods n !! u) eqn:Hu; simpl; [done|].
  by rewrite delete_id.
Qed.

(** X1: what update records is what getCPUs finds: after update the pod's
    CPU set is found, after release of the pod nothing is found. *)
Theorem getCPUs_after_update_release (n : NodeAllocation) (a : PodAllocation)
    (t : CPUTopology) (u : string) :
  getCPUs (update n a t) (UID a) = (paCPUSet a, true)
  ∧ getCPUs (release n u) u = (∅, false)
  ∧ getCPUs (release (update n a t) (UID a)) (UID a) = (∅, false).
Proof.
  unfold getCPUs. rewrite !release_pods, update_pods.
  by rewrite lookup_insert_eq, !lookup_delete_eq.
Qed.

(** X2: update and release of a pod leave what getCPUs finds for every
    other pod. *)
Theorem getCPUs_other_pod (n : NodeAllocation) (a : PodAllocation) (t : CPUTopology)
    (u : string) :
  u ≠ UID a →
  getCPUs (update n a t) u = getCPUs n u
  ∧ getCPUs (release n (UID a)) u = getCPUs n u.
Proof.
  intros Hu. unfold getCPUs. rewrite release_pods, update_pods.
  by rewrite lookup_insert_ne, lookup_delete_ne.
Qed.

Lemma getCPUs_other_pod_witness :
  getCPUs (update sampleNode samplePod2 sampleTopology) "pod-1" = getCPUs sampleNode "pod-1"
  ∧ getCPUs (release sampleNode (UID samplePod2)) "pod-1" = getCPUs sampleNode "pod-1".
Proof.
  apply (getCPUs_other_pod sampleNode samplePod2 sampleTopology "pod-1").
  intros H. discriminate H.
Defined.

(** X3: releasing a pod twice is releasing it once. *)
Theorem release_idempotent (n : NodeAllocation) (u : string) :
  release (release n u) u = release n u.
Proof.
  unfold release at 1. by rewrite release_absent.
Qed.

(** X4: addCPUs of CPUs that the ledger does not record, for a pod it does
    not record, followed by release of the pod gives back the ledger
    exactly. *)
Theorem addCPUs_release (n : NodeAllocation) (t : CPUTopology) (u : string)
    (cpus : gset Z) (policy : string) :
  allocatedPods n !! u = None →
  (∀ c, c ∈ cpus → allocatedCPUs n !! c = None) →
  topologyUnreferenced t →
  release (addCPUs n t u cpus policy) u = n.
Proof.
  intros Hu Hfree Ht. unfold addCPUs, addPodAllocation. simpl. rewrite Hu.
  unfold release. simpl. rewrite lookup_insert_eq. simpl.
  destruct n as [name pods cpus0 res]. simpl in *. f_equal.
  - by apply delete_insert_id.
  - apply map_eq; intros c.
    rewrite fold_releaseCPU_lookup, fold_addCPU_lookup.
    destruct (decide (c ∈ cpus)) as [Hc|Hc]; [|done].
    rewrite releaseEntry_addEntry by (try done; by rewrite (Hfree c Hc)).
    by rewrite (Hfree c Hc).
Qed.

Lemma addCPUs_release_witness :
  release (addCPUs sampleNode sampleTopology "pod-3" {[2; 3]} "") "pod-3" = sampleNode.
Proof.
  apply (addCPUs_release sampleNode sampleTopology "pod-3" {[2; 3]} "").
  - vm_compute. reflexivity.
  - intros c Hc. apply elem_of_union in Hc as [Hc|Hc];
      apply elem_of_singleton in Hc as ->; vm_compute; reflexivity.
  - exact sampleTopology_unreferenced.
Defined.

(** X5: every ledger that update and release build from a new one, with
    topologies that carry no references and pod allocations without negative
    quantities, satisfies the data-model invariants: a recorded reference
    count is positive and fits an int, and no recorded quantity is
    negative. *)
Theorem ledger_invariants_established (name : string) (ops : list LedgerOp) :
  Forall opUnreferenced ops → Forall opValid ops →
  Z.of_nat (length ops) < int_half →
  validLedger (runOps ops (NewNodeAllocation name)).
Proof. apply runOps_validLedger. Qed.

Lemma ledger_invariants_established_witness :
  validLedger (runOps [OpUpdate samplePod sampleTopology; OpRelease "pod-2";
                       OpUpdate samplePod2 sampleTopology]
                 (NewNodeAllocation "node-1")).
Proof.
  apply (ledger_invariants_established "node-1"
           [OpUpdate samplePod sampleTopology; OpRelease "pod-2";
            OpUpdate samplePod2 sampleTopology]).
  - repeat constructor; exact sampleTopology_unreferenced.
  - repeat constructor; [exact samplePod_valid|].
    intros x Hx. by apply not_elem_of_nil in Hx.
  - unfold int_half. simpl. lia.
Defined.

Lemma addNUMAs_lookup_other l res idx k :
  entriesFor k l = [] → addNUMAs res idx l !! k = res !! k.
Proof.
  intros Hl. destruct (res !! k) as [r|] eqn:Hk.
  - rewrite (addNUMAs_lookup_Some _ _ _ _ r Hk), Hl. by destruct r.
  - by rewrite addNUMAs_lookup_None, Hl.
Qed.

Lemma releaseNUMAs_lookup_other l res k :
  entriesFor k l = [] → fold_left releaseNUMA l res !! k = res !! k.
Proof.
  intros Hl. rewrite releaseNUMAs_lookup, Hl.
  destruct (res !! k) as [[]|]; done.
Qed.

Lemma entriesFor_nil k l :
  (∀ x, x ∈ l → Node x ≠ k) → entriesFor k l = [].
Proof.
  intros H. unfold entriesFor.
  induction l as [|x l IH]; [done|]. rewrite filter_cons.
  destruct (decide (Node x = k)) as [Hx|Hx].
  - exfalso. apply (H x); [apply elem_of_cons; by left|done].
  - apply IH. intros y Hy. apply H, elem_of_cons. by right.
Qed.

(** X6: update changes the ledger only at the CPUs and the NUMA nodes of the
    allocation it records and of the allocation it replaces: every other
    CPU entry and NUMA entry is as before. *)
Theorem update_frame (n : NodeAllocation) (a : PodAllocation) (t : CPUTopology)
    (c k : Z) :
  c ∉ paCPUSet a →
  (∀ x, x ∈ NUMANodeResources a → Node x ≠ k) →
  (∀ old, allocatedPods n !! UID a = Some old →
          (c ∉ paCPUSet old) ∧ (∀ x, x ∈ NUMANodeResources old → Node x ≠ k)) →
  allocatedCPUs (update n a t) !! c = allocatedCPUs n !! c
  ∧ allocatedResources (update n a t) !! k = allocatedResources n !! k.
Proof.
  intros Hc Hk Hold. unfold update, addPodAllocation. rewrite release_absent. simpl.
  rewrite fold_addCPU_lookup, decide_False by done.
  rewrite addNUMAs_lookup_other by (apply entriesFor_nil; done).
  unfold release. destruct (allocatedPods n !! UID a) as [old|] eqn:Hu; simpl; [|done].
  destruct (Hold old eq_refl) as [Hc' Hk'].
  rewrite fold_releaseCPU_lookup, decide_False by done.
  rewrite releaseNUMAs_lookup_other by (apply entriesFor_nil; done). done.
Qed.

Lemma update_frame_witness :
  allocatedCPUs (update sampleNode samplePod2 sampleTopology) !! 0
  = allocatedCPUs sampleNode !! 0
  ∧ allocatedResources (update sampleNode samplePod2 sampleTopology) !! 0
    = allocatedResources sampleNode !! 0.
Proof.
  apply (update_frame sampleNode samplePod2 sampleTopology 0 0).
  - vm_compute. intros H. discriminate H.
  - intros x Hx. by apply not_elem_of_nil in Hx.
  - intros old Hold. vm_compute in Hold. discriminate Hold.
Defined.

(** * Further properties of the availability queries *)

Lemma elem_of_getAvailableCPUs n t maxRefCount reserved preferred c :
  c ∈ (getAvailableCPUs n t maxRefCount reserved preferred).1
  ↔ c ∈ CPUs (topoCPUDetails t)
    ∧ (c ∉ reserved)
    ∧ (∀ i, (if decide (c ∈ preferred) then releaseEntry (allocatedCPUs n !! c)
             else allocatedCPUs n !! c) = Some i → RefCount i < maxRefCount).
Proof.
  unfold getAvailableCPUs. cbn [fst].
  set (info := if decide (preferred = ∅) then allocatedCPUs n
               else fold_left unreferPreferred (elements preferred) (allocatedCPUs n)).
  assert (Hinfo : info !! c = if decide (c ∈ preferred)
                              then releaseEntry (allocatedCPUs n !! c)
                              else allocatedCPUs n !! c).
  { unfold info. destruct (decide (preferred = ∅)) as [->|Hne].
    - rewrite decide_False; [done | apply not_elem_of_empty].
    - apply fold_unreferPreferred_lookup. }
  rewrite <- Hinfo. clearbody info.
  rewrite !elem_of_difference, elem_of_filter. unfold CPUs at 2. rewrite elem_of_dom.
  destruct (info !! c) as [i|]; simpl.
  - split.
    + intros [[Ht Hna] Hr]. repeat split; [done|done|]. intros j [= <-].
      destruct (decide (RefCount i < maxRefCount)); [done|].
      exfalso. apply Hna. split; [lia|by eexists].
    + intros (Ht & Hr & Hlt). repeat split; [done| |done].
      intros [Hle _]. specialize (Hlt i eq_refl). lia.
  - split.
    + intros [[Ht Hna] Hr]. repeat split; done.
    + intros (Ht & Hr & _). repeat split; [done| |done]. by intros [_ [? ?]].
Qed.

(** X7: preferring CPUs never takes a CPU away: on a ledger whose reference
    counts are positive, every CPU that is available without preferred CPUs
    is available with any preferred CPUs. *)
Theorem getAvailableCPUs_preferred_mono (n : NodeAllocation) (t : CPUTopology)
    (maxRefCount : Z) (reserved preferred : gset Z) :
  validLedger n →
  (getAvailableCPUs n t maxRefCount reserved ∅).1
  ⊆ (getAvailableCPUs n t maxRefCount reserved preferred).1.
Proof.
  intros [Hcpus _] c. rewrite !elem_of_getAvailableCPUs.
  intros (Ht & Hr & Hlt). repeat split; [done|done|].
  rewrite decide_False in Hlt by apply not_elem_of_empty.
  intros i. destruct (decide (c ∈ preferred)); [|apply Hlt].
  destruct (allocatedCPUs n !! c) as [j|] eqn:Hc; simpl; [|done].
  destruct (Hcpus c j Hc) as [H1 H2].
  rewrite wrap_int_id by (unfold int_range, int_half in *; lia).
  case_decide; [done|]. intros [= <-]. simpl.
  specialize (Hlt j eq_refl). lia.
Qed.

Lemma getAvailableCPUs_preferred_mono_witness :
  (getAvailableCPUs sampleNode sampleTopology 1 ∅ ∅).1
  ⊆ (getAvailableCPUs sampleNode sampleTopology 1 ∅ {[0; 1]}).1.
Proof.
  apply (getAvailableCPUs_preferred_mono sampleNode sampleTopology 1 ∅ {[0; 1]}).
  apply (runOps_validLedger "node-1" [OpUpdate samplePod sampleTopology]).
  - repeat constructor. exact sampleTopology_unreferenced.
  - repeat constructor. exact samplePod_valid.
  - unfold int_half. simpl. lia.
Defined.

(** X8: a CPU that one pod holds alone is not available to others when the
    maximal reference count is at most 1, and is available to a caller that
    prefers it (the pod itself), provided the topology has the CPU and it is
    not reserved. *)
Theorem getAvailableCPUs_own_cpu (n : NodeAllocation) (t : CPUTopology)
    (maxRefCount : Z) (reserved : gset Z) (c : Z) (i : CPUInfo) :
  allocatedCPUs n !! c = Some i → RefCount i = 1 →
  c ∈ CPUs (topoCPUDetails t) → c ∉ reserved → maxRefCount <= 1 →
  (c ∉ (getAvailableCPUs n t maxRefCount reserved ∅).1)
  ∧ (∀ preferred, c ∈ preferred →
                  c ∈ (getAvailableCPUs n t maxRefCount reserved preferred).1).
Proof.
  intros Hc Hrc Ht Hr Hmax. split.
  - rewrite elem_of_getAvailableCPUs. intros (_ & _ & Hlt).
    rewrite decide_False in Hlt by apply not_elem_of_empty.
    specialize (Hlt i Hc). lia.
  - intros preferred Hp. apply elem_of_getAvailableCPUs. repeat split; [done|done|].
    rewrite decide_True, Hc by done. simpl. rewrite Hrc.
    rewrite decide_True by reflexivity. done.
Qed.

Lemma getAvailableCPUs_own_cpu_witness :
  (0 ∉ (getAvailableCPUs sampleNode sampleTopology 1 ∅ ∅).1)
  ∧ (∀ preferred, 0 ∈ preferred →
                  0 ∈ (getAvailableCPUs sampleNode sampleTopology 1 ∅ preferred).1).
Proof.
  apply (getAvailableCPUs_own_cpu sampleNode sampleTopology 1 ∅ 0
           (mkCPUInfo 0 0 0 0 0 1 "PCPULevel")).
  - vm_compute. reflexivity.
  - reflexivity.
  - vm_compute. reflexivity.
  - apply not_elem_of_empty.
  - lia.
Defined.

Lemma fold_availableOfNode n l acc k :
  (k ∉ Node <$> l →
   (fold_left (availableOfNode n) l acc).1 !! k = acc.1 !! k
   ∧ (fold_left (availableOfNode n) l acc).2 !! k = acc.2 !! k)
  ∧ (k ∈ Node <$> l →
     (∃ x, x ∈ l ∧ Node x = k
           ∧ (fold_left (availableOfNode n) l acc).1 !! k
             = Some (quotav1.SubtractWithNonNegativeResult (Resources x)
                       (default ∅ (Resources <$> allocatedResources n !! k))))
     ∧ (fold_left (availableOfNode n) l acc).2 !! k
       = match allocatedResources n !! k with
         | Some r => Some (Resources r)
         | None => acc.2 !! k
         end).
Proof.
  revert acc. induction l as [|x l IH]; intros acc.
  - split; [done|]. intros Hin. by apply not_elem_of_nil in Hin.
  - cbn [fold_left]. destruct (IH (availableOfNode n acc x)) as [IHout IHin].
    assert (Hstep2 : (availableOfNode n acc x).2 !! k
                     = if decide (Node x = k)
                       then match allocatedResources n !! k with
                            | Some r => Some (Resources r)
                            | None => acc.2 !! k
                            end
                       else acc.2 !! k).
    { unfold availableOfNode. destruct acc as [av al].
      destruct (decide (Node x = k)) as [<-|Hne].
      - destruct (allocatedResources n !! Node x); simpl;
          [by rewrite lookup_insert_eq | done].
      - destruct (allocatedResources n !! Node x); simpl;
          [by rewrite lookup_insert_ne | done]. }
    rewrite fmap_cons, not_elem_of_cons, elem_of_cons. split.
    + intros [Hne Hout]. destruct (IHout Hout) as [-> ->].
      rewrite availableOfNode_lookup, Hstep2. by rewrite !decide_False by done.
    + intros Hin. destruct (decide (k ∈ Node <$> l)) as [Hl|Hl].
      * destruct (IHin Hl) as [(y & Hy & Hk & Heq) Hal]. split.
        -- exists y. split; [apply elem_of_cons; by right|done].
        -- rewrite Hal, Hstep2. destruct (allocatedResources n !! k); [done|].
           by destruct (decide (Node x = k)).
      * destruct Hin as [->|Hin]; [|done]. destruct (IHout Hl) as [-> ->]. split.
        -- exists x. split; [apply elem_of_cons; by left|]. split; [done|].
           by rewrite availableOfNode_lookup, decide_True.
        -- rewrite Hstep2, decide_True by done. done.
Qed.

(** X9: getAvailableNUMANodeResources has an entry for exactly the NUMA nodes
    the topology options list; on a ledger without negative quantities every
    available quantity is between zero and the capacity of the node, and the
    allocated resources it returns are those the ledger records for the
    listed nodes. *)
Theorem getAvailableNUMANodeResources_bounds (n : NodeAllocation)
    (topts : TopologyOptions) (k : Z) :
  validLedger n →
  (is_Some ((getAvailableNUMANodeResources n topts).1 !! k)
   ↔ k ∈ Node <$> toNUMANodeResources topts)
  ∧ (∀ R, (getAvailableNUMANodeResources n topts).1 !! k = Some R →
          ∃ x, x ∈ toNUMANodeResources topts ∧ Node x = k
               ∧ ∀ r, 0 <= qty R r <= Z.max 0 (qty (Resources x) r))
  ∧ (getAvailableNUMANodeResources n topts).2 !! k
    = if decide (k ∈ Node <$> toNUMANodeResources topts)
      then Resources <$> allocatedResources n !! k
      else None.
Proof.
  intros [_ Hres]. unfold getAvailableNUMANodeResources.
  destruct (fold_availableOfNode n (toNUMANodeResources topts) (∅, ∅) k) as [Hout Hin].
  destruct (decide (k ∈ Node <$> toNUMANodeResources topts)) as [Hk|Hk].
  - destruct (Hin Hk) as [(x & Hx & Hxk & Heq) Hal]. split; [|split].
    + rewrite Heq. split; [done | by eexists].
    + intros R HR. rewrite Heq in HR. injection HR as <-.
      exists x. split; [done|]. split; [done|]. intros r.
      assert (Hb : nonnegResources (default ∅ (Resources <$> allocatedResources n !! k))).
      { destruct (allocatedResources n !! k) as [y|] eqn:Hy; simpl; [by eapply Hres|].
        intros ? ?. by rewrite lookup_empty. }
      rewrite qty_Sub by done. pose proof (nonneg_qty _ r Hb). lia.
    + rewrite Hal. simpl. rewrite lookup_empty. by destruct (allocatedResources n !! k).
  - destruct (Hout Hk) as [Hav Hal]. simpl in Hav, Hal.
    rewrite lookup_empty in Hav, Hal. split; [|split].
    + rewrite Hav. split; [by intros [? ?] | done].
    + intros R HR. by rewrite Hav in HR.
    + done.
Qed.

Lemma getAvailableNUMANodeResources_bounds_witness :
  (is_Some ((getAvailableNUMANodeResources sampleNode sampleOptions).1 !! 0)
   ↔ 0 ∈ Node <$> toNUMANodeResources sampleOptions)
  ∧ (∀ R, (getAvailableNUMANodeResources sampleNode sampleOptions).1 !! 0 = Some R →
          ∃ x, x ∈ toNUMANodeResources sampleOptions ∧ Node x = 0
               ∧ ∀ r, 0 <= qty R r <= Z.max 0 (qty (Resources x) r))
  ∧ (getAvailableNUMANodeResources sampleNode sampleOptions).2 !! 0
    = if decide (0 ∈ Node <$> toNUMANodeResources sampleOptions)
      then Resources <$> allocatedResources sampleNode !! 0
      else None.
Proof.
  apply (getAvailableNUMANodeResources_bounds sampleNode sampleOptions 0).
  apply (runOps_validLedger "node-1" [OpUpdate samplePod sampleTopology]).
  - repeat constructor. exact sampleTopology_unreferenced.
  - repeat constructor. exact samplePod_valid.
  - unfold int_half. simpl. lia.
Defined.

(** * Further properties of the manager *)

Lemma ledgerOf_lookup c name :
  ledgerOf c name = default (NewNodeAllocation name) (nodeAllocations c !! name).
Proof.
  unfold ledgerOf, GetNodeAllocation, getOrCreateNodeAllocation.
  by destruct (nodeAllocations c !! name).
Qed.

Lemma getOrCreateNodeAllocation_fst c name :
  (getOrCreateNodeAllocation c name).1 = ledgerOf c name.
Proof. reflexivity. Qed.

Lemma ledgerOf_write c name name' na :
  ledgerOf (setNodeAllocations (getOrCreateNodeAllocation c name).2
              (<[name := na]> (nodeAllocations (getOrCreateNodeAllocation c name).2)))
           name'
  = if decide (name = name') then na else ledgerOf c name'.
Proof.
  rewrite !ledgerOf_lookup. unfold setNodeAllocations. simpl. rewrite lookup_insert.
  destruct (decide (name = name')) as [<-|Hne]; [done|].
  pose proof (getOrCreateNodeAllocation_same c name) as (_ & _ & Hl).
  specialize (Hl name'). by rewrite !ledgerOf_lookup in Hl.
Qed.

Lemma ledgerOf_Update c name a t name' :
  toCPUTopology (GetTopologyOptions c name) = Some t → IsValid t = true →
  ledgerOf (Update c name a) name'
  = if decide (name = name') then update (ledgerOf c name) a t else ledgerOf c name'.
Proof.
  intros Ht Hv. unfold Update. rewrite Ht, Hv. simpl.
  pose proof (ledgerOf_write c name name' (update (ledgerOf c name) a t)) as H.
  pose proof (getOrCreateNodeAllocation_fst c name) as Hfst.
  destruct (getOrCreateNodeAllocation c name) as [na c1]. simpl in *.
  by rewrite Hfst.
Qed.

Lemma ledgerOf_Release c name u name' :
  ledgerOf (Release c name u) name'
  = if decide (name = name') then release (ledgerOf c name) u else ledgerOf c name'.
Proof.
  unfold Release.
  pose proof (ledgerOf_write c name name' (release (ledgerOf c name) u)) as H.
  pose proof (getOrCreateNodeAllocation_fst c name) as Hfst.
  destruct (getOrCreateNodeAllocation c name) as [na c1]. simpl in *.
  by rewrite Hfst.
Qed.

(** X10: on a node with a valid CPU topology, Update is the update of the
    ledger of that node with that topology, and the ledger of every other
    node is as before. *)
Theorem Update_writes_through (c : resourceManager) (name : string) (a : PodAllocation)
    (t : CPUTopology) :
  toCPUTopology (GetTopologyOptions c name) = Some t → IsValid t = true →
  ledgerOf (Update c name a) name = update (ledgerOf c name) a t
  ∧ ∀ name', name' ≠ name → ledgerOf (Update c name a) name' = ledgerOf c name'.
Proof.
  intros Ht Hv. split.
  - by rewrite (ledgerOf_Update c name a t name Ht Hv), decide_True.
  - intros name' Hne. by rewrite (ledgerOf_Update c name a t name' Ht Hv), decide_False.
Qed.

(** X11: Release is the release of the pod in the ledger of the node, and the
    ledger of every other node is as before. *)
Theorem Release_writes_through (c : resourceManager) (name u : string) :
  ledgerOf (Release c name u) name = release (ledgerOf c name) u
  ∧ ∀ name', name' ≠ name → ledgerOf (Release c name u) name' = ledgerOf c name'.
Proof.
  split.
  - by rewrite ledgerOf_Release, decide_True.
  - intros name' Hne. by rewrite ledgerOf_Release, decide_False.
Qed.

Lemma GetAllocatedCPUSet_ledger c name uid :
  (GetAllocatedCPUSet c name uid).1 = getCPUs (ledgerOf c name) uid.
Proof.
  unfold GetAllocatedCPUSet.
  pose proof (getOrCreateNodeAllocation_fst c name) as Hfst.
  destruct (getOrCreateNodeAllocation c name) as [na c1]. simpl in *.
  by rewrite Hfst.
Qed.

Lemma ledgerOf_onNodeDelete c node name' :
  ledgerOf (onNodeDelete c (DeletedNode (Some node))) name'
  = if decide (cnName node = name') then NewNodeAllocation name' else ledgerOf c name'.
Proof.
  rewrite !ledgerOf_lookup. simpl. rewrite lookup_delete.
  by destruct (decide (cnName node = name')).
Qed.

(** X12: GetAllocatedCPUSet finds the CPU set of a pod after Update recorded
    it on a node with a valid CPU topology, and finds nothing for the pod
    after Release, nor after the node is deleted. *)
Theorem GetAllocatedCPUSet_round_trip (c : resourceManager) (node : CoreNode)
    (a : PodAllocation) (t : CPUTopology) :
  toCPUTopology (GetTopologyOptions c (cnName node)) = Some t → IsValid t = true →
  (GetAllocatedCPUSet (Update c (cnName node) a) (cnName node) (UID a)).1
  = (paCPUSet a, true)
  ∧ (GetAllocatedCPUSet (Release (Update c (cnName node) a) (cnName node) (UID a))
       (cnName node) (UID a)).1 = (∅, false)
  ∧ (GetAllocatedCPUSet (onNodeDelete (Update c (cnName node) a) (DeletedNode (Some node)))
       (cnName node) (UID a)).1 = (∅, false).
Proof.
  intros Ht Hv. rewrite !GetAllocatedCPUSet_ledger.
  rewrite ledgerOf_Release, ledgerOf_onNodeDelete, !decide_True by done.
  rewrite (ledgerOf_Update c (cnName node) a t (cnName node) Ht Hv), decide_True by done.
  unfold getCPUs. rewrite release_pods, update_pods.
  by rewrite lookup_insert_eq, lookup_delete_eq.
Qed.

(** X13: the delete handler drops the ledger of the deleted node, whether it
    is handed the node or a tombstone around it: the node then has a new,
    empty ledger and every other node keeps its own; a nil node and any
    other object change nothing. *)
Theorem onNodeDelete_drops_ledger (c : resourceManager) (node : CoreNode) :
  ledgerOf (onNodeDelete c (DeletedNode (Some node))) (cnName node)
  = NewNodeAllocation (cnName node)
  ∧ onNodeDelete c (DeletedFinalStateUnknown (AnyNode (Some node)))
    = onNodeDelete c (DeletedNode (Some node))
  ∧ (∀ name', name' ≠ cnName node →
              ledgerOf (onNodeDelete c (DeletedNode (Some node))) name' = ledgerOf c name')
  ∧ onNodeDelete c (DeletedNode None) = c
  ∧ onNodeDelete c (DeletedFinalStateUnknown (AnyNode None)) = c
  ∧ onNodeDelete c (DeletedFinalStateUnknown AnyOther) = c
  ∧ onNodeDelete c DeletedOther = c.
Proof.
  split; [|split; [done|split; [|done]]].
  - by rewrite ledgerOf_onNodeDelete, decide_True.
  - intros name' Hne. by rewrite ledgerOf_onNodeDelete, decide_False.
Qed.

Lemma Update_writes_through_witness :
  ledgerOf (Update sampleEmptyManager "node-1" samplePod) "node-1"
  = update (ledgerOf sampleEmptyManager "node-1") samplePod sampleTopology
  ∧ ∀ name', name' ≠ "node-1" →
             ledgerOf (Update sampleEmptyManager "node-1" samplePod) name'
             = ledgerOf sampleEmptyManager name'.
Proof.
  apply (Update_writes_through sampleEmptyManager "node-1" samplePod sampleTopology);
    reflexivity.
Defined.

Lemma GetAllocatedCPUSet_round_trip_witness :
  (GetAllocatedCPUSet (Update sampleEmptyManager (cnName sampleNodeObject) samplePod)
     (cnName sampleNodeObject) (UID samplePod)).1
  = (paCPUSet samplePod, true)
  ∧ (GetAllocatedCPUSet
       (Release (Update sampleEmptyManager (cnName sampleNodeObject) samplePod)
          (cnName sampleNodeObject) (UID samplePod))
       (cnName sampleNodeObject) (UID samplePod)).1 = (∅, false)
  ∧ (GetAllocatedCPUSet
       (onNodeDelete (Update sampleEmptyManager (cnName sampleNodeObject) samplePod)
          (DeletedNode (Some sampleNodeObject)))
       (cnName sampleNodeObject) (UID samplePod)).1 = (∅, false).
Proof.
  apply (GetAllocatedCPUSet_round_trip sampleEmptyManager sampleNodeObject samplePod
           sampleTopology); reflexivity.
Defined.

(** * Further properties of the allocation *)

(** X14: allocateRes takes the lesser of the available and the requested
    quantity: what it allocates and what it leaves add up to what was
    available, and to what was requested. *)
Theorem allocateRes_conserves (available request : Z) :
  (allocateRes available request).2 = Z.min available request
  ∧ (allocateRes available request).1.1 + (allocateRes available request).2 = available
  ∧ (allocateRes available request).1.2 + (allocateRes available request).2 = request.
Proof.
  unfold allocateRes. destruct (Z.compare_spec available request); cbn [fst snd]; lia.
Qed.

Section AllocateProperties.

Variable takePreferredCPUs :
  option CPUTopology → Z → gset Z → gset Z → gmap Z CPUInfo → Z →
  string → string → string → outcome (gset Z).

Lemma allocateCPUSet_without_topology c node pod numaNodes options :
  (toCPUTopology (GetTopologyOptions c (cnName node)) = None →
   (allocateCPUSet takePreferredCPUs c node pod numaNodes options).1
   = Err (Errorf ErrNotFoundCPUTopology))
  ∧ (∀ t, toCPUTopology (GetTopologyOptions c (cnName node)) = Some t →
          IsValid t = false →
          (allocateCPUSet takePreferredCPUs c node pod numaNodes options).1
          = Err (Errorf ErrInvalidCPUTopology)).
Proof.
  unfold allocateCPUSet, GetAvailableCPUs. split.
  - by intros ->.
  - intros t -> ->. done.
Qed.

Lemma byHint_topology c node pod options :
  GetTopologyOptions
    (match NUMANodeAffinity (hint options) with
     | Some _ => allocateResourcesByHint c node pod options
     | None => (Ok [], c)
     end).2 = GetTopologyOptions c.
Proof.
  destruct (NUMANodeAffinity (hint options)); [|done].
  by destruct (allocateResourcesByHint_same c node pod options) as (_ & H & _).
Qed.

(** X15: with CPU binding requested, Allocate never returns an allocation on
    a node whose CPU topology the manager does not have or holds as not
    valid; without a hint the error is the one that names the case. *)
Theorem Allocate_without_topology (c : resourceManager) (node : CoreNode)
    (pod : CorePod) (options : ResourceOptions) :
  requestCPUBind options = true →
  toCPUTopology (GetTopologyOptions c (cnName node)) = None
  ∨ (∃ t, toCPUTopology (GetTopologyOptions c (cnName node)) = Some t
          ∧ IsValid t = false) →
  (∀ a, (Allocate takePreferredCPUs c node pod options).1 ≠ Ok a)
  ∧ (NUMANodeAffinity (hint options) = None →
     (Allocate takePreferredCPUs c node pod options).1
     = Err (Errorf (match toCPUTopology (GetTopologyOptions c (cnName node)) with
                    | None => ErrNotFoundCPUTopology
                    | Some _ => ErrInvalidCPUTopology
                    end))).
Proof.
  intros Hbind Htopo. unfold Allocate. rewrite Hbind.
  pose proof (byHint_topology c node pod options) as Hsame.
  assert (Hfail : ∀ c1 resources, GetTopologyOptions c1 = GetTopologyOptions c →
            (allocateCPUSet takePreferredCPUs c1 node pod resources options).1
            = Err (Errorf (match toCPUTopology (GetTopologyOptions c (cnName node)) with
                           | None => ErrNotFoundCPUTopology
                           | Some _ => ErrInvalidCPUTopology
                           end))).
  { intros c1 resources Hc1.
    destruct (allocateCPUSet_without_topology c1 node pod resources options) as [Hn Hi].
    rewrite Hc1 in Hn, Hi.
    destruct Htopo as [Hnone|(t & Ht & Hv)].
    - rewrite Hnone. by apply Hn.
    - rewrite Ht. by apply (Hi t). }
  split.
  - intros a.
    destruct (match NUMANodeAffinity (hint options) with
              | Some _ => allocateResourcesByHint c node pod options
              | None => (Ok [], c)
              end) as [[resources|e|] c1]; [|done|done].
    simpl in Hsame. specialize (Hfail c1 resources Hsame).
    destruct (allocateCPUSet takePreferredCPUs c1 node pod resources options)
      as [[cpus|e|] c2]; simpl in *; congruence.
  - intros Hnil. rewrite Hnil. specialize (Hfail c [] eq_refl).
    destruct (allocateCPUSet takePreferredCPUs c node pod [] options)
      as [[cpus|e|] c2]; simpl in *; congruence.
Qed.

(** X16: an allocation that Allocate returns carries the identity of the pod
    and the exclusive policy of the options; it has no CPUs unless CPU
    binding was requested, and no NUMA resources unless a hint was given. *)
Theorem Allocate_result_shape (c : resourceManager) (node : CoreNode) (pod : CorePod)
    (options : ResourceOptions) (a : PodAllocation) :
  (Allocate takePreferredCPUs c node pod options).1 = Ok a →
  UID a = podUID pod ∧ Namespace a = podNamespace pod ∧ Name a = podName pod
  ∧ CPUExclusivePolicy a = cpuExclusivePolicy options
  ∧ (requestCPUBind options = false → paCPUSet a = ∅)
  ∧ (NUMANodeAffinity (hint options) = None → NUMANodeResources a = []).
Proof.
  unfold Allocate.
  destruct (NUMANodeAffinity (hint options)) as [mask|] eqn:Hmask.
  - destruct (allocateResourcesByHint c node pod options) as [[resources|e|] c1];
      [|done|done].
    destruct (requestCPUBind options).
    + destruct (allocateCPUSet _ _ _ _ _ _) as [[cpus|e|] c2]; [|done|done].
      simpl. intros [= <-]. by repeat split.
    + simpl. intros [= <-]. by repeat split.
  - destruct (requestCPUBind options).
    + destruct (allocateCPUSet _ _ _ _ _ _) as [[cpus|e|] c2]; [|done|done].
      simpl. intros [= <-]. by repeat split.
    + simpl. intros [= <-]. by repeat split.
Qed.

Lemma takeRemaining_policy options availableCPUs allocatedCPUs strategy needed result r :
  takeRemaining takePreferredCPUs options availableCPUs allocatedCPUs strategy needed result
  = Ok r →
  requiredCPUBindPolicy options = true →
  ∃ t, toCPUTopology (topologyOptions options) = Some t
       ∧ satisfiedRequiredCPUBindPolicy (cpuBindPolicy options) r t = None.
Proof.
  unfold takeRemaining. intros H Hreq. rewrite Hreq in H.
  destruct (if decide (0 < needed) then _ else _) as [r0|e|]; [|done|done].
  destruct (toCPUTopology (topologyOptions options)) as [t|]; [|done].
  destruct (satisfiedRequiredCPUBindPolicy (cpuBindPolicy options) r0 t) eqn:Hs; [done|].
  injection H as <-. by exists t.
Qed.

Lemma takeRemaining_none options availableCPUs allocatedCPUs strategy needed result r :
  takeRemaining takePreferredCPUs options availableCPUs allocatedCPUs strategy needed result
  = Ok r →
  ¬ 0 < needed → r = result.
Proof.
  unfold takeRemaining. intros H Hn. rewrite decide_False in H by done.
  destruct (requiredCPUBindPolicy options); [|congruence].
  destruct (toCPUTopology (topologyOptions options)) as [t|]; [|done].
  destruct (satisfiedRequiredCPUBindPolicy (cpuBindPolicy options) result t); congruence.
Qed.

Lemma allocateCPUSet_Ok c node pod numaNodes options r :
  (allocateCPUSet takePreferredCPUs c node pod numaNodes options).1 = Ok r →
  (requiredCPUBindPolicy options = true →
   ∃ t, toCPUTopology (topologyOptions options) = Some t
        ∧ satisfiedRequiredCPUBindPolicy (cpuBindPolicy options) r t = None)
  ∧ (numaNodes ≠ [] → wrap_int (numCPUsNeeded options - Size r) = 0).
Proof.
  unfold allocateCPUSet.
  destruct (GetAvailableCPUs c (cnName node) (preferredCPUs options))
    as [[[avail allocd]|e|] c1]; [|done|done].
  destruct (if requiredCPUBindPolicy options then _ else _) as [avail'|e|]; [|done|done].
  case_decide; [done|].
  destruct (decide (0 < length numaNodes)%nat) as [Hlen|Hlen].
  - destruct (toCPUTopology (topologyOptions options)) as [t|] eqn:Ht; [|done].
    destruct (takeOnNUMANodes _ _ _ _ _ _ _ _) as [r1|e|]; [|done|done].
    destruct (decide (wrap_int (numCPUsNeeded options - Size r1) ≠ 0)) as [Hne|Heq];
      [done|].
    simpl. intros Hrem. split.
    + intros Hreq. rewrite <- Ht. by eapply takeRemaining_policy.
    + intros _. apply takeRemaining_none in Hrem as ->; [|lia].
      destruct (decide (wrap_int (numCPUsNeeded options - Size r1) = 0)); [done|].
      by exfalso.
  - simpl. intros Hrem. split.
    + intros Hreq. by eapply takeRemaining_policy.
    + intros Hne. destruct numaNodes; [done|]. simpl in Hlen. lia.
Qed.

(** X17: whatever the CPU selector returns, an allocation that Allocate
    returns for a request with a required CPU bind policy has a CPU set that
    passes satisfiedRequiredCPUBindPolicy on the topology of the options. *)
Theorem Allocate_required_policy (c : resourceManager) (node : CoreNode) (pod : CorePod)
    (options : ResourceOptions) (a : PodAllocation) :
  (Allocate takePreferredCPUs c node pod options).1 = Ok a →
  requestCPUBind options = true →
  requiredCPUBindPolicy options = true →
  ∃ t, toCPUTopology (topologyOptions options) = Some t
       ∧ satisfiedRequiredCPUBindPolicy (cpuBindPolicy options) (paCPUSet a) t = None.
Proof.
  unfold Allocate. intros H Hbind Hreq. rewrite Hbind in H.
  destruct (match NUMANodeAffinity (hint options) with
            | Some _ => allocateResourcesByHint c node pod options
            | None => (Ok [], c)
            end) as [[resources|e|] c1]; [|done|done].
  pose proof (allocateCPUSet_Ok c1 node pod resources options) as Hok.
  destruct (allocateCPUSet takePreferredCPUs c1 node pod resources options)
    as [[cpus|e|] c2]; [|done|done].
  simpl in H. injection H as <-. simpl.
  destruct (Hok cpus eq_refl) as [Hpol _]. by apply Hpol.
Qed.

(** X18: whatever the CPU selector returns, an allocation with CPU binding
    that holds NUMA resources has exactly as many CPUs as the options ask
    for (both numbers being Go ints). *)
Theorem Allocate_cpu_count (c : resourceManager) (node : CoreNode) (pod : CorePod)
    (options : ResourceOptions) (a : PodAllocation) :
  (Allocate takePreferredCPUs c node pod options).1 = Ok a →
  requestCPUBind options = true →
  NUMANodeResources a ≠ [] →
  int_range (numCPUsNeeded options) →
  int_range (Size (paCPUSet a)) →
  Size (paCPUSet a) = numCPUsNeeded options.
Proof.
  unfold Allocate. intros H Hbind Hres Hn Hs. rewrite Hbind in H.
  destruct (match NUMANodeAffinity (hint options) with
            | Some _ => allocateResourcesByHint c node pod options
            | None => (Ok [], c)
            end) as [[resources|e|] c1]; [|done|done].
  pose proof (allocateCPUSet_Ok c1 node pod resources options) as Hok.
  destruct (allocateCPUSet takePreferredCPUs c1 node pod resources options)
    as [[cpus|e|] c2]; [|done|done].
  simpl in H. injection H as <-. simpl in *.
  destruct (Hok cpus eq_refl) as [_ Hcount]. specialize (Hcount Hres).
  unfold wrap_int, int_range, int_modulus, int_half, Size in *.
  assert (Hmod : (numCPUsNeeded options - Z.of_nat (size cpus) + 2 ^ 63) mod 2 ^ 64
                 = 2 ^ 63) by lia.
  pose proof (Z.div_mod (numCPUsNeeded options - Z.of_nat (size cpus) + 2 ^ 63) (2 ^ 64)
                ltac:(lia)) as Hdm.
  rewrite Hmod in Hdm. nia.
Qed.

End AllocateProperties.

Lemma Allocate_without_topology_witness :
  (∀ a, (Allocate takeLowestCandidates sampleEmptyManager (mkCoreNode "node-2" ∅)
           samplePodObject sampleBindRequest).1 ≠ Ok a)
  ∧ (NUMANodeAffinity (hint sampleBindRequest) = None →
     (Allocate takeLowestCandidates sampleEmptyManager (mkCoreNode "node-2" ∅)
        samplePodObject sampleBindRequest).1
     = Err (Errorf ErrNotFoundCPUTopology)).
Proof.
  apply (Allocate_without_topology takeLowestCandidates sampleEmptyManager
           (mkCoreNode "node-2" ∅) samplePodObject sampleBindRequest).
  - reflexivity.
  - left. reflexivity.
Defined.

Lemma Allocate_result_shape_witness :
  UID (mkPodAllocation "pod-2" "default" "db" ∅ "" [mkNUMANodeResource 0 {["cpu" := 1000]}])
  = podUID samplePodObject
  ∧ Namespace (mkPodAllocation "pod-2" "default" "db" ∅ ""
                 [mkNUMANodeResource 0 {["cpu" := 1000]}])
    = podNamespace samplePodObject
  ∧ Name (mkPodAllocation "pod-2" "default" "db" ∅ ""
            [mkNUMANodeResource 0 {["cpu" := 1000]}])
    = podName samplePodObject
  ∧ CPUExclusivePolicy (mkPodAllocation "pod-2" "default" "db" ∅ ""
                          [mkNUMANodeResource 0 {["cpu" := 1000]}])
    = cpuExclusivePolicy sampleShareRequest
  ∧ (requestCPUBind sampleShareRequest = false →
     paCPUSet (mkPodAllocation "pod-2" "default" "db" ∅ ""
                 [mkNUMANodeResource 0 {["cpu" := 1000]}]) = ∅)
  ∧ (NUMANodeAffinity (hint sampleShareRequest) = None →
     NUMANodeResources (mkPodAllocation "pod-2" "default" "db" ∅ ""
                          [mkNUMANodeResource 0 {["cpu" := 1000]}]) = []).
Proof.
  apply (Allocate_result_shape takeLowestCandidates sampleManager sampleNodeObject
           samplePodObject sampleShareRequest).
  vm_compute. reflexivity.
Defined.

Lemma Allocate_required_policy_witness :
  ∃ t, toCPUTopology (topologyOptions sampleBindRequest) = Some t
       ∧ satisfiedRequiredCPUBindPolicy (cpuBindPolicy sampleBindRequest)
           (paCPUSet (mkPodAllocation "pod-2" "default" "db" {[2; 3]} "" [])) t = None.
Proof.
  apply (Allocate_required_policy takeLowestCandidates sampleManager sampleNodeObject
           samplePodObject sampleBindRequest).
  - vm_compute. reflexivity.
  - reflexivity.
  - reflexivity.
Defined.

Lemma Allocate_cpu_count_witness :
  Size (paCPUSet (mkPodAllocation "pod-2" "default" "db" {[0; 1]} ""
                    [mkNUMANodeResource 0 {["cpu" := 2000]}]))
  = numCPUsNeeded sampleNUMABindRequest.
Proof.
  apply (Allocate_cpu_count takeLowestCandidates sampleEmptyManager sampleNodeObject
           samplePodObject sampleNUMABindRequest).
  - vm_compute. reflexivity.
  - reflexivity.
  - discriminate.
  - vm_compute. split; [intros H; discriminate H | reflexivity].
  - vm_compute. split; [intros H; discriminate H | reflexivity].
Defined.

(** ** What a successful per-NUMA allocation returns *)

Lemma allocateRes_allocated a q : (allocateRes a q).2 = Z.min a q.
Proof. unfold allocateRes. destruct (Z.compare_spec a q); cbn [fst snd]; lia. Qed.

(** The resources of [r] after the loop over the requests for one NUMA node. *)
Lemma fold_allocateOne_resources l (alloc0 req0 rres0 : gmap string Z)
    (inter0 : gset string) r :
  NoDup l.*1 →
  (fold_left allocateOne l (alloc0, req0, rres0, inter0)).1.2 !! r
  = match (list_to_map l : gmap string Z) !! r, alloc0 !! r with
    | Some q, Some a => if decide (Z.min a q = 0) then rres0 !! r else Some (Z.min a q)
    | _, _ => rres0 !! r
    end.
Proof.
  revert alloc0 req0 rres0 inter0.
  induction l as [|[k q] l IH]; intros alloc0 req0 rres0 inter0 Hnd.
  - simpl. by rewrite lookup_empty.
  - apply NoDup_cons in Hnd as [Hk Hnd]. simpl in Hk.
    apply not_elem_of_list_to_map_1 in Hk.
    cbn [fold_left list_to_map foldr fst snd]. unfold allocateOne at 2.
    destruct (alloc0 !! k) as [a|] eqn:Ha.
    + pose proof (allocateRes_allocated a q) as Hal.
      destruct (allocateRes a q) as [[av rq] al]. simpl in Hal. subst al.
      rewrite IH by done. rewrite !lookup_insert.
      destruct (decide (k = r)) as [<-|Hne].
      * rewrite Hk, Ha.
        destruct (decide (Z.min a q = 0)); [done|]. by rewrite lookup_insert_eq.
      * destruct (decide (Z.min a q = 0)); [done|]. by rewrite lookup_insert_ne.
    + rewrite IH by done. rewrite lookup_insert.
      destruct (decide (k = r)) as [<-|Hne]; [|done]. by rewrite Hk, Ha.
Qed.

Lemma allocateOnNode_result st b :
  ∃ R : gmap string Z,
    haResult (allocateOnNode st b)
    = haResult st ++ (if quotav1.IsZero R then [] else [mkNUMANodeResource b R])
    ∧ ∀ r, R !! r
           = match haRequests st !! r, default ∅ (haAvailable st !! b) !! r with
             | Some q, Some a => if decide (Z.min a q = 0) then None else Some (Z.min a q)
             | _, _ => None
             end.
Proof.
  unfold allocateOnNode.
  pose proof (λ r, fold_allocateOne_resources (map_to_list (haRequests st))
                     (default ∅ (haAvailable st !! b)) (haRequests st) ∅
                     (haIntersection st) r (NoDup_fst_map_to_list _)) as HR.
  destruct (fold_left allocateOne _ _) as [[[allocatable requests] rRes] inter].
  cbn [fst snd] in HR. cbn [haResult]. exists rRes. split.
  - destruct (quotav1.IsZero rRes); [by rewrite app_nil_r | done].
  - intros r. rewrite HR, list_to_map_to_list, lookup_empty.
    destruct (haRequests st !! r); [|done].
    by destruct (default ∅ (haAvailable st !! b) !! r).
Qed.

Lemma sumQty_app bs1 bs2 r : sumQty (bs1 ++ bs2) r = sumQty bs1 r + sumQty bs2 r.
Proof. induction bs1 as [|b bs1 IH]; simpl; [done|]. rewrite IH. lia. Qed.

Lemma remainingAfter_absent cells r q :
  ¬ presentIn cells r → remainingAfter cells r q = q.
Proof.
  induction cells as [|cell cells IH]; intros Hp; [done|].
  change (remainingAfter cells r
            (match cell !! r with Some a => consume a q | None => q end) = q).
  destruct (cell !! r) as [a|] eqn:Ha.
  - exfalso. apply Hp. exists cell. split; [apply elem_of_cons; by left | by eexists].
  - apply IH. intros (x & Hin & Hs). apply Hp. exists x. split; [|done].
    apply elem_of_cons. by right.
Qed.

(** What the loop of [allocateResourcesByHint] has put in its result once it
    has visited the NUMA nodes [visited]. *)
Lemma allocateOnNode_resultInv avail0 reqs0 visited st b :
  visitedInv avail0 reqs0 visited st → b ∉ visited →
  ((∀ r, sumQty (Resources <$> haResult st) r + qty (haRequests st) r = qty reqs0 r)
   ∧ (Node <$> haResult st) `sublist_of` visited
   ∧ (∀ e r x, e ∈ haResult st → Resources e !! r = Some x →
        x ≠ 0 ∧ ∃ cell a v q0, avail0 !! Node e = Some cell ∧ cell !! r = Some a
                               ∧ reqs0 !! r = Some q0
                               ∧ x = Z.min a (remainingAfter (cellsOf avail0 v) r q0))) →
  ((∀ r, sumQty (Resources <$> haResult (allocateOnNode st b)) r
         + qty (haRequests (allocateOnNode st b)) r = qty reqs0 r)
   ∧ (Node <$> haResult (allocateOnNode st b)) `sublist_of` (visited ++ [b])
   ∧ (∀ e r x, e ∈ haResult (allocateOnNode st b) → Resources e !! r = Some x →
        x ≠ 0 ∧ ∃ cell a v q0, avail0 !! Node e = Some cell ∧ cell !! r = Some a
                               ∧ reqs0 !! r = Some q0
                               ∧ x = Z.min a (remainingAfter (cellsOf avail0 v) r q0))).
Proof.
  intros (I1 & _ & I3) Hb (R1 & R2 & R3).
  destruct (allocateOnNode_spec st b) as (S1 & _ & _).
  destruct (allocateOnNode_result st b) as (R & Hres & HR).
  rewrite (I3 b Hb) in S1, HR.
  assert (HqR : ∀ r, (if quotav1.IsZero R then 0 else qty R r) = qty R r).
  { intros r. destruct (quotav1.IsZero R) eqn:Hz; [|done].
    unfold qty. destruct (R !! r) as [x|] eqn:Hx; [|done].
    simpl. symmetry. by eapply IsZero_lookup. }
  split; [|split].
  - intros r. rewrite Hres, fmap_app, sumQty_app.
    replace (sumQty (Resources <$> (if quotav1.IsZero R then []
                                    else [mkNUMANodeResource b R])) r)
      with (qty R r).
    2:{ rewrite <- (HqR r). destruct (quotav1.IsZero R); simpl; [done|lia]. }
    rewrite <- (R1 r).
    assert (qty R r + qty (haRequests (allocateOnNode st b)) r = qty (haRequests st) r);
      [|lia].
    unfold qty. rewrite S1, HR.
    destruct (haRequests st !! r) as [q|]; simpl; [|lia].
    destruct (default ∅ (avail0 !! b) !! r) as [a|]; simpl; [|lia].
    unfold consume. destruct (decide (Z.min a q = 0)); simpl; lia.
  - rewrite Hres, fmap_app. apply sublist_app; [done|].
    destruct (quotav1.IsZero R); simpl; [apply sublist_nil_l | done].
  - intros e r x Hin Hx. rewrite Hres in Hin. apply elem_of_app in Hin as [Hin|Hin].
    { by eapply R3. }
    destruct (quotav1.IsZero R); [by apply not_elem_of_nil in Hin|].
    apply list_elem_of_singleton in Hin as ->. simpl in *.
    rewrite HR, I1 in Hx.
    destruct (reqs0 !! r) as [q0|] eqn:Hq0; [|done]. simpl in Hx.
    destruct (avail0 !! b) as [cell|] eqn:Hcell; simpl in Hx;
      [|by rewrite lookup_empty in Hx].
    destruct (cell !! r) as [a|] eqn:Ha; [|done].
    destruct (decide (Z.min a (remainingAfter (cellsOf avail0 visited) r q0) = 0));
      [done|].
    injection Hx as <-. split; [done|]. by exists cell, a, visited, q0.
Qed.

Lemma allocateOnNodes_resultInv avail0 reqs0 bits :
  NoDup bits →
  ∃ visited rest,
    bits = visited ++ rest
    ∧ visitedInv avail0 reqs0 visited (allocateOnNodes bits (mkHintAlloc avail0 reqs0 ∅ []))
    ∧ (rest = [] ∨ quotav1.IsZero
                     (haRequests (allocateOnNodes bits (mkHintAlloc avail0 reqs0 ∅ [])))
                   = true)
    ∧ (∀ r, sumQty (Resources <$> haResult (allocateOnNodes bits
                                              (mkHintAlloc avail0 reqs0 ∅ []))) r
            + qty (haRequests (allocateOnNodes bits (mkHintAlloc avail0 reqs0 ∅ []))) r
            = qty reqs0 r)
    ∧ (Node <$> haResult (allocateOnNodes bits (mkHintAlloc avail0 reqs0 ∅ [])))
      `sublist_of` bits
    ∧ (∀ e r x, e ∈ haResult (allocateOnNodes bits (mkHintAlloc avail0 reqs0 ∅ [])) →
         Resources e !! r = Some x →
         x ≠ 0 ∧ ∃ cell a v q0, avail0 !! Node e = Some cell ∧ cell !! r = Some a
                                ∧ reqs0 !! r = Some q0
                                ∧ x = Z.min a (remainingAfter (cellsOf avail0 v) r q0)).
Proof.
  intros Hnd.
  assert (Hgen : ∀ bits visited st,
    NoDup (visited ++ bits) →
    visitedInv avail0 reqs0 visited st →
    ((∀ r, sumQty (Resources <$> haResult st) r + qty (haRequests st) r = qty reqs0 r)
     ∧ (Node <$> haResult st) `sublist_of` visited
     ∧ (∀ e r x, e ∈ haResult st → Resources e !! r = Some x →
          x ≠ 0 ∧ ∃ cell a v q0, avail0 !! Node e = Some cell ∧ cell !! r = Some a
                                 ∧ reqs0 !! r = Some q0
                                 ∧ x = Z.min a (remainingAfter (cellsOf avail0 v) r q0))) →
    ∃ visited' rest,
      visited ++ bits = visited' ++ rest
      ∧ visitedInv avail0 reqs0 visited' (allocateOnNodes bits st)
      ∧ (rest = [] ∨ quotav1.IsZero (haRequests (allocateOnNodes bits st)) = true)
      ∧ ((∀ r, sumQty (Resources <$> haResult (allocateOnNodes bits st)) r
               + qty (haRequests (allocateOnNodes bits st)) r = qty reqs0 r)
         ∧ (Node <$> haResult (allocateOnNodes bits st)) `sublist_of` visited'
         ∧ (∀ e r x, e ∈ haResult (allocateOnNodes bits st) →
              Resources e !! r = Some x →
              x ≠ 0 ∧ ∃ cell a v q0, avail0 !! Node e = Some cell ∧ cell !! r = Some a
                                     ∧ reqs0 !! r = Some q0
                                     ∧ x = Z.min a (remainingAfter (cellsOf avail0 v) r q0)))).
  { clear bits Hnd. intros bits. induction bits as [|b bits IH]; intros visited st Hnd Hinv HR.
    - exists visited, []. split; [done|]. split; [done|]. split; [by left|done].
    - simpl.
      assert (Hb : b ∉ visited).
      { apply NoDup_app in Hnd as (_ & Hd & _). intros Hin. apply (Hd b Hin).
        apply elem_of_cons. by left. }
      pose proof (allocateOnNode_visitedInv _ _ _ _ _ Hinv Hb) as Hinv'.
      pose proof (allocateOnNode_resultInv _ _ _ _ _ Hinv Hb HR) as HR'.
      destruct (quotav1.IsZero (haRequests (allocateOnNode st b))) eqn:Hz.
      + exists (visited ++ [b]), bits. split; [by rewrite <- app_assoc|].
        split; [done|]. split; [by right|done].
      + destruct (IH (visited ++ [b]) (allocateOnNode st b))
          as (v' & rest & Heq & Hi & Hr & HR''); [by rewrite <- app_assoc | done | done |].
        exists v', rest. split; [|done]. by rewrite <- Heq, <- app_assoc. }
  destruct (Hgen bits [] (mkHintAlloc avail0 reqs0 ∅ [])) as
    (visited & rest & Heq & Hinv & Hend & R1 & R2 & R3).
  - done.
  - split; [|split]; simpl.
    + intros r. by destruct (reqs0 !! r).
    + intros r. split; [intros Hr; by apply not_elem_of_empty in Hr|].
      intros (_ & cell & Hin & _). by apply not_elem_of_nil in Hin.
    + done.
  - simpl. split; [intros r; lia|]. split; [done|].
    intros e r x Hin. by apply not_elem_of_nil in Hin.
  - simpl in Heq. exists visited, rest. split; [done|]. split; [done|]. split; [done|].
    split; [done|]. split; [|done].
    transitivity visited; [done|]. rewrite Heq. by apply sublist_inserts_r.
Qed.

Lemma presentIn_app_l cells1 cells2 r :
  presentIn cells1 r → presentIn (cells1 ++ cells2) r.
Proof.
  intros (x & Hin & Hs). exists x. split; [|done]. apply elem_of_app. by left.
Qed.

(** X19: when the per-NUMA allocation step succeeds, the quantities it
    allocates on the NUMA nodes add up to the request, for every requested
    resource that some cell of the mask has; nothing is allocated of a
    resource that no cell of the mask has. *)
Theorem allocateResourcesByHint_conserves (c : resourceManager) (node : CoreNode)
    (pod : CorePod) (options : ResourceOptions) (mask : Z)
    (result : list NUMANodeResource) (r : string) (q : Z) :
  NUMANodeAffinity (hint options) = Some mask →
  (allocateResourcesByHint c node pod options).1 = Ok result →
  requestsByHint options !! r = Some q →
  (presentIn
     (cellsOf (managerAvailableNUMANodeResources c (cnName node)
                 (topologyOptions options) (reusableResources options)).1.1
              (bitmask.GetBits mask)) r →
   sumQty (Resources <$> result) r = q)
  ∧ (¬ presentIn
         (cellsOf (managerAvailableNUMANodeResources c (cnName node)
                     (topologyOptions options) (reusableResources options)).1.1
                  (bitmask.GetBits mask)) r →
     sumQty (Resources <$> result) r = 0).
Proof.
  intros Hmask. unfold allocateResourcesByHint, managerAvailableNUMANodeResources.
  destruct (getOrCreateNodeAllocation c (cnName node)) as [na c'].
  cbn [fst snd]. rewrite Hmask. fold (requestsByHint options).
  destruct (getAvailableNUMANodeResources na (topologyOptions options))
    as [avail alloc'] eqn:Hav.
  cbn [fst snd] in *.
  destruct (decide (length (toNUMANodeResources (topologyOptions options)) = 0%nat));
    [done|].
  destruct (allocateOnNodes_resultInv avail (requestsByHint options)
              (bitmask.GetBits mask) (NoDup_GetBits mask))
    as (visited & rest & Hbits & (I1 & I2 & _) & Hend & R1 & _ & _).
  pose proof (fold_addReason
                (haIntersection (allocateOnNodes (bitmask.GetBits mask)
                   (mkHintAlloc avail (requestsByHint options) ∅ [])))
                (map_to_list (haRequests (allocateOnNodes (bitmask.GetBits mask)
                   (mkHintAlloc avail (requestsByHint options) ∅ [])))) []) as Hreasons.
  set (st := allocateOnNodes (bitmask.GetBits mask)
               (mkHintAlloc avail (requestsByHint options) ∅ [])) in *.
  clearbody st.
  destruct (decide (0 < length (fold_left (addReason (haIntersection st))
                                  (map_to_list (haRequests st)) []))%nat) as [|Hnone];
    [done|].
  simpl. intros [= <-] Hq.
  specialize (R1 r). specialize (I1 r). rewrite Hq in I1. simpl in I1.
  unfold qty in R1. rewrite I1, Hq in R1. simpl in R1.
  assert (Hno : ∀ k q', haRequests st !! k = Some q' → k ∈ haIntersection st → q' = 0).
  { intros k q' Hk Hin. destruct (decide (q' = 0)) as [|Hne]; [done|]. exfalso.
    apply Hnone.
    assert (Hx : ("Insufficient NUMA " +:+ k)%string
                 ∈ fold_left (addReason (haIntersection st))
                     (map_to_list (haRequests st)) []).
    { apply Hreasons. right. exists k, q'. split; [by apply elem_of_map_to_list|done]. }
    destruct (fold_left _ _ _); simpl; [by apply not_elem_of_nil in Hx | lia]. }
  rewrite Hbits. unfold cellsOf. rewrite fmap_app.
  fold (cellsOf avail visited). fold (cellsOf avail rest).
  split.
  - intros Hp.
    assert (remainingAfter (cellsOf avail visited) r q = 0); [|lia].
    destruct Hend as [->|Hz].
    + simpl in Hp. rewrite app_nil_r in Hp. apply (Hno r); [done|].
      apply I2. split; [by eexists | done].
    + by eapply IsZero_lookup.
  - intros Hp.
    rewrite remainingAfter_absent in R1; [lia|].
    intros Hp'. apply Hp. by apply presentIn_app_l.
Qed.

Lemma byHint_entries (c : resourceManager)
    (node : CoreNode) (pod : CorePod) (options : ResourceOptions) (mask : Z)
    (result : list NUMANodeResource) :
  NUMANodeAffinity (hint options) = Some mask →
  (allocateResourcesByHint c node pod options).1 = Ok result →
  nonnegResources (requestsByHint options) →
  (Node <$> result) `sublist_of` bitmask.GetBits mask
  ∧ ∀ e r x, e ∈ result → Resources e !! r = Some x →
      is_Some (requestsByHint options !! r)
      ∧ ∃ cell a,
          (managerAvailableNUMANodeResources c (cnName node) (topologyOptions options)
             (reusableResources options)).1.1 !! Node e = Some cell
          ∧ cell !! r = Some a ∧ 0 < x <= a.
Proof.
  intros Hmask. unfold allocateResourcesByHint, managerAvailableNUMANodeResources.
  destruct (getOrCreateNodeAllocation c (cnName node)) as [na c'].
  cbn [fst snd]. rewrite Hmask. fold (requestsByHint options).
  pose proof (cellsOf_available_nonneg na (topologyOptions options)) as Hcells.
  pose proof (getAvailableNUMANodeResources_nonneg na (topologyOptions options)) as Hnn.
  destruct (getAvailableNUMANodeResources na (topologyOptions options))
    as [avail alloc'] eqn:Hav.
  cbn [fst snd] in *.
  destruct (decide (length (toNUMANodeResources (topologyOptions options)) = 0%nat));
    [done|].
  destruct (allocateOnNodes_resultInv avail (requestsByHint options)
              (bitmask.GetBits mask) (NoDup_GetBits mask))
    as (visited & rest & Hbits & _ & _ & _ & R2 & R3).
  destruct (decide (0 < length _)%nat); [done|].
  simpl. intros [= <-] Hreq. split; [done|].
  intros e r x Hin Hx.
  destruct (R3 e r x Hin Hx) as (Hne & cell & a & v & q0 & Hcell & Ha & Hq0 & ->).
  split; [by eexists|]. exists cell, a. split; [done|]. split; [done|].
  pose proof (Hnn _ _ Hcell r a Ha).
  pose proof (remainingAfter_nonneg (cellsOf avail v) r q0 (Hcells v) (Hreq r q0 Hq0)).
  lia.
Qed.

(** X20: when the per-NUMA allocation step succeeds for a request without
    negative quantities, its result names NUMA nodes of the mask, each once
    and in ascending order, and every quantity in it is positive, is of a
    requested resource, and is at most what the manager has available of
    that resource on that NUMA node. *)
Theorem allocateResourcesByHint_within_availability (c : resourceManager)
    (node : CoreNode) (pod : CorePod) (options : ResourceOptions) (mask : Z)
    (result : list NUMANodeResource) :
  NUMANodeAffinity (hint options) = Some mask →
  (allocateResourcesByHint c node pod options).1 = Ok result →
  nonnegResources (requestsByHint options) →
  (Node <$> result) `sublist_of` bitmask.GetBits mask
  ∧ ∀ e r x, e ∈ result → Resources e !! r = Some x →
      is_Some (requestsByHint options !! r)
      ∧ ∃ cell a,
          (managerAvailableNUMANodeResources c (cnName node) (topologyOptions options)
             (reusableResources options)).1.1 !! Node e = Some cell
          ∧ cell !! r = Some a ∧ 0 < x <= a.
Proof. apply byHint_entries. Qed.

Lemma allocateResourcesByHint_conserves_witness :
  (presentIn
     (cellsOf (managerAvailableNUMANodeResources sampleEmptyManager
                 (cnName sampleNodeObject) (topologyOptions sampleSpreadRequest)
                 (reusableResources sampleSpreadRequest)).1.1
              (bitmask.GetBits 3)) "cpu" →
   sumQty (Resources <$> [mkNUMANodeResource 0 {["cpu" := 4000]};
                          mkNUMANodeResource 1 {["cpu" := 2000]}]) "cpu" = 6000)
  ∧ (¬ presentIn
         (cellsOf (managerAvailableNUMANodeResources sampleEmptyManager
                     (cnName sampleNodeObject) (topologyOptions sampleSpreadRequest)
                     (reusableResources sampleSpreadRequest)).1.1
                  (bitmask.GetBits 3)) "cpu" →
     sumQty (Resources <$> [mkNUMANodeResource 0 {["cpu" := 4000]};
                            mkNUMANodeResource 1 {["cpu" := 2000]}]) "cpu" = 0).
Proof.
  apply (allocateResourcesByHint_conserves sampleEmptyManager sampleNodeObject
           samplePodObject sampleSpreadRequest 3).
  - reflexivity.
  - vm_compute. reflexivity.
  - reflexivity.
Defined.

Lemma allocateResourcesByHint_within_availability_witness :
  (Node <$> [mkNUMANodeResource 0 {["cpu" := 4000]};
             mkNUMANodeResource 1 {["cpu" := 2000]}]) `sublist_of` bitmask.GetBits 3
  ∧ ∀ e r x,
      e ∈ [mkNUMANodeResource 0 {["cpu" := 4000]};
           mkNUMANodeResource 1 {["cpu" := 2000]}] →
      Resources e !! r = Some x →
      is_Some (requestsByHint sampleSpreadRequest !! r)
      ∧ ∃ cell a,
          (managerAvailableNUMANodeResources sampleEmptyManager (cnName sampleNodeObject)
             (topologyOptions sampleSpreadRequest)
             (reusableResources sampleSpreadRequest)).1.1 !! Node e = Some cell
          ∧ cell !! r = Some a ∧ 0 < x <= a.
Proof.
  apply (allocateResourcesByHint_within_availability sampleEmptyManager sampleNodeObject
           samplePodObject sampleSpreadRequest 3).
  - reflexivity.
  - vm_compute. reflexivity.
  - intros r q Hq. unfold requestsByHint in Hq. simpl in Hq.
    apply lookup_singleton_Some in Hq as [_ <-]. lia.
Defined.

(** ** The filter on the candidates under a required CPU bind policy *)

Lemma CPUsInCores_all_cores (d : CPUDetails) : CPUsInCores d (elements (Cores d)) = CPUs d.
Proof.
  unfold CPUsInCores, CPUs, Cores. apply set_eq; intros c.
  rewrite !elem_of_dom. split.
  - intros [i Hi]. apply map_lookup_filter_Some in Hi as [Hi _]. by exists i.
  - intros [i Hi]. exists i. apply map_lookup_filter_Some. split; [done|].
    simpl. apply elem_of_elements, elem_of_map_to_set. by exists c, i.
Qed.

Lemma CPUs_KeepOnly (d : CPUDetails) (cpus : CPUSet) :
  CPUs (KeepOnly d cpus) = cpus ∩ CPUs d.
Proof.
  unfold CPUs, KeepOnly. apply set_eq; intros c.
  rewrite elem_of_intersection, !elem_of_dom. split.
  - intros [i Hi]. apply map_lookup_filter_Some in Hi as [Hi Hin]. split; [done|by exists i].
  - intros [Hin [i Hi]]. exists i. by apply map_lookup_filter_Some.
Qed.

(** X21: given the details of the candidates, as allocateCPUSet gives them,
    the filter for a required CPU bind policy removes no candidate that the
    topology describes: it returns the candidates as they are, for every
    policy, and panics only under FullPCPUs with zero CPUs per core. *)
Theorem filterAvailableCPUs_keeps_candidates (policy : string) (availableCPUs : CPUSet)
    (details : CPUDetails) (cpusPerCore : Z) :
  availableCPUs ⊆ CPUs details →
  filterAvailableCPUsByRequiredCPUBindPolicy policy availableCPUs
    (KeepOnly details availableCPUs) cpusPerCore
  = if decide (policy = CPUBindPolicyFullPCPUs ∧ cpusPerCore = 0) then Panic
    else Ok availableCPUs.
Proof.
  intros Hsub. unfold filterAvailableCPUsByRequiredCPUBindPolicy.
  rewrite CPUsInCores_all_cores, CPUs_KeepOnly.
  replace (availableCPUs ∩ CPUs details) with availableCPUs by set_solver.
  destruct (decide (policy = CPUBindPolicyFullPCPUs)) as [Hp|Hp].
  - destruct (decide (cpusPerCore = 0)) as [Hz|Hz].
    + by rewrite decide_True.
    + rewrite (decide_False (P := _ ∧ _)) by (by intros [_ ?]).
      by destruct (decide _).
  - by rewrite (decide_False (P := _ ∧ _)) by (by intros [? _]).
Qed.

Lemma filterAvailableCPUs_keeps_candidates_witness :
  filterAvailableCPUsByRequiredCPUBindPolicy CPUBindPolicyFullPCPUs {[1; 2; 3]}
    (KeepOnly (topoCPUDetails sampleTopology) {[1; 2; 3]}) 2
  = if decide (CPUBindPolicyFullPCPUs = CPUBindPolicyFullPCPUs ∧ 2 = 0) then Panic
    else Ok {[1; 2; 3]}.
Proof.
  apply (filterAvailableCPUs_keeps_candidates CPUBindPolicyFullPCPUs {[1; 2; 3]}
           (topoCPUDetails sampleTopology) 2).
  refine (bool_decide_unpack _ _). vm_compute. exact I.
Defined.

(** ** Hints and the allocation by hint *)

Lemma availableOfMask_sumAdd avail bits :
  availableOfMask avail bits = sumAdd ∅ (cellsOf avail bits).
Proof.
  unfold availableOfMask, sumAdd, cellsOf.
  assert (H : ∀ R : gmap string Z,
            fold_left (λ available nodeID,
                         quotav1.Add available (default ∅ (avail !! nodeID))) bits R
            = fold_left quotav1.Add ((λ b, default ∅ (avail !! b)) <$> bits) R); [|done].
  induction bits as [|b bits IH]; intros R; simpl; [done|]. apply IH.
Qed.

Lemma availableOfMask_present avail bits r :
  is_Some (availableOfMask avail bits !! r) ↔ presentIn (cellsOf avail bits) r.
Proof.
  rewrite availableOfMask_sumAdd, <- elem_of_dom, dom_sumAdd, dom_empty_L.
  rewrite elem_of_union, elem_of_union_list. unfold presentIn. split.
  - intros [Hin|(X & HX & Hr)]; [by apply not_elem_of_empty in Hin|].
    apply list_elem_of_fmap in HX as (cell & -> & Hcell).
    exists cell. split; [done|]. by apply elem_of_dom.
  - intros (cell & Hcell & Hs). right. exists (dom cell). split.
    + apply list_elem_of_fmap. by exists cell.
    + by apply elem_of_dom.
Qed.

Lemma remainingAfter_le cells r q :
  Forall nonnegResources cells →
  remainingAfter cells r q <= Z.max 0 (q - sumQty cells r).
Proof.
  intros Hcells. revert q. induction Hcells as [|cell cells Hc Hcells IH]; intros q.
  - unfold remainingAfter. simpl. lia.
  - change (remainingAfter cells r
              (match cell !! r with Some a => consume a q | None => q end)
            <= Z.max 0 (q - (qty cell r + sumQty cells r))).
    pose proof (sumQty_nonneg cells r Hcells) as Hs.
    unfold qty. destruct (cell !! r) as [a|] eqn:Ha; simpl.
    + pose proof (Hc r a Ha). pose proof (IH (consume a q)) as Hle.
      unfold consume in *. lia.
    + pose proof (IH q). lia.
Qed.

(** A hint of [generateResourceHints] is for a mask whose summed
    availability meets the request. *)
Lemma generateResourceHints_hint_meets numaNodes podRequests totalAvailable hints r m :
  generateResourceHints numaNodes podRequests totalAvailable = Some hints →
  hasHint hints r m →
  meetsRequest podRequests (summedAvailability totalAvailable m).
Proof.
  unfold generateResourceHints.
  destruct (mapM id (bitmask.IterateBitMasks numaNodes)) as [masks|]; [|done].
  cbn [mbind option_bind].
  destruct (fold_hintCallback podRequests totalAvailable masks
              (Z.of_nat (length numaNodes)) ∅) as (Hh & _).
  destruct (fold_left (hintCallback podRequests totalAvailable) masks
              (Z.of_nat (length numaNodes), ∅)) as [minSize hints1].
  cbn [fst snd] in Hh. intros [= <-] [p Hin].
  rewrite fold_markPreferred_lookup in Hin by apply NoDup_fst_map_to_list.
  assert (Hsrc : ∃ p0, mkNUMATopologyHint (Some m) p0 ∈ default [] (hints1 !! r)).
  { destruct (decide (r ∈ (map_to_list podRequests).*1)); [|by exists p].
    destruct (hints1 !! r) as [l|]; simpl in *; [|by apply not_elem_of_nil in Hin].
    apply list_elem_of_fmap in Hin as ([aff p0] & Heq & Hin0).
    simpl in Heq. injection Heq as <- _. by exists p0. }
  destruct Hsrc as [p0 Hin0].
  apply Hh in Hin0 as [Hin0|(m' & _ & Hle & _ & _ & Heq)].
  - rewrite lookup_empty in Hin0. by apply not_elem_of_nil in Hin0.
  - injection Heq as <- _. by apply LessThanOrEqual_meetsRequest.
Qed.

(** X22: a mask that GetTopologyHints offers can be allocated: on the same
    manager state, and for the requests the hints were made for, the
    per-NUMA allocation step with that mask as the hint returns a result. *)
Theorem hinted_mask_allocates (c : resourceManager) (node : CoreNode) (pod : CorePod)
    (options : ResourceOptions) (hints : gmap string (list NUMATopologyHint))
    (r : string) (m : Z) :
  (GetTopologyHints c node pod options).1 = Ok hints →
  hasHint hints r m →
  NUMANodeAffinity (hint options) = Some m →
  requestsByHint options = requests options →
  ∃ result, (allocateResourcesByHint c node pod options).1 = Ok result.
Proof.
  unfold GetTopologyHints, allocateResourcesByHint, managerAvailableNUMANodeResources.
  fold (requestsByHint options).
  destruct (getOrCreateNodeAllocation c (cnName node)) as [na c'].
  pose proof (cellsOf_available_nonneg na (topologyOptions options)
                (bitmask.GetBits m)) as Hnn.
  destruct (getAvailableNUMANodeResources na (topologyOptions options))
    as [avail alloc'] eqn:Hav.
  cbn [fst snd] in *.
  destruct (decide (length (toNUMANodeResources (topologyOptions options)) = 0%nat));
    [done|].
  destruct (generateResourceHints _ _ _) as [hints'|] eqn:Hgen; [|done].
  simpl. intros [= <-] Hhint Hmask Hreq. rewrite Hmask, Hreq.
  pose proof (generateResourceHints_hint_meets _ _ _ _ _ _ Hgen Hhint) as Hmeets.
  pose proof (λ x, byHint_reasons avail (requests options) (bitmask.GetBits m) x
                     (NoDup_GetBits m) Hnn) as Hreasons.
  set (reasons := fold_left _ _ []) in *. clearbody reasons.
  destruct reasons as [|x reasons]; [by eexists|]. exfalso.
  destruct (Hreasons x) as [Hx _].
  destruct Hx as (r' & q & Hq & Hp & Hpos & _); [apply elem_of_cons; by left|].
  apply availableOfMask_present in Hp as Hs. destruct Hs as [a Ha].
  pose proof (Hmeets r' q a Hq Ha) as Hle.
  pose proof (remainingAfter_le (cellsOf avail (bitmask.GetBits m)) r' q Hnn) as Hrem.
  assert (Hsum : a = sumQty (cellsOf avail (bitmask.GetBits m)) r').
  { pose proof (qty_sumAdd (cellsOf avail (bitmask.GetBits m)) ∅ r') as Hqty.
    rewrite <- availableOfMask_sumAdd in Hqty. unfold qty in Hqty at 1 2.
    rewrite Ha, lookup_empty in Hqty. simpl in Hqty. lia. }
  lia.
Qed.

Lemma hinted_mask_allocates_witness :
  ∃ result, (allocateResourcesByHint sampleEmptyManager sampleNodeObject samplePodObject
               sampleSpreadRequest).1 = Ok result.
Proof.
  eapply (hinted_mask_allocates sampleEmptyManager sampleNodeObject samplePodObject
            sampleSpreadRequest _ "cpu" 3).
  - vm_compute. reflexivity.
  - exists true. apply list_elem_of_In. vm_compute. left. reflexivity.
  - reflexivity.
  - reflexivity.
Defined.

(** * The CPU information of the node *)

Section CPUInfoProperties.

Import cpuinfo.

Lemma fold_appendTo_lookup (key : ProcessorInfo → Z) (l : list ProcessorInfo)
    (m : gmap Z (list ProcessorInfo)) (k : Z) :
  fold_left (λ m p, appendTo m (key p) p) l m !! k
  = match filter (λ p, key p = k) l with
    | [] => m !! k
    | g => Some (default [] (m !! k) ++ g)
    end.
Proof.
  revert m. induction l as [|p l IH]; intros m; [done|].
  cbn [fold_left]. rewrite IH, filter_cons. unfold appendTo.
  destruct (decide (key p = k)) as [->|Hne].
  - rewrite lookup_insert_eq. simpl.
    destruct (filter (λ p0, key p0 = k) l) as [|p' g]; [done|].
    by rewrite <- app_assoc.
  - by rewrite lookup_insert_ne.
Qed.

Lemma fold_recordProcessor (l : list ProcessorInfo) (st : totalMaps) :
  cpuMap (fold_left recordProcessor l st) = list_to_set (CPUID <$> l) ∪ cpuMap st
  ∧ coreMap (fold_left recordProcessor l st)
    = fold_left (λ m p, appendTo m (CoreID p) p) l (coreMap st)
  ∧ socketMap (fold_left recordProcessor l st)
    = fold_left (λ m p, appendTo m (SocketID p) p) l (socketMap st)
  ∧ nodeMap (fold_left recordProcessor l st)
    = fold_left (λ m p, appendTo m (NodeID p) p) l (nodeMap st)
  ∧ l3Map (fold_left recordProcessor l st)
    = fold_left (λ m p, appendTo m (L3 p) p) l (l3Map st).
Proof.
  revert st. induction l as [|p l IH]; intros st.
  - simpl. split; [set_solver|]. by repeat split.
  - cbn [fold_left]. destruct (IH (recordProcessor st p)) as (H1 & H2 & H3 & H4 & H5).
    rewrite H1, H2, H3, H4, H5. split; [|by repeat split]. simpl. set_solver.
Qed.

Lemma group_lookup (key : ProcessorInfo → Z) (infos l : list ProcessorInfo) (k : Z) :
  fold_left (λ m p, appendTo m (key p) p) infos ∅ !! k = Some l
  ↔ l ≠ [] ∧ l = filter (λ p, key p = k) infos.
Proof.
  rewrite fold_appendTo_lookup, lookup_empty. simpl.
  destruct (filter (λ p, key p = k) infos) as [|p g].
  - split; [done|]. by intros [? ->].
  - split; [by intros [= <-] | by intros [_ ->]].
Qed.

(** X23: each map of calculateCPUTotalInfo groups the processors by the id
    it is keyed by: the group of an id holds the processors with that id,
    in their input order, and no group is empty; NumberCPUs is the number of
    distinct CPU ids, as an int32. *)
Theorem calculateCPUTotalInfo_groups (processorInfos : list ProcessorInfo) :
  (∀ k l, CoreToCPU (calculateCPUTotalInfo processorInfos) !! k = Some l
          ↔ l ≠ [] ∧ l = filter (λ p, CoreID p = k) processorInfos)
  ∧ (∀ k l, SocketToCPU (calculateCPUTotalInfo processorInfos) !! k = Some l
            ↔ l ≠ [] ∧ l = filter (λ p, SocketID p = k) processorInfos)
  ∧ (∀ k l, NodeToCPU (calculateCPUTotalInfo processorInfos) !! k = Some l
            ↔ l ≠ [] ∧ l = filter (λ p, NodeID p = k) processorInfos)
  ∧ (∀ k l, L3ToCPU (calculateCPUTotalInfo processorInfos) !! k = Some l
            ↔ l ≠ [] ∧ l = filter (λ p, L3 p = k) processorInfos)
  ∧ NumberCPUs (calculateCPUTotalInfo processorInfos)
    = wrap_int32 (Z.of_nat (size (list_to_set (CPUID <$> processorInfos) : gset Z))).
Proof.
  unfold calculateCPUTotalInfo.
  destruct (fold_recordProcessor processorInfos (mkTotalMaps ∅ ∅ ∅ ∅ ∅))
    as (H1 & H2 & H3 & H4 & H5).
  cbn [NumberCPUs CoreToCPU SocketToCPU NodeToCPU L3ToCPU].
  rewrite H1, H2, H3, H4, H5. cbn [cpuMap coreMap socketMap nodeMap l3Map].
  split; [|split; [|split; [|split]]]; try (intros k l; apply group_lookup).
  by rewrite (right_id_L ∅ (∪)).
Qed.

(** X24: the less function that getProcessorInfos sorts with is a strict
    weak ordering: it is irreflexive and transitive, and two processors are
    unordered exactly when they agree on node, socket, core and CPU id. *)
Theorem processorLess_strict_weak_order :
  (∀ a, processorLess a a = false)
  ∧ (∀ a b c, processorLess a b = true → processorLess b c = true →
              processorLess a c = true)
  ∧ (∀ a b, processorLess a b = false ∧ processorLess b a = false
            ↔ NodeID a = NodeID b ∧ SocketID a = SocketID b
              ∧ CoreID a = CoreID b ∧ CPUID a = CPUID b).
Proof.
  unfold processorLess. split; [|split].
  - intros a. repeat case_decide; try done. apply bool_decide_eq_false. lia.
  - intros a b c.
    repeat case_decide; rewrite !bool_decide_eq_true; lia.
  - intros a b.
    repeat case_decide; rewrite !bool_decide_eq_false; lia.
Qed.

End CPUInfoProperties.

(** * Recording what the allocation returns *)








Example calculateCPUTotalInfo_sample :
  cpuinfo.NumberCPUs (cpuinfo.calculateCPUTotalInfo sampleProcessors) = 4
  ∧ cpuinfo.CoreToCPU (cpuinfo.calculateCPUTotalInfo sampleProcessors) !! 1
    = Some [cpuinfo.mkProcessorInfo 1 1 0 0 "1" 0 "yes";
            cpuinfo.mkProcessorInfo 3 1 0 0 "1" 0 "yes"].
Proof. split; vm_compute; reflexivity. Qed.

(** * CPUs on distinct cores *)

Lemma size_set_omap (f : Z → option Z) (X : gset Z) :
  (size (set_omap f X : gset Z) <= size X)%nat
  ∧ (size (set_omap f X : gset Z) = size X
     ↔ (∀ c, c ∈ X → is_Some (f c))
       ∧ (∀ c c', c ∈ X → c' ∈ X → f c = f c' → c = c')).
Proof.
  induction X as [|x X Hx [IHle IHeq]] using set_ind_L.
  - assert (Hempty : (set_omap f (∅ : gset Z) : gset Z) = ∅).
    { apply set_eq; intros y. rewrite elem_of_set_omap. set_solver. }
    rewrite Hempty, size_empty. split; [done|]. split; [|done].
    intros _. split; [intros c Hc | intros c c' Hc]; by apply not_elem_of_empty in Hc.
  - assert (Hunion : (set_omap f ({[x]} ∪ X) : gset Z)
                     = match f x with Some y => {[y]} | None => ∅ end ∪ set_omap f X).
    { apply set_eq; intros y.
      rewrite elem_of_union, !elem_of_set_omap. split.
      - intros (c & Hc & Hfc). apply elem_of_union in Hc as [Hc|Hc].
        + apply elem_of_singleton in Hc as ->. left. rewrite Hfc.
          by apply elem_of_singleton.
        + right. by exists c.
      - intros [Hy|(c & Hc & Hfc)].
        + exists x. split; [set_solver|]. destruct (f x) as [y'|]; [|set_solver].
          apply elem_of_singleton in Hy. by subst.
        + exists c. split; [set_solver|done]. }
    rewrite Hunion. clear Hunion.
    rewrite (size_union {[x]} X) by set_solver. rewrite size_singleton.
    destruct (f x) as [y|] eqn:Hfx.
    + destruct (decide (y ∈ (set_omap f X : gset Z))) as [Hy|Hy].
      * replace ({[y]} ∪ set_omap f X) with (set_omap f X : gset Z) by set_solver.
        split; [lia|]. split; [lia|]. intros [_ Hinj]. exfalso.
        apply elem_of_set_omap in Hy as (c' & Hc' & Hfc').
        assert (x = c'); [|set_solver].
        apply Hinj; [set_solver|set_solver|congruence].
      * rewrite (size_union {[y]} (set_omap f X)) by set_solver. rewrite size_singleton.
        split; [lia|]. split.
        -- intros Hsz. assert (Hsz' : size (set_omap f X : gset Z) = size X) by lia.
           apply IHeq in Hsz' as [Htot Hinj]. split.
           ++ intros c Hc. apply elem_of_union in Hc as [Hc|Hc]; [|by apply Htot].
              apply elem_of_singleton in Hc as ->. by rewrite Hfx.
           ++ intros c c' Hc Hc' Hff.
              apply elem_of_union in Hc as [Hc|Hc]; apply elem_of_union in Hc' as [Hc'|Hc'].
              ** apply elem_of_singleton in Hc, Hc'. congruence.
              ** apply elem_of_singleton in Hc as ->. exfalso. apply Hy.
                 apply elem_of_set_omap. exists c'. split; [done|congruence].
              ** apply elem_of_singleton in Hc' as ->. exfalso. apply Hy.
                 apply elem_of_set_omap. exists c. split; [done|congruence].
              ** by apply Hinj.
        -- intros [Htot Hinj]. f_equal. apply IHeq. split.
           ++ intros c Hc. apply Htot. set_solver.
           ++ intros c c' Hc Hc'. apply Hinj; set_solver.
    + rewrite (left_id_L ∅ (∪)). split; [lia|]. split; [lia|].
      intros [Htot _]. exfalso.
      destruct (Htot x) as [? Hs]; [set_solver|congruence].
Qed.

(** X27: a CPU set meets determineSpreadByPCPUs exactly when the topology
    details describe each of its CPUs and no two of its CPUs are on the same
    physical core. *)
Theorem determineSpreadByPCPUs_distinct_cores (cpus : CPUSet) (details : CPUDetails) :
  determineSpreadByPCPUs cpus details = true
  ↔ (∀ c, c ∈ cpus → is_Some (details !! c))
    ∧ (∀ c c' i i', c ∈ cpus → c' ∈ cpus →
         details !! c = Some i → details !! c' = Some i' →
         CoreID i = CoreID i' → c = c').
Proof.
  unfold determineSpreadByPCPUs, Size. rewrite Cores_KeepOnly, bool_decide_eq_true.
  unfold coresCovered.
  destruct (size_set_omap (λ c, CoreID <$> details !! c) cpus) as [_ Heq].
  split.
  - intros Hsz. apply Nat2Z.inj in Hsz. apply Heq in Hsz as [Htot Hinj]. split.
    + intros c Hc. apply Htot in Hc. by apply fmap_is_Some in Hc.
    + intros c c' i i' Hc Hc' Hi Hi' Hcore. apply Hinj; [done|done|].
      rewrite Hi, Hi'. simpl. by rewrite Hcore.
  - intros [Htot Hinj]. f_equal. apply Heq. split.
    + intros c Hc. apply fmap_is_Some. by apply Htot.
    + intros c c' Hc Hc' Hff.
      destruct (Htot c Hc) as [i Hi]. destruct (Htot c' Hc') as [i' Hi'].
      apply (Hinj c c' i i'); try done.
      rewrite Hi, Hi' in Hff. simpl in Hff. congruence.
Qed.
